(** * videotools: the split and merge handlers of [main.py]

    A shallow embedding of the four helper functions of [src/main.py]
    ([split_video_at_marks], [split_video_by_duration], [merge_videos],
    [get_video_files_from_dir]), the properties the specification
    states about them, and further properties of the code: its
    failures, what it leaves on disk and what it returns.

    Times are Python floats, that is IEEE binary64 numbers: they are
    modelled by Rocq's primitive floats, which are the same format with
    the same rounding (to nearest, ties to even).  The file system and
    the video library are modelled as a world threaded through a small
    state-and-exception monad: a handler returns, raises [gr.Error]
    (the input errors shown to the user), or fails with an error of the
    library or the operating system that it does not catch (a file that
    is not a playable video, a directory that cannot be made). *)

From Stdlib Require Import ZArith List String Ascii Bool Floats Lia.
From Stdlib Require Import Permutation Sorted DecimalString DecimalNat.
Import ListNotations.

Local Open Scope string_scope.
Local Open Scope list_scope.

(** ** Strings: the pieces of [str] and [os.path] that the code calls *)

Module Str.

(** [s.split(sep)] for a one-character separator: every occurrence of
    the separator cuts, and the result always has at least one token
    (the empty string splits into one empty token). *)
Fixpoint split (sep : ascii) (s : string) : list string :=
  match s with
  | EmptyString => [EmptyString]
  | String c s' =>
      if Ascii.eqb c sep then EmptyString :: split sep s'
      else match split sep s' with
           | tok :: rest => String c tok :: rest
           | [] => [String c EmptyString]
           end
  end.

Definition startswith (c : ascii) (s : string) : bool :=
  match s with
  | String a _ => Ascii.eqb a c
  | EmptyString => false
  end.

Fixpoint endswith (c : ascii) (s : string) : bool :=
  match s with
  | EmptyString => false
  | String a EmptyString => Ascii.eqb a c
  | String _ s' => endswith c s'
  end.

Fixpoint contains (c : ascii) (s : string) : bool :=
  match s with
  | EmptyString => false
  | String a s' => Ascii.eqb a c || contains c s'
  end.

(** [s.rfind(c)] counted from offset [i]: the index of the last
    occurrence of [c], or [-1]. *)
Fixpoint rfind_from (c : ascii) (s : string) (i : Z) : Z :=
  match s with
  | EmptyString => (-1)%Z
  | String a s' =>
      let r := rfind_from c s' (i + 1) in
      if (0 <=? r)%Z then r else if Ascii.eqb a c then i else (-1)%Z
  end.

Definition rfind (c : ascii) (s : string) : Z := rfind_from c s 0.

(** [s[i:]] and [s[:i]] for [0 <= i]. *)
Fixpoint drop (i : nat) (s : string) : string :=
  match i, s with
  | O, _ => s
  | S i', String _ s' => drop i' s'
  | S _, EmptyString => EmptyString
  end.

Fixpoint take (i : nat) (s : string) : string :=
  match i, s with
  | O, _ => EmptyString
  | S i', String a s' => String a (take i' s')
  | S _, EmptyString => EmptyString
  end.

(** [c.lower()] on ASCII: only [A]..[Z] change. *)
Definition lower_ascii (c : ascii) : ascii :=
  let n := nat_of_ascii c in
  if (65 <=? n)%nat && (n <=? 90)%nat then ascii_of_nat (n + 32) else c.

Fixpoint lower (s : string) : string :=
  match s with
  | EmptyString => EmptyString
  | String c s' => String (lower_ascii c) (lower s')
  end.

(** [s[len(prefix):]] when [s.startswith(prefix)]. *)
Fixpoint strip_prefix (prefix s : string) : option string :=
  match prefix, s with
  | EmptyString, _ => Some s
  | String a p', String b s' =>
      if Ascii.eqb a b then strip_prefix p' s' else None
  | String _ _, EmptyString => None
  end.

(** [str(i)] for a non-negative integer. *)
Definition of_nat (i : nat) : string :=
  NilZero.string_of_uint (Nat.to_uint i).

End Str.

(** ** [os.path] (POSIX flavour) *)

Module OsPath.

(** [os.path.join(a, b)]: an absolute second component replaces the
    first; a separator is inserted unless the first component is empty
    or already ends with one. *)
Definition join (a b : string) : string :=
  if Str.startswith "/" b then b
  else if (a =? "") || Str.endswith "/" a then a ++ b
  else a ++ "/" ++ b.

(** The scan of [genericpath._splitext] that skips the leading dots of
    the file name: is there a character other than a dot at an index in
    [[i, i + n)]? *)
Fixpoint non_dot_before (p : string) (i n : nat) : bool :=
  match n with
  | O => false
  | S n' =>
      match String.get i p with
      | Some c => if Ascii.eqb c "." then non_dot_before p (S i) n' else true
      | None => true
      end
  end.

(** [os.path.splitext(p)]: the extension starts at the last dot, if
    that dot comes after the last separator and after a character of
    the file name that is not a dot. *)
Definition splitext (p : string) : string * string :=
  let sepIndex := Str.rfind "/" p in
  let dotIndex := Str.rfind "." p in
  if (sepIndex <? dotIndex)%Z then
    let filenameIndex := Z.to_nat (sepIndex + 1) in
    if non_dot_before p filenameIndex (Z.to_nat dotIndex - filenameIndex)
    then (Str.take (Z.to_nat dotIndex) p, Str.drop (Z.to_nat dotIndex) p)
    else (p, EmptyString)
  else (p, EmptyString).

End OsPath.

(** ** The video library: clips *)

(** A stretch of the frames of one source file. *)
Record span := mk_span {
  span_src : string;
  t_start : float;
  t_end : float
}.

(** A clip object of the library: the frames it plays, in order, and
    the [duration] attribute the library maintains for it. *)
Record clip := mk_clip {
  frames : list span;
  duration : float
}.

(** What [VideoFileClip(path)] is once the file is open. *)
Record video := mk_video {
  filename : string;
  total : float
}.

(** [VideoFileClip] as a clip: the whole file. *)
Definition whole (v : video) : clip :=
  {| frames := [mk_span (filename v) 0%float (total v)];
     duration := total v |}.

(** [video.subclip(t_start, t_end)] and [video.subclip(t_start)]: the
    frames between the two times; without [t_end] the clip runs to the
    end of the video.  The library sets [duration = t_end - t_start].
    The library's own treatment of out-of-range and negative times is
    not part of the model: a clip records the times it was asked for. *)
Definition subclip (v : video) (start : float) (stop : option float) : clip :=
  let e := match stop with Some e => e | None => total v end in
  {| frames := [mk_span (filename v) start e];
     duration := (e - start)%float |}.

(** [concatenate_videoclips(clips)] with the default method: the clips
    play one after the other; the duration is the last entry of the
    cumulative sum of the durations, started at [0]. *)
Definition concatenate_videoclips (clips : list clip) : clip :=
  {| frames := List.concat (map frames clips);
     duration := fold_left PrimFloat.add (map duration clips) 0%float |}.

(** ** The world: files, and what has been done to them *)

Inductive node :=
  | File (playable : option float)   (* a video of that duration, or other data *)
  | Dir.

Inductive event :=
  | EvOpen (path : string)
  | EvMakedirs (dir : string)
  | EvWrite (path : string) (c : clip).

(** Paths are plain strings, compared as written (no normalisation);
    the order of [fs] is the order in which a directory is listed. *)
Record world := mk_world {
  fs : list (string * node);
  trace : list event
}.

Inductive exn :=
  | GrError (msg : string)     (* gr.Error: shown to the user *)
  | OSError (what : string).   (* raised by the library or the OS, not caught *)

Inductive outcome (A : Type) :=
  | Returns (a : A)
  | Raises (e : exn)
  | Running.                   (* the loop has not finished within the fuel *)

Arguments Returns {A} a.
Arguments Raises {A} e.
Arguments Running {A}.

Definition M (A : Type) : Type := world -> world * outcome A.

Definition ret {A} (a : A) : M A := fun w => (w, Returns a).
Definition raise {A} (e : exn) : M A := fun w => (w, Raises e).
Definition bind {A B} (m : M A) (k : A -> M B) : M B :=
  fun w =>
    match m w with
    | (w', Returns a) => k a w'
    | (w', Raises e) => (w', Raises e)
    | (w', Running) => (w', Running)
    end.

Notation "x <- m ;; k" := (bind m (fun x => k))
  (at level 61, m at next level, right associativity).
Notation "m ;;; k" := (bind m (fun _ => k))
  (at level 61, right associativity).

Definition log (e : event) : M unit :=
  fun w => ({| fs := fs w; trace := trace w ++ [e] |}, Returns tt).

Module Fs.

Fixpoint lookup (p : string) (l : list (string * node)) : option node :=
  match l with
  | [] => None
  | (q, n) :: l' => if q =? p then Some n else lookup p l'
  end.

(** Create or overwrite: an existing entry keeps its place. *)
Fixpoint put (p : string) (n : node) (l : list (string * node))
  : list (string * node) :=
  match l with
  | [] => [(p, n)]
  | (q, m) :: l' => if q =? p then (p, n) :: l' else (q, m) :: put p n l'
  end.

(** What a name in directory [d] is prefixed with in a path. *)
Definition dir_prefix (d : string) : string := OsPath.join d "".

(** The names of the direct entries of [d], in the order of [l]. *)
Fixpoint entries (d : string) (l : list (string * node)) : list string :=
  match l with
  | [] => []
  | (q, _) :: l' =>
      match Str.strip_prefix (dir_prefix d) q with
      | Some f =>
          if (f =? "") || Str.contains "/" f then entries d l'
          else f :: entries d l'
      | None => entries d l'
      end
  end.

End Fs.

(** [os.listdir(directory)] *)
Definition listdir (d : string) : M (list string) :=
  fun w =>
    match Fs.lookup d (fs w) with
    | Some Dir => (w, Returns (Fs.entries d (fs w)))
    | _ => (w, Raises (OSError "listdir"))
    end.

(** [os.path.isfile(path)] *)
Definition isfile (w : world) (p : string) : bool :=
  match Fs.lookup p (fs w) with
  | Some (File _) => true
  | _ => false
  end.

(** [os.makedirs(d, exist_ok=True)] *)
Definition makedirs (d : string) : M unit :=
  fun w =>
    match Fs.lookup d (fs w) with
    | Some Dir => log (EvMakedirs d) w
    | Some (File _) => (w, Raises (OSError "makedirs"))
    | None =>
        log (EvMakedirs d) {| fs := Fs.put d Dir (fs w); trace := trace w |}
    end.

(** [VideoFileClip(path)]: fails on anything but a playable file. *)
Definition VideoFileClip (path : string) : M video :=
  fun w =>
    match Fs.lookup path (fs w) with
    | Some (File (Some d)) => (log (EvOpen path) ;;; ret (mk_video path d)) w
    | _ => (w, Raises (OSError "VideoFileClip"))
    end.

(** [clip.write_videofile(path, codec="libx264", audio_codec="aac")]:
    the encoder is taken to succeed; the file is created or replaced. *)
Definition write_videofile (c : clip) (path : string) : M unit :=
  fun w =>
    log (EvWrite path c)
        {| fs := Fs.put path (File (Some (duration c))) (fs w);
           trace := trace w |}.

(** ** The helper functions of [main.py] *)

Definition video_extensions : list string :=
  [".mp4"; ".avi"; ".mov"; ".mkv"; ".webm"].

Definition is_video_name (f : string) : bool :=
  existsb (String.eqb (Str.lower (snd (OsPath.splitext f)))) video_extensions.

(** [get_video_files_from_dir(directory)]: the list comprehension over
    [os.listdir(directory)]. *)
Definition get_video_files_from_dir (directory : string) : M (list string) :=
  names <- listdir directory ;;
  fun w =>
    (w, Returns
          (map (OsPath.join directory)
               (filter (fun f => isfile w (OsPath.join directory f)
                                 && is_video_name f)
                       names))).

(** [min(a, b)]: the second argument wins only if it compares less. *)
Definition py_min (a b : float) : float := if (b <? a)%float then b else a.

(** [sorted(l)] on floats.  Python's sort is stable and compares with
    [<] only; on a list that [<] orders totally (no NaN) every such
    sort returns the same list, the one this insertion sort returns.
    On lists of at most two elements it returns what CPython returns
    whatever the elements. *)
Fixpoint insert (x : float) (l : list float) : list float :=
  match l with
  | [] => [x]
  | y :: l' => if (y <? x)%float then y :: insert x l' else x :: l
  end.

Fixpoint sorted (l : list float) : list float :=
  match l with
  | [] => []
  | x :: l' => insert x (sorted l')
  end.

(** [for i, clip in enumerate(clips): clip.write_videofile(
    os.path.join(output_dir, f"clip_{i}.mp4"), ...)], from index [i]. *)
Fixpoint write_clips (output_dir : string) (i : nat) (clips : list clip)
  : M unit :=
  match clips with
  | [] => ret tt
  | c :: rest =>
      write_videofile c
        (OsPath.join output_dir ("clip_" ++ Str.of_nat i ++ ".mp4")) ;;;
      write_clips output_dir (S i) rest
  end.

(** The [for] loop of [split_video_at_marks]: one clip per mark. *)
Fixpoint marks_loop (v : video) (marks : list float) (start : float)
    (clips : list clip) : float * list clip :=
  match marks with
  | [] => (start, clips)
  | mark :: rest =>
      let end_ := mark in
      marks_loop v rest end_ (clips ++ [subclip v start (Some end_)])
  end.

(** The clips of [split_video_at_marks], the last one included. *)
Definition marks_clips (v : video) (marks : list float) : list clip :=
  let '(start, clips) := marks_loop v marks 0%float [] in
  if (start <? total v)%float then clips ++ [subclip v start None]
  else clips.

(** The [while] loop of [split_video_by_duration], run for at most
    [fuel] tests of its condition. *)
Fixpoint duration_loop (fuel : nat) (v : video) (d : float) (start : float)
    (clips : list clip) : option (list clip) :=
  match fuel with
  | O => None
  | S fuel' =>
      if (start <? total v)%float then
        let end_ := py_min (start + d)%float (total v) in
        duration_loop fuel' v d end_ (clips ++ [subclip v start (Some end_)])
      else Some clips
  end.

(** [not video_path]: the upload widget passes [None] when no file was
    given; an empty string is falsy too. *)
Definition falsy (s : option string) : bool :=
  match s with
  | None => true
  | Some s => s =? ""
  end.

Section Handlers.

(** [float(s)] on a string: [None] stands for [ValueError]. *)
Variable py_float : string -> option float.

(** [[float(m) for m in tokens]] *)
Fixpoint parse_all (tokens : list string) : option (list float) :=
  match tokens with
  | [] => Some []
  | m :: rest =>
      match py_float m with
      | None => None
      | Some x =>
          match parse_all rest with
          | None => None
          | Some xs => Some (x :: xs)
          end
      end
  end.

(** [split_video_at_marks(video_path, marks)]: the two [if not ...]
    checks, the parse under [try] (a [ValueError] becomes [gr.Error]),
    then the video is opened, cut, written and the directory listed. *)
Definition split_video_at_marks (video_path : option string) (marks : string)
  : M (list string) :=
  match video_path with
  | None => raise (GrError "Please upload a video file.")
  | Some path =>
      if path =? "" then raise (GrError "Please upload a video file.")
      else if marks =? "" then raise (GrError "Please enter at least one mark.")
      else
        match parse_all (Str.split "," marks) with
        | None =>
            raise (GrError "Invalid marks format. Please use comma-separated numbers (e.g., 10,25.5,60).")
        | Some parsed =>
            let marks := sorted parsed in
            v <- VideoFileClip path ;;
            let clips := marks_clips v marks in
            let output_dir := "split_clips_at_marks" in
            makedirs output_dir ;;;
            write_clips output_dir 0 clips ;;;
            get_video_files_from_dir output_dir
        end
  end.

(** [split_video_by_duration(video_path, duration)]; [duration] is the
    text of the field, so [not duration] tests for the empty string
    and ["0"] passes.  [fuel] bounds the tests of the loop condition:
    a loop that has not finished is reported as [Running]. *)
Definition split_video_by_duration (fuel : nat) (video_path : option string)
    (duration : string) : M (list string) :=
  match video_path with
  | None => raise (GrError "Please upload a video file.")
  | Some path =>
      if path =? "" then raise (GrError "Please upload a video file.")
      else if duration =? "" then raise (GrError "Please enter a duration.")
      else
        match py_float duration with
        | None =>
            raise (GrError "Invalid duration format. Please use a number (e.g., 30).")
        | Some d =>
            v <- VideoFileClip path ;;
            match duration_loop fuel v d 0%float [] with
            | None => fun w => (w, Running)
            | Some clips =>
                let output_dir := "split_clips_by_duration" in
                makedirs output_dir ;;;
                write_clips output_dir 0 clips ;;;
                get_video_files_from_dir output_dir
            end
        end
  end.

End Handlers.

(** [[VideoFileClip(path) for path in video_paths]] *)
Fixpoint open_all (paths : list string) : M (list video) :=
  match paths with
  | [] => ret []
  | p :: rest =>
      v <- VideoFileClip p ;;
      vs <- open_all rest ;;
      ret (v :: vs)
  end.

(** [merge_videos(video_paths)]: [not video_paths] holds of [None] and
    of the empty list only. *)
Definition merge_videos (video_paths : option (list string)) : M string :=
  match video_paths with
  | None | Some [] => raise (GrError "Please select at least two video files.")
  | Some paths =>
      clips <- open_all paths ;;
      let final_clip := concatenate_videoclips (map whole clips) in
      let output_path := "merged_video.mp4" in
      write_videofile final_clip output_path ;;;
      ret output_path
  end.

(** ** A fragment of Python's [float(s)]

    The handlers are parameterised by [float]; the examples below use
    this fragment of it: surrounding ASCII white space, an optional
    sign, then [inf], [infinity], [nan] (in any case) or a decimal
    numeral [ddd], [ddd.], [ddd.ddd] or [.ddd], rounded to the nearest
    binary64 number.  Exponents and digit-group underscores are left
    out: Python accepts such tokens, this fragment rejects them. *)

Module PyFloat.

Definition is_space (c : ascii) : bool :=
  let n := nat_of_ascii c in
  (n =? 32)%nat || ((9 <=? n)%nat && (n <=? 13)%nat)
  || ((28 <=? n)%nat && (n <=? 31)%nat).

Fixpoint lstrip (s : string) : string :=
  match s with
  | String c s' => if is_space c then lstrip s' else s
  | EmptyString => EmptyString
  end.

Fixpoint rstrip (s : string) : string :=
  match s with
  | String c s' =>
      match rstrip s' with
      | EmptyString => if is_space c then EmptyString else String c EmptyString
      | r => String c r
      end
  | EmptyString => EmptyString
  end.

Definition digit (c : ascii) : option Z :=
  let n := nat_of_ascii c in
  if (48 <=? n)%nat && (n <=? 57)%nat then Some (Z.of_nat (n - 48)) else None.

(** The longest run of digits at the head of [s]: its value on top of
    [acc], the number of digits read on top of [n], and what follows. *)
Fixpoint digits (s : string) (acc : Z) (n : nat) : Z * nat * string :=
  match s with
  | String c s' =>
      match digit c with
      | Some v => digits s' (10 * acc + v) (S n)
      | None => (acc, n, s)
      end
  | EmptyString => (acc, n, s)
  end.

(** [num / 10 ^ k], correctly rounded. *)
Definition decimal (sign : bool) (num : Z) (k : nat) : float :=
  match num with
  | Zpos m =>
      SF2Prim (SFdiv prec emax (S754_finite sign m 0)
                                (S754_finite false (Z.to_pos (10 ^ Z.of_nat k)) 0))
  | _ => SF2Prim (S754_zero sign)
  end.

Definition unsigned (sign : bool) (body : string) : option float :=
  let low := Str.lower body in
  if (low =? "inf") || (low =? "infinity") then
    Some (if sign then neg_infinity else infinity)
  else if low =? "nan" then Some nan
  else
    match digits body 0 0 with
    | (ip, ni, EmptyString) =>
        match ni with
        | O => None
        | S _ => Some (decimal sign ip 0)
        end
    | (ip, ni, String c frac) =>
        if Ascii.eqb c "." then
          match digits frac ip 0 with
          | (num, nf, EmptyString) =>
              match (ni + nf)%nat with
              | O => None
              | S _ => Some (decimal sign num nf)
              end
          | _ => None
          end
        else None
    end.

Definition float (s : string) : option float :=
  match rstrip (lstrip s) with
  | String c body =>
      if Ascii.eqb c "-" then unsigned true body
      else if Ascii.eqb c "+" then unsigned false body
      else unsigned false (String c body)
  | EmptyString => None
  end.

End PyFloat.


Local Open Scope Z_scope.

(** * The vocabulary of the specification *)

(** ** Times as exact numbers

    Every binary64 number other than NaN is a whole number of units of
    [2 ^ -1074] seconds (the smallest positive binary64 number); the
    infinities are placed at [overflow = 2 ^ 2098] units, above every
    finite number.  [units] is what the comparisons of the format
    compare, and what its addition adds when nothing is rounded. *)

Definition overflow : Z := 2 ^ 2098.

Definition SFunits (x : spec_float) : Z :=
  match x with
  | S754_zero _ => 0
  | S754_nan => 0
  | S754_infinity s => cond_Zopp s overflow
  | S754_finite s m e => cond_Zopp s (Zpos m * 2 ^ (e + 1074))
  end.

Definition units (x : float) : Z := SFunits (Prim2SF x).

(** A time that is a number. *)
Definition not_nan (x : float) : Prop := is_nan x = false.

(** [x <= y] on floats, as a proposition. *)
Definition fle (x y : float) : Prop := (x <=? y)%float = true.

(** Two times are the same when they are the same float or compare
    equal ([==]): [0.0] and [-0.0] are the same time. *)
Definition same_time (x y : float) : Prop := x = y \/ (x =? y)%float = true.

(** ** Segments *)

Definition span_at (path : string) (i : float * float) : span :=
  mk_span path (fst i) (snd i).

Definition same_span (s1 s2 : span) : Prop :=
  span_src s1 = span_src s2
  /\ same_time (t_start s1) (t_start s2)
  /\ same_time (t_end s1) (t_end s2).

(** The frames a list of clips plays, clip after clip. *)
Definition segments (clips : list clip) : list span :=
  List.concat (map frames clips).

(** The exact length of a span, in units of [2 ^ -1074] seconds. *)
Definition span_length (s : span) : Z := units (t_end s) - units (t_start s).

(** The consecutive intervals [[start, m0), [m0, m1), ...] cut by a
    list of marks. *)
Fixpoint intervals (start : float) (marks : list float) : list (float * float) :=
  match marks with
  | [] => []
  | m :: rest => (start, m) :: intervals m rest
  end.

(** The ends the [while] loop computes in its first [j] rounds. *)
Fixpoint cuts (j : nat) (d L start : float) : list float :=
  match j with
  | O => []
  | S j' => let e := py_min (start + d)%float L in e :: cuts j' d L e
  end.

(** After [k] rounds the loop is at [k * d], or at the end of the video. *)
Definition at_round (v : video) (d : float) (k : Z) (s : float) : Prop :=
  is_nan s = false /\ units s = Z.min (k * units d) (units (total v)).

(** The running total of the loop has reached some whole number [k <= 2 ^ 53] of seconds. *)
Definition counting (s : float) : Prop :=
  is_nan s = false /\ exists k, 0 <= k <= 2 ^ 53 /\ units s = k * 2 ^ 1074.

(** The running total of a step that is not positive never is positive. *)
Definition not_advancing (s : float) : Prop := is_nan s = false /\ units s <= 0.

(** The value of [start] after [k] rounds of the body of the [while]
    loop of [split_video_by_duration]. *)
Fixpoint running (k : nat) (d L : float) : float :=
  match k with
  | O => 0%float
  | S k' => py_min (running k' d L + d)%float L
  end.

(** The loop runs its body at least [k + 1] times: the condition
    [start < total_duration] holds of the first [k + 1] running totals. *)
Definition reached (k : nat) (d L : float) : Prop :=
  forall i, (i <= k)%nat -> (running i d L <? L)%float = true.

(** No step is absorbed: every addition the loop performs moves the
    running total up. *)
Definition advancing (d L : float) : Prop :=
  forall k, reached k d L ->
    (running k d L <? running k d L + d)%float = true.

(** The running total is a whole number [k <= 2 ^ 53] of steps of
    [2 ^ g] units. *)
Definition stepping (g : Z) (s : float) : Prop :=
  is_nan s = false /\ exists k, 0 <= k <= 2 ^ 53 /\ units s = k * 2 ^ g.

(** ** What the handlers leave in the world *)

(** The path the clip of index [i] is written to. *)
Definition clip_path (output_dir : string) (i : nat) : string :=
  OsPath.join output_dir ("clip_" ++ Str.of_nat i ++ ".mp4").

(** The writes of [write_clips], in order. *)
Fixpoint write_events (output_dir : string) (i : nat) (clips : list clip)
  : list event :=
  match clips with
  | [] => []
  | c :: rest => EvWrite (clip_path output_dir i) c :: write_events output_dir (S i) rest
  end.

(** The files after [write_clips]. *)
Fixpoint written (output_dir : string) (i : nat) (clips : list clip)
    (l : list (string * node)) : list (string * node) :=
  match clips with
  | [] => l
  | c :: rest =>
      written output_dir (S i) rest
        (Fs.put (clip_path output_dir i) (File (Some (duration c))) l)
  end.

(** A computation that never raises [gr.Error]. *)
Definition no_gr_error {A} (m : M A) : Prop :=
  forall w msg, snd (m w) <> Raises (GrError msg).

(** ** Sorting whole numbers: the image of [sorted] under [units] *)

Fixpoint zinsert (x : Z) (l : list Z) : list Z :=
  match l with
  | [] => [x]
  | y :: l' => if y <? x then y :: zinsert x l' else x :: l
  end.

Fixpoint zsort (l : list Z) : list Z :=
  match l with
  | [] => []
  | x :: l' => zinsert x (zsort l')
  end.

(** ** Inputs of the examples *)

(** A world with one playable file and nothing else. *)
Definition one_video (path : string) (d : float) : world :=
  {| fs := [(path, File (Some d))]; trace := [] |}.

Definition demo_dir : world :=
  {| fs := [("out", Dir);
            ("out/clip_1.mp4", File (Some 5%float));
            ("out/notes.txt", File None);
            ("out/B.MKV", File (Some 7%float));
            ("out/sub.mp4", Dir);
            ("out/.mp4", File None);
            ("out/clip_0.mp4", File (Some 5%float));
            ("elsewhere/x.mp4", File (Some 1%float))];
     trace := [] |}.

(** [2 ^ 53 + 2] seconds. *)
Definition long_video : float := 9007199254740994%float.

(** The binary64 number nearest to one tenth. *)
Definition tenth : float := 0x1.999999999999ap-4%float.

(** [2 ^ -50] seconds, a little under a femtosecond. *)
Definition tiny_step : float := 0x1p-50%float.

(** 29.97 seconds, as binary64 has it. *)
Definition ntsc_step : float := 0x1.df851eb851eb8p+4%float.

(** A mantissa with no bit shifted out of it yet. *)
Definition exact_record (m : Z) : shr_record :=
  {| shr_m := m; shr_r := false; shr_s := false |}.

(** ** Vocabulary of the further properties *)

(** [s.count(c)] for a character. *)
Fixpoint occurrences (c : ascii) (s : string) : nat :=
  match s with
  | EmptyString => O
  | String a s' => if Ascii.eqb a c then S (occurrences c s') else occurrences c s'
  end.

(** What [makedirs(d, exist_ok=True)] leaves of the files when it does
    not fail: the directory is added if nothing has that name. *)
Definition with_dir (d : string) (l : list (string * node)) : list (string * node) :=
  match Fs.lookup d l with
  | None => Fs.put d Dir l
  | Some _ => l
  end.

(** What [get_video_files_from_dir] returns on a directory. *)
Definition video_files (directory : string) (w : world) : list string :=
  map (OsPath.join directory)
      (filter (fun f => isfile w (OsPath.join directory f) && is_video_name f)
              (Fs.entries directory (fs w))).

(** The world after the common tail of the two splitters. *)
Definition after_output (output_dir : string) (clips : list clip) (w : world)
  : world :=
  {| fs := written output_dir 0 clips (with_dir output_dir (fs w));
     trace := trace w ++ EvMakedirs output_dir :: write_events output_dir 0 clips |}.

(** The entries [write_clips] adds to a directory that has none of
    them, from index [i]. *)
Fixpoint new_files (output_dir : string) (i : nat) (clips : list clip)
  : list (string * node) :=
  match clips with
  | [] => []
  | c :: rest =>
      (clip_path output_dir i, File (Some (duration c)))
      :: new_files output_dir (S i) rest
  end.

(** * Properties *)

(** ** The monad and the world *)

Lemma no_gr_error_ret {A} (a : A) : no_gr_error (ret a).
Proof. intros w msg; discriminate. Qed.

Lemma no_gr_error_bind {A B} (m : M A) (k : A -> M B) :
  no_gr_error m -> (forall a, no_gr_error (k a)) -> no_gr_error (bind m k).
Proof.
  intros Hm Hk w msg. unfold bind.
  specialize (Hm w msg).
  destruct (m w) as [w' [a | e | ]]; simpl in *.
  - apply Hk.
  - intros E. apply Hm. inversion E. reflexivity.
  - discriminate.
Qed.

Lemma no_gr_error_log (e : event) : no_gr_error (log e).
Proof. intros w msg; discriminate. Qed.

Lemma no_gr_error_VideoFileClip (path : string) :
  no_gr_error (VideoFileClip path).
Proof.
  intros w msg. unfold VideoFileClip.
  destruct (Fs.lookup path (fs w)) as [[[d | ] | ] | ]; discriminate.
Qed.

Lemma no_gr_error_makedirs (d : string) : no_gr_error (makedirs d).
Proof.
  intros w msg. unfold makedirs.
  destruct (Fs.lookup d (fs w)) as [[p | ] | ]; discriminate.
Qed.

Lemma no_gr_error_write_videofile (c : clip) (path : string) :
  no_gr_error (write_videofile c path).
Proof. intros w msg; discriminate. Qed.

Lemma no_gr_error_write_clips (dir : string) (clips : list clip) (i : nat) :
  no_gr_error (write_clips dir i clips).
Proof.
  revert i. induction clips as [ | c rest IH]; intro i; simpl.
  - apply no_gr_error_ret.
  - apply no_gr_error_bind; [apply no_gr_error_write_videofile | intros _; apply IH].
Qed.

Lemma no_gr_error_listdir (d : string) : no_gr_error (listdir d).
Proof.
  intros w msg. unfold listdir.
  destruct (Fs.lookup d (fs w)) as [[p | ] | ]; discriminate.
Qed.

Lemma no_gr_error_get_video_files_from_dir (d : string) :
  no_gr_error (get_video_files_from_dir d).
Proof.
  apply no_gr_error_bind; [apply no_gr_error_listdir | ].
  intros names w msg; discriminate.
Qed.

Lemma no_gr_error_open_all (paths : list string) : no_gr_error (open_all paths).
Proof.
  induction paths as [ | p rest IH]; simpl.
  - apply no_gr_error_ret.
  - apply no_gr_error_bind; [apply no_gr_error_VideoFileClip | intros v].
    apply no_gr_error_bind; [exact IH | intros vs; apply no_gr_error_ret].
Qed.

Create HintDb effects.

#[local] Hint Resolve no_gr_error_ret no_gr_error_log no_gr_error_VideoFileClip
  no_gr_error_makedirs no_gr_error_write_videofile no_gr_error_write_clips
  no_gr_error_listdir no_gr_error_get_video_files_from_dir
  no_gr_error_open_all : effects.

(** Opening a list of playable files leaves the files alone, logs the
    opens in list order and yields the videos in list order. *)
Lemma open_all_playable (paths : list string) (ds : list float) (w : world) :
  Forall2 (fun p d => Fs.lookup p (fs w) = Some (File (Some d))) paths ds ->
  open_all paths w =
    ({| fs := fs w; trace := trace w ++ map EvOpen paths |},
     Returns (map (fun pd => mk_video (fst pd) (snd pd)) (combine paths ds))).
Proof.
  intros H. revert w H.
  induction paths as [ | p rest IH] in ds |- *; intros w H; inversion H; subst; simpl.
  - unfold ret. rewrite app_nil_r. destruct w; reflexivity.
  - unfold bind at 1. unfold VideoFileClip. rewrite H2.
    unfold bind at 1, log, ret; simpl.
    unfold bind. rewrite (IH l') by (simpl; assumption). simpl.
    rewrite <- app_assoc. reflexivity.
Qed.

Lemma lookup_put_same (p : string) (n : node) (l : list (string * node)) :
  Fs.lookup p (Fs.put p n l) = Some n.
Proof.
  induction l as [ | [q m] l IH]; simpl.
  - rewrite String.eqb_refl. reflexivity.
  - destruct (q =? p)%string eqn:E; simpl.
    + rewrite String.eqb_refl. reflexivity.
    + rewrite E. exact IH.
Qed.

Lemma lookup_put_other (p q : string) (n : node) (l : list (string * node)) :
  (p =? q)%string = false -> Fs.lookup q (Fs.put p n l) = Fs.lookup q l.
Proof.
  intros Hpq. induction l as [ | [k m] l IH]; simpl.
  - rewrite Hpq. reflexivity.
  - destruct (k =? p)%string eqn:E; simpl.
    + apply String.eqb_eq in E. subst k. rewrite Hpq. reflexivity.
    + rewrite IH. reflexivity.
Qed.

Lemma whole_frames (paths : list string) (ds : list float) :
  List.concat (map frames (map whole
    (map (fun pd => mk_video (fst pd) (snd pd)) (combine paths ds)))) =
  map (fun pd => mk_span (fst pd) 0%float (snd pd)) (combine paths ds).
Proof.
  induction (combine paths ds) as [ | pd l IH]; simpl; [reflexivity | ].
  rewrite IH. reflexivity.
Qed.

Lemma whole_durations (paths : list string) (ds : list float) :
  List.length paths = List.length ds ->
  map duration (map whole
    (map (fun pd => mk_video (fst pd) (snd pd)) (combine paths ds))) = ds.
Proof.
  revert ds. induction paths as [ | p rest IH]; intros [ | d ds]; simpl;
    try discriminate; try reflexivity.
  intros H. injection H as H. rewrite (IH ds H). reflexivity.
Qed.

Lemma write_clips_run (output_dir : string) (clips : list clip) (i : nat) (w : world) :
  write_clips output_dir i clips w =
    ({| fs := written output_dir i clips (fs w);
        trace := trace w ++ write_events output_dir i clips |}, Returns tt).
Proof.
  revert i w. induction clips as [ | c rest IH]; intros i w; simpl.
  - unfold ret. rewrite app_nil_r. destruct w; reflexivity.
  - unfold bind, write_videofile, log. rewrite IH. cbn [fs trace].
    rewrite <- app_assoc. reflexivity.
Qed.

Lemma lookup_written_other (output_dir q : string) (clips : list clip) (i : nat)
    (l : list (string * node)) :
  (forall k, (clip_path output_dir k =? q)%string = false) ->
  Fs.lookup q (written output_dir i clips l) = Fs.lookup q l.
Proof.
  intros H. revert i l. induction clips as [ | c rest IH]; intros i l; simpl.
  - reflexivity.
  - rewrite IH. apply lookup_put_other. apply H.
Qed.

(** The common tail of the two splitters: create the directory, write
    the clips under their index, list the directory. *)
Lemma output_run (output_dir : string) (clips : list clip) (w : world) :
  (forall k, (clip_path output_dir k =? output_dir)%string = false) ->
  (forall p, Fs.lookup output_dir (fs w) <> Some (File p)) ->
  exists w' listing,
    (makedirs output_dir ;;;
     write_clips output_dir 0 clips ;;;
     get_video_files_from_dir output_dir) w = (w', Returns listing)
    /\ trace w' = trace w ++ EvMakedirs output_dir :: write_events output_dir 0 clips.
Proof.
  intros Hk Hd.
  set (l0 := match Fs.lookup output_dir (fs w) with
             | None => Fs.put output_dir Dir (fs w)
             | _ => fs w
             end).
  assert (Hm : makedirs output_dir w =
               ({| fs := l0; trace := trace w ++ [EvMakedirs output_dir] |}, Returns tt)).
  { unfold makedirs, l0.
    destruct (Fs.lookup output_dir (fs w)) as [[p | ] | ] eqn:E;
      [exfalso; exact (Hd p eq_refl) | reflexivity | reflexivity]. }
  assert (Hl0 : Fs.lookup output_dir l0 = Some Dir).
  { unfold l0. destruct (Fs.lookup output_dir (fs w)) as [[p | ] | ] eqn:E.
    - exfalso; exact (Hd p eq_refl).
    - exact E.
    - apply lookup_put_same. }
  eexists. eexists.
  unfold bind at 1. rewrite Hm.
  unfold bind at 1. rewrite write_clips_run. cbn [fs trace].
  unfold get_video_files_from_dir, bind, listdir. cbn [fs trace].
  rewrite lookup_written_other by exact Hk. rewrite Hl0.
  split; [reflexivity | ]. cbn [trace]. rewrite <- app_assoc. reflexivity.
Qed.

Lemma clip_path_marks (k : nat) :
  (clip_path "split_clips_at_marks" k =? "split_clips_at_marks")%string = false.
Proof. reflexivity. Qed.

Lemma clip_path_duration (k : nat) :
  (clip_path "split_clips_by_duration" k =? "split_clips_by_duration")%string = false.
Proof. reflexivity. Qed.

Lemma existsb_eqb_In (s : string) (l : list string) :
  existsb (String.eqb s) l = true <-> In s l.
Proof.
  rewrite existsb_exists. split.
  - intros [x [Hx E]]. apply String.eqb_eq in E. subst. exact Hx.
  - intros H. exists s. split; [exact H | apply String.eqb_refl].
Qed.

Lemma parse_all_None (py_float : string -> option float) (tokens : list string) :
  parse_all py_float tokens = None <->
  exists tok, In tok tokens /\ py_float tok = None.
Proof.
  induction tokens as [ | m rest IH]; simpl.
  - split; [discriminate | intros [tok [[] _]]].
  - destruct (py_float m) as [x | ] eqn:E.
    + destruct (parse_all py_float rest) as [xs | ].
      * split; [discriminate | ].
        intros [tok [[-> | Hin] Hn]]; [congruence | ].
        exfalso. assert (Some xs = None) by (apply IH; exists tok; split; assumption).
        discriminate.
      * split; [intros _ | reflexivity].
        destruct (proj1 IH eq_refl) as [tok [Hin Hn]].
        exists tok. split; [right; exact Hin | exact Hn].
    + split; [intros _ | reflexivity].
      exists m. split; [left; reflexivity | exact E].
Qed.

(** ** Binary64: order *)

Lemma pow2_pos (k : Z) : 0 <= k -> 0 < 2 ^ k.
Proof. intros; apply Z.pow_pos_nonneg; lia. Qed.

Lemma digits2_pos_bounds (m : positive) :
  2 ^ (Zpos (digits2_pos m) - 1) <= Zpos m < 2 ^ Zpos (digits2_pos m).
Proof.
  induction m as [m IH | m IH | ]; simpl digits2_pos.
  - rewrite Pos2Z.inj_succ.
    replace (Z.succ (Zpos (digits2_pos m)) - 1) with (Z.succ (Zpos (digits2_pos m) - 1)) by lia.
    rewrite !Z.pow_succ_r by lia. lia.
  - rewrite Pos2Z.inj_succ.
    replace (Z.succ (Zpos (digits2_pos m)) - 1) with (Z.succ (Zpos (digits2_pos m) - 1)) by lia.
    rewrite !Z.pow_succ_r by lia. lia.
  - simpl. lia.
Qed.

(** What validity says of a finite number. *)
Lemma bounded_inv (m : positive) (e : Z) :
  bounded prec emax m e = true ->
  -1074 <= e <= 971 /\ Zpos m < 2 ^ 53 /\ (-1074 < e -> 2 ^ 52 <= Zpos m).
Proof.
  unfold bounded, canonical_mantissa, fexp, SpecFloat.emin, prec, emax.
  intros H. apply andb_true_iff in H. destruct H as [H1 H2].
  apply Z.eqb_eq in H1. apply Z.leb_le in H2.
  pose proof (digits2_pos_bounds m) as [Hlo Hhi].
  assert (Hd : Zpos (digits2_pos m) <= 53) by lia.
  split; [lia | ]. split.
  - eapply Z.lt_le_trans; [exact Hhi | ]. apply Z.pow_le_mono_r; lia.
  - intros He. assert (Zpos (digits2_pos m) = 53) by lia.
    rewrite H in Hlo. exact Hlo.
Qed.

Lemma overflow_pos : 0 < overflow.
Proof. apply pow2_pos. lia. Qed.

Lemma SFunits_finite_bounds (m : positive) (e : Z) :
  bounded prec emax m e = true ->
  0 < Zpos m * 2 ^ (e + 1074) < overflow.
Proof.
  intros H. apply bounded_inv in H. destruct H as (He & Hm & _).
  split.
  - apply Z.mul_pos_pos; [lia | apply pow2_pos; lia].
  - change overflow with (2 ^ (53 + 2045)).
    rewrite (Z.pow_add_r 2 53 2045) by lia.
    apply Z.lt_le_trans with (2 ^ 53 * 2 ^ (e + 1074)).
    + apply Z.mul_lt_mono_pos_r; [apply pow2_pos; lia | exact Hm].
    + apply Z.mul_le_mono_nonneg_l; [apply Z.pow_nonneg; lia | ].
      apply Z.pow_le_mono_r; [reflexivity | ]. clear Hm. lia.
Qed.

Lemma finite_lt (mx : positive) (ex : Z) (my : positive) (ey : Z) :
  bounded prec emax mx ex = true -> bounded prec emax my ey = true ->
  ex < ey ->
  Zpos mx * 2 ^ (ex + 1074) < Zpos my * 2 ^ (ey + 1074).
Proof.
  intros Vx Vy Hlt.
  apply bounded_inv in Vx. destruct Vx as (Hex & Hmx & _).
  apply bounded_inv in Vy. destruct Vy as (Hey & _ & Hmy).
  specialize (Hmy ltac:(lia)).
  assert (Hp : 2 * 2 ^ (ex + 1074) <= 2 ^ (ey + 1074)).
  { rewrite <- Z.pow_succ_r by lia. apply Z.pow_le_mono_r; lia. }
  pose proof (pow2_pos (ex + 1074) ltac:(lia)) as Hpos.
  change (2 ^ 53) with (2 * 2 ^ 52) in Hmx.
  assert (H52 : 0 < 2 ^ 52) by (apply pow2_pos; lia).
  nia.
Qed.

Lemma finite_compare (mx : positive) (ex : Z) (my : positive) (ey : Z) :
  bounded prec emax mx ex = true -> bounded prec emax my ey = true ->
  match ex ?= ey with
  | Eq => Pos.compare_cont Eq mx my
  | Lt => Lt
  | Gt => Gt
  end = (Zpos mx * 2 ^ (ex + 1074) ?= Zpos my * 2 ^ (ey + 1074)).
Proof.
  intros Vx Vy. destruct (Z.compare_spec ex ey) as [E | L | G].
  - subst ey. symmetry.
    pose proof (proj1 (bounded_inv _ _ Vx)) as He.
    pose proof (pow2_pos (ex + 1074) ltac:(lia)) as Hpos.
    change (PosDef.Pos.compare_cont Eq mx my) with (Pos.compare mx my).
    destruct (Pos.compare_spec mx my) as [E | L | G].
    + subst my. apply Z.compare_refl.
    + apply Z.compare_lt_iff. nia.
    + apply Z.compare_gt_iff. nia.
  - symmetry. apply Z.compare_lt_iff. apply finite_lt; assumption.
  - symmetry. apply Z.compare_gt_iff. apply finite_lt; assumption.
Qed.

(** On valid numbers other than NaN, the comparison of the format is
    the comparison of the values. *)
Lemma SFcompare_units (x y : spec_float) :
  valid_binary x = true -> valid_binary y = true ->
  x <> S754_nan -> y <> S754_nan ->
  SFcompare x y = Some (SFunits x ?= SFunits y).
Proof.
  intros Vx Vy Nx Ny.
  destruct x as [sx | sx | | sx mx ex]; try congruence;
  destruct y as [sy | sy | | sy my ey]; try congruence;
  simpl in Vx, Vy;
  try (pose proof (SFunits_finite_bounds _ _ Vx));
  try (pose proof (SFunits_finite_bounds _ _ Vy));
  pose proof overflow_pos;
  unfold SFcompare, SFunits, cond_Zopp;
  set (B := overflow) in *; clearbody B.
  all: try (destruct sx; destruct sy; f_equal; symmetry;
            first [ apply Z.compare_eq_iff; lia
                  | apply Z.compare_lt_iff; lia
                  | apply Z.compare_gt_iff; lia ]).
  all: try (destruct sx; f_equal; symmetry;
            first [ apply Z.compare_eq_iff; lia
                  | apply Z.compare_lt_iff; lia
                  | apply Z.compare_gt_iff; lia ]).
  all: try (destruct sy; f_equal; symmetry;
            first [ apply Z.compare_eq_iff; lia
                  | apply Z.compare_lt_iff; lia
                  | apply Z.compare_gt_iff; lia ]).
  pose proof (finite_compare _ _ _ _ Vx Vy) as C.
  destruct sx, sy; f_equal.
  - rewrite Z.compare_opp, (Z.compare_antisym (Z.pos mx * _)), <- C.
    destruct (ex ?= ey); reflexivity.
  - symmetry; apply Z.compare_lt_iff; lia.
  - symmetry; apply Z.compare_gt_iff; lia.
  - exact C.
Qed.

Lemma Prim2SF_nan_iff (x : float) : Prim2SF x = S754_nan <-> is_nan x = true.
Proof.
  unfold Prim2SF. destruct (is_nan x); [split; reflexivity | ].
  split; [ | discriminate].
  destruct (is_zero x); [discriminate | ].
  destruct (is_infinity x); [discriminate | ].
  destruct (Z.frexp x) as [r e].
  destruct (shr_fexp prec emax _ _ _) as [s e'].
  destruct (shr_m s); discriminate.
Qed.

Lemma Prim2SF_not_nan (x : float) : is_nan x = false -> Prim2SF x <> S754_nan.
Proof.
  intros H E. apply Prim2SF_nan_iff in E. congruence.
Qed.

Lemma not_nan_of_spec (x : float) :
  Prim2SF x <> S754_nan -> is_nan x = false.
Proof.
  intros H. destruct (is_nan x) eqn:E; [ | reflexivity].
  apply Prim2SF_nan_iff in E. contradiction.
Qed.

Lemma compare_units (x y : float) :
  is_nan x = false -> is_nan y = false ->
  SFcompare (Prim2SF x) (Prim2SF y) = Some (units x ?= units y).
Proof.
  intros Hx Hy. apply SFcompare_units;
    auto using Prim2SF_valid, Prim2SF_not_nan.
Qed.

Lemma ltb_units (x y : float) :
  is_nan x = false -> is_nan y = false ->
  (x <? y)%float = (units x <? units y).
Proof.
  intros Hx Hy. rewrite ltb_spec. unfold SFltb.
  rewrite (compare_units x y Hx Hy). unfold Z.ltb.
  destruct (units x ?= units y); reflexivity.
Qed.

Lemma leb_units (x y : float) :
  is_nan x = false -> is_nan y = false ->
  (x <=? y)%float = (units x <=? units y).
Proof.
  intros Hx Hy. rewrite leb_spec. unfold SFleb.
  rewrite (compare_units x y Hx Hy). unfold Z.leb.
  destruct (units x ?= units y); reflexivity.
Qed.

Lemma eqb_units (x y : float) :
  is_nan x = false -> is_nan y = false ->
  (x =? y)%float = (units x =? units y).
Proof.
  intros Hx Hy. rewrite eqb_spec. unfold SFeqb.
  rewrite (compare_units x y Hx Hy).
  destruct (Z.eqb_spec (units x) (units y)) as [E | N].
  - rewrite E, Z.compare_refl. reflexivity.
  - destruct (units x ?= units y) eqn:C; try reflexivity.
    apply Z.compare_eq in C. contradiction.
Qed.

Lemma ltb_nan_l (x y : float) : is_nan x = true -> (x <? y)%float = false.
Proof.
  intros H. rewrite ltb_spec. apply Prim2SF_nan_iff in H. rewrite H. reflexivity.
Qed.

Lemma ltb_nan_r (x y : float) : is_nan y = true -> (x <? y)%float = false.
Proof.
  intros H. rewrite ltb_spec. apply Prim2SF_nan_iff in H. rewrite H.
  unfold SFltb, SFcompare. destruct (Prim2SF x); reflexivity.
Qed.

Lemma ltb_units_l (x y D : float) :
  not_nan x -> not_nan y -> units x = units y ->
  (x <? D)%float = (y <? D)%float.
Proof.
  intros Hx Hy E. destruct (is_nan D) eqn:HD.
  - rewrite !ltb_nan_r by exact HD. reflexivity.
  - rewrite !ltb_units by assumption. rewrite E. reflexivity.
Qed.

(** Two floats other than NaN and zero with the same value are the
    same float. *)
Lemma units_inj (x y : float) :
  is_nan x = false -> is_nan y = false ->
  units x = units y -> units x <> 0 -> x = y.
Proof.
  intros Nx Ny E Hnz.
  pose proof (compare_units x y Nx Ny) as C.
  rewrite E, Z.compare_refl in C.
  pose proof (Prim2SF_valid x) as Vx. pose proof (Prim2SF_valid y) as Vy.
  apply Prim2SF_inj. unfold units in *.
  destruct (Prim2SF x) as [sx | sx | | sx mx ex];
  destruct (Prim2SF y) as [sy | sy | | sy my ey];
    cbn [SFunits] in Hnz; try congruence; cbn [SFcompare] in C;
    try (destruct sx; discriminate); try (destruct sy; discriminate).
  - destruct sx, sy; try reflexivity; discriminate.
  - change (PosDef.Pos.compare_cont Eq mx my) with (Pos.compare mx my) in C.
    destruct sx, sy; try discriminate;
      destruct (Z.compare_spec ex ey) as [Ee | | ]; try discriminate;
      destruct (Pos.compare_spec mx my) as [Em | | ]; try discriminate;
      subst; reflexivity.
Qed.

Lemma positive_float (x : float) :
  (0 <? x)%float = true -> is_nan x = false /\ 0 < units x.
Proof.
  intros H. destruct (is_nan x) eqn:N.
  - rewrite ltb_nan_r in H by exact N. discriminate.
  - split; [reflexivity | ].
    rewrite ltb_units in H by (reflexivity || assumption).
    apply Z.ltb_lt in H. exact H.
Qed.

Lemma nonpositive_float (d : float) :
  (d <=? 0)%float = true -> not_advancing d.
Proof.
  intros H. destruct (is_nan d) eqn:N.
  - rewrite leb_spec in H. apply Prim2SF_nan_iff in N. rewrite N in H.
    discriminate.
  - split; [exact N | ].
    rewrite leb_units in H by (reflexivity || assumption).
    apply Z.leb_le in H. exact H.
Qed.

Lemma same_time_units (x y : float) :
  not_nan x -> not_nan y -> units x = units y -> same_time x y.
Proof.
  intros Hx Hy E. right. rewrite eqb_units by assumption. apply Z.eqb_eq. exact E.
Qed.

(** ** Binary64: sums that are not rounded *)

Lemma shr_1_exact (m : Z) :
  0 <= m -> (2 | m) -> shr_1 (exact_record m) = exact_record (m / 2).
Proof.
  intros Hm [q Hq]. subst m. rewrite Z.div_mul by lia.
  rewrite (Z.mul_comm q 2).
  destruct q as [ | q | q]; try lia; reflexivity.
Qed.

Lemma iter_shr_1_exact (p : positive) (m : Z) :
  0 <= m -> (2 ^ Zpos p | m) ->
  iter_pos shr_1 p (exact_record m) = exact_record (m / 2 ^ Zpos p).
Proof.
  revert m. induction p as [p IH | p IH | ]; intros m Hm Hd; cbn [iter_pos].
  - assert (E : 2 ^ Zpos p~1 = 2 * (2 ^ Zpos p * 2 ^ Zpos p)).
    { replace (Zpos p~1) with (1 + (Zpos p + Zpos p)) by lia.
      rewrite !Z.pow_add_r, Z.pow_1_r by lia. reflexivity. }
    rewrite E in *. destruct Hd as [q Hq]. subst m.
    pose proof (pow2_pos (Zpos p) ltac:(lia)) as Hp.
    rewrite shr_1_exact; [ | lia | exists (q * (2 ^ Zpos p * 2 ^ Zpos p)); lia].
    replace (q * (2 * (2 ^ Z.pos p * 2 ^ Z.pos p)) / 2)
      with (q * 2 ^ Zpos p * 2 ^ Zpos p)
      by (apply Z.div_unique_exact; lia).
    rewrite IH; [ | nia | exists (q * 2 ^ Zpos p); lia].
    rewrite Z.div_mul by lia.
    rewrite IH; [ | nia | exists q; lia].
    rewrite Z.div_mul by lia.
    f_equal. apply Z.div_unique_exact; lia.
  - assert (E : 2 ^ Zpos p~0 = 2 ^ Zpos p * 2 ^ Zpos p).
    { replace (Zpos p~0) with (Zpos p + Zpos p) by lia.
      rewrite Z.pow_add_r by lia. reflexivity. }
    rewrite E in *. destruct Hd as [q Hq]. subst m.
    pose proof (pow2_pos (Zpos p) ltac:(lia)) as Hp.
    rewrite IH; [ | lia | exists (q * 2 ^ Zpos p); lia].
    replace (q * (2 ^ Z.pos p * 2 ^ Z.pos p) / 2 ^ Zpos p) with (q * 2 ^ Zpos p)
      by (apply Z.div_unique_exact; lia).
    rewrite IH; [ | nia | exists q; lia].
    rewrite Z.div_mul by lia.
    f_equal. apply Z.div_unique_exact; lia.
  - apply shr_1_exact; assumption.
Qed.

Lemma iter_xO (m d : positive) :
  Zpos (Pos.iter xO m d) = Zpos m * 2 ^ Zpos d.
Proof.
  induction d as [ | d IH] using Pos.peano_ind.
  - simpl. lia.
  - rewrite Pos.iter_succ, Pos2Z.inj_xO, IH, Pos2Z.inj_succ, Z.pow_succ_r by lia.
    lia.
Qed.

(** The number of digits is fixed by the power-of-two bracket. *)
Lemma digits2_pos_unique (m : positive) (d : Z) :
  2 ^ (d - 1) <= Zpos m < 2 ^ d -> Zpos (digits2_pos m) = d.
Proof.
  intros [Hlo Hhi]. pose proof (digits2_pos_bounds m) as [Blo Bhi].
  assert (0 < d).
  { destruct (Z.ltb_spec 0 d) as [ | H]; [assumption | ].
    destruct (Z.eqb_spec d 0) as [-> | ].
    - simpl in Hhi. lia.
    - rewrite Z.pow_neg_r in Hhi by lia. lia. }
  set (k := Zpos (digits2_pos m)) in *.
  destruct (Z.lt_trichotomy k d) as [L | [E | G]]; [ | exact E | ].
  - assert (2 ^ k <= 2 ^ (d - 1)) by (apply Z.pow_le_mono_r; lia). lia.
  - assert (2 ^ d <= 2 ^ (k - 1)) by (apply Z.pow_le_mono_r; lia). lia.
Qed.

Lemma fexp_eq (k : Z) : fexp prec emax k = Z.max (k - 53) (-1074).
Proof. reflexivity. Qed.

Lemma digits2_pos_shift (m : positive) (k : Z) (m' : positive) :
  0 <= k -> Zpos m' = Zpos m * 2 ^ k ->
  Zpos (digits2_pos m') = Zpos (digits2_pos m) + k.
Proof.
  intros Hk E. apply digits2_pos_unique. rewrite E.
  pose proof (digits2_pos_bounds m) as [Blo Bhi].
  pose proof (pow2_pos k Hk).
  replace (Zpos (digits2_pos m) + k - 1) with (Zpos (digits2_pos m) - 1 + k) by lia.
  rewrite !Z.pow_add_r by lia. nia.
Qed.

(** A mantissa that is already in canonical position is kept. *)
Lemma binary_round_aux_canonical (s : bool) (m : positive) (e : Z) :
  fexp prec emax (Zpos (digits2_pos m) + e) = e -> e <= 971 ->
  binary_round_aux prec emax s (Zpos m) e loc_Exact = S754_finite s m e.
Proof.
  intros Hc He. unfold binary_round_aux, shr_fexp.
  cbn [Zdigits2 shr_record_of_loc]. rewrite Hc, Z.sub_diag.
  cbn [shr shr_m loc_of_shr_record round_nearest_even Zdigits2 shr_record_of_loc].
  rewrite Hc, Z.sub_diag. cbn [shr shr_m].
  replace (e <=? emax - prec) with true; [reflexivity | ].
  symmetry. apply Z.leb_le. unfold emax, prec. lia.
Qed.

(** [binary_round] is exact when the bits it would drop are zero. *)
Lemma binary_round_exact (s : bool) (M : positive) (ez E : Z) :
  -1074 <= ez ->
  E = fexp prec emax (Zpos (digits2_pos M) + ez) ->
  E <= 971 ->
  (ez < E -> (2 ^ (E - ez) | Zpos M)) ->
  exists m,
    binary_round prec emax s M ez = S754_finite s m E
    /\ bounded prec emax m E = true
    /\ Zpos m * 2 ^ (E + 1074) = Zpos M * 2 ^ (ez + 1074).
Proof.
  intros Hez HeqE HE Hdiv.
  assert (Emin : -1074 <= E) by (rewrite HeqE, fexp_eq; lia).
  assert (Hbounded : forall m, fexp prec emax (Zpos (digits2_pos m) + E) = E ->
                               bounded prec emax m E = true).
  { intros m Hc. unfold bounded, canonical_mantissa. apply andb_true_iff. split.
    - apply Z.eqb_eq. exact Hc.
    - apply Z.leb_le. unfold emax, prec. lia. }
  unfold binary_round, shl_align. rewrite <- HeqE.
  destruct (E - ez) as [ | p | p] eqn:Ep.
  - (* already aligned *)
    assert (Eez : E = ez) by lia. subst ez.
    exists M. rewrite binary_round_aux_canonical by lia.
    split; [reflexivity | ]. split; [ | reflexivity].
    apply Hbounded. symmetry. exact HeqE.
  - (* shift right: the bits dropped are zero *)
    assert (Hlt : ez < E) by lia. specialize (Hdiv Hlt).
    destruct Hdiv as [q Hq].
    pose proof (pow2_pos (Zpos p) ltac:(lia)) as Hp.
    assert (Hqpos : 0 < q) by nia.
    destruct q as [ | q | q]; try lia.
    assert (Hd : Zpos (digits2_pos M) = Zpos (digits2_pos q) + Zpos p)
      by (apply digits2_pos_shift; [lia | exact Hq]).
    assert (Hc : fexp prec emax (Zpos (digits2_pos q) + E) = E).
    { rewrite HeqE at 2. f_equal. lia. }
    exists q.
    unfold binary_round_aux, shr_fexp.
    cbn [Zdigits2 shr_record_of_loc]. rewrite <- HeqE, Ep. cbn [shr].
    change {| shr_m := Zpos M; shr_r := false; shr_s := false |}
      with (exact_record (Zpos M)).
    rewrite iter_shr_1_exact; [ | lia | exists (Zpos q); exact Hq].
    rewrite Hq, Z.div_mul by lia.
    cbn [exact_record shr_m loc_of_shr_record round_nearest_even Zdigits2
         shr_record_of_loc].
    replace (ez + Zpos p) with E by lia.
    rewrite Hc, Z.sub_diag. cbn [shr shr_m].
    replace (E <=? emax - prec) with true
      by (symmetry; apply Z.leb_le; unfold emax, prec; lia).
    split; [reflexivity | ]. split; [apply Hbounded; exact Hc | ].
    replace (E + 1074) with (Zpos p + (ez + 1074)) by lia.
    rewrite (Z.pow_add_r 2 (Zpos p) (ez + 1074)) by lia. ring.
  - (* shift left *)
    assert (Hd : Zpos (digits2_pos (Pos.iter xO M p)) = Zpos (digits2_pos M) + Zpos p)
      by (apply digits2_pos_shift; [lia | apply iter_xO]).
    assert (Hc : fexp prec emax (Zpos (digits2_pos (Pos.iter xO M p)) + E) = E).
    { rewrite HeqE at 2. f_equal. lia. }
    exists (Pos.iter xO M p).
    rewrite binary_round_aux_canonical by (assumption || lia).
    split; [reflexivity | ]. split; [apply Hbounded; exact Hc | ].
    rewrite iter_xO.
    replace (ez + 1074) with (Zpos p + (E + 1074)) by lia.
    rewrite (Z.pow_add_r 2 (Zpos p) (E + 1074)) by lia. ring.
Qed.

Lemma pow2_lt_inv (a b x : Z) : 0 <= a -> 2 ^ a <= x < 2 ^ b -> a < b.
Proof.
  intros Ha [Hlo Hhi]. destruct (Z.ltb_spec a b) as [ | Hba]; [assumption | exfalso].
  destruct (Z.ltb_spec b 0) as [Hneg | Hpos].
  - rewrite (Z.pow_neg_r 2 b Hneg) in Hhi. pose proof (pow2_pos a Ha). lia.
  - assert (2 ^ b <= 2 ^ a) by (apply Z.pow_le_mono_r; lia). lia.
Qed.

(** A positive value [c * 2 ^ g] (in units of [2 ^ -1074]) with
    [c < 2 ^ 53] that is below the overflow threshold is represented
    exactly. *)
Lemma binary_round_grid (s : bool) (M : positive) (ez c g : Z) :
  -1074 <= ez ->
  Zpos M * 2 ^ (ez + 1074) = c * 2 ^ g ->
  0 <= g -> 0 < c < 2 ^ 53 -> c * 2 ^ g < overflow ->
  exists m e,
    binary_round prec emax s M ez = S754_finite s m e
    /\ bounded prec emax m e = true
    /\ Zpos m * 2 ^ (e + 1074) = c * 2 ^ g.
Proof.
  intros Hez Hn Hg Hc Hmax.
  pose proof (digits2_pos_bounds M) as [Dlo Dhi].
  set (D := Zpos (digits2_pos M)) in *.
  assert (HD : 0 < D) by (unfold D; lia).
  pose proof (pow2_pos (ez + 1074) ltac:(lia)) as Hpe.
  pose proof (pow2_pos g Hg) as Hpg.
  (* the value is bracketed by powers of two *)
  assert (Hlo : 2 ^ (D - 1 + (ez + 1074)) <= c * 2 ^ g).
  { rewrite Z.pow_add_r by lia. rewrite <- Hn. nia. }
  assert (H1 : D - 1 + (ez + 1074) < 2098).
  { apply (pow2_lt_inv _ _ (c * 2 ^ g)); [lia | ].
    split; [exact Hlo | exact Hmax]. }
  assert (H2 : D - 1 + (ez + 1074) < 53 + g).
  { apply (pow2_lt_inv _ _ (c * 2 ^ g)); [lia | ]. split; [exact Hlo | ].
    rewrite Z.pow_add_r by lia. nia. }
  destruct (binary_round_exact s M ez (fexp prec emax (D + ez))) as (m & Hr & Hb & Hv).
  - exact Hez.
  - reflexivity.
  - rewrite fexp_eq. lia.
  - rewrite fexp_eq. intros Hlt.
    assert (HE : Z.max (D + ez - 53) (-1074) = D + ez - 53) by lia.
    rewrite HE in *.
    replace (D + ez - 53 - ez) with (D - 53) by lia.
    set (r := g - (D - 53) - (ez + 1074)).
    assert (Hr : 0 <= r) by (unfold r; lia).
    assert (Hg' : 2 ^ g = 2 ^ r * 2 ^ (D - 53) * 2 ^ (ez + 1074)).
    { rewrite <- !Z.pow_add_r by lia. f_equal. unfold r. lia. }
    exists (c * 2 ^ r).
    apply (Z.mul_reg_r _ _ (2 ^ (ez + 1074))); [lia | ].
    rewrite Hn, Hg'. ring.
  - exists m, (fexp prec emax (D + ez)). repeat split; try assumption.
    rewrite Hv. exact Hn.
Qed.

Lemma shl_align_value (m : positive) (e ez : Z) :
  ez <= e ->
  Zpos (fst (shl_align m e ez)) = Zpos m * 2 ^ (e - ez).
Proof.
  intros H. unfold shl_align. destruct (ez - e) as [ | p | p] eqn:Ep; simpl fst.
  - replace (e - ez) with 0 by lia. simpl. lia.
  - lia.
  - rewrite iter_xO. f_equal. f_equal. lia.
Qed.

Lemma SFadd_grid (mx : positive) (ex : Z) (my : positive) (ey c g : Z) :
  bounded prec emax mx ex = true -> bounded prec emax my ey = true ->
  Zpos mx * 2 ^ (ex + 1074) + Zpos my * 2 ^ (ey + 1074) = c * 2 ^ g ->
  0 <= g -> 0 < c < 2 ^ 53 -> c * 2 ^ g < overflow ->
  exists m e,
    SFadd prec emax (S754_finite false mx ex) (S754_finite false my ey)
      = S754_finite false m e
    /\ bounded prec emax m e = true
    /\ Zpos m * 2 ^ (e + 1074) = c * 2 ^ g.
Proof.
  intros Vx Vy Hn Hg Hc Hmax.
  pose proof (proj1 (bounded_inv _ _ Vx)) as Hex.
  pose proof (proj1 (bounded_inv _ _ Vy)) as Hey.
  unfold SFadd. cbn [cond_Zopp].
  set (ez := Z.min ex ey).
  rewrite (shl_align_value mx ex ez), (shl_align_value my ey ez) by (unfold ez; lia).
  pose proof (pow2_pos (ex - ez) ltac:(unfold ez; lia)) as Hpx.
  pose proof (pow2_pos (ey - ez) ltac:(unfold ez; lia)) as Hpy.
  destruct (Zpos mx * 2 ^ (ex - ez) + Zpos my * 2 ^ (ey - ez)) as [ | M | M] eqn:EM;
    try lia.
  cbn [binary_normalize].
  apply binary_round_grid; try assumption; [unfold ez; lia | ].
  rewrite <- Hn, <- EM, Z.mul_add_distr_r, <- !Z.mul_assoc, <- !Z.pow_add_r
    by (unfold ez; lia).
  f_equal; f_equal; f_equal; lia.
Qed.

(** Addition of two non-negative floats is exact when the sum, in
    units of [2 ^ -1074], is [c * 2 ^ g] with [c < 2 ^ 53] and is below
    the overflow threshold. *)
Lemma add_exact (x y : float) (c g : Z) :
  is_nan x = false -> is_nan y = false ->
  0 <= units x -> 0 <= units y ->
  units x + units y = c * 2 ^ g ->
  0 <= g -> 0 <= c < 2 ^ 53 -> c * 2 ^ g < overflow ->
  is_nan (x + y)%float = false /\ units (x + y)%float = units x + units y.
Proof.
  intros Nx Ny Hx Hy Hn Hg Hc Hmax.
  pose proof (Prim2SF_valid x) as Vx. pose proof (Prim2SF_valid y) as Vy.
  apply Prim2SF_not_nan in Nx, Ny.
  pose proof overflow_pos as H2098.
  assert (G : Prim2SF (x + y)%float <> S754_nan
              /\ SFunits (Prim2SF (x + y)%float) = units x + units y).
  { rewrite add_spec. unfold units in *. unfold SF64add.
    destruct (Prim2SF x) as [sx | sx | | sx mx ex]; try congruence;
    destruct (Prim2SF y) as [sy | sy | | sy my ey]; try congruence;
    cbn [valid_binary] in Vx, Vy;
    try (pose proof (SFunits_finite_bounds _ _ Vx));
    try (pose proof (SFunits_finite_bounds _ _ Vy));
    cbn [SFunits] in *.
    all: destruct sx; destruct sy; cbn [cond_Zopp] in *; try lia.
    all: try (split; [discriminate | cbn [SFadd SFunits cond_Zopp]; lia]).
    assert (Hc' : 0 < c).
    { pose proof (pow2_pos g Hg). nia. }
    destruct (SFadd_grid mx ex my ey c g Vx Vy Hn Hg ltac:(lia) Hmax)
      as (m & e & Hr & Hb & Hv).
    rewrite Hr. split; [discriminate | ]. cbn [SFunits cond_Zopp].
    rewrite Hv. symmetry. exact Hn. }
  destruct G as [G1 G2]. split; [apply not_nan_of_spec; exact G1 | exact G2].
Qed.

(** ** Binary64: signs *)

Lemma shr_1_nonneg (mrs : shr_record) : 0 <= shr_m mrs -> 0 <= shr_m (shr_1 mrs).
Proof.
  destruct mrs as [m r s]. cbn [shr_m].
  destruct m as [ | [p | p | ] | p]; simpl; lia.
Qed.

Lemma iter_pos_invariant {A} (P : A -> Prop) (f : A -> A) :
  (forall x, P x -> P (f x)) -> forall p x, P x -> P (iter_pos f p x).
Proof.
  intros Hf. induction p as [p IH | p IH | ]; intros x Hx; cbn [iter_pos]; auto.
Qed.

Lemma shr_fexp_nonneg (m e : Z) (l : location) :
  0 <= m -> 0 <= shr_m (fst (shr_fexp prec emax m e l)).
Proof.
  intros Hm. unfold shr_fexp, shr.
  assert (H0 : 0 <= shr_m (shr_record_of_loc m l))
    by (destruct l as [ | [ | | ]]; exact Hm).
  destruct (fexp prec emax (Zdigits2 m + e) - e) as [ | p | p]; cbn [fst];
    try exact H0.
  apply (iter_pos_invariant (fun mrs => 0 <= shr_m mrs)); [ | exact H0].
  apply shr_1_nonneg.
Qed.

Lemma round_nearest_even_nonneg (m : Z) (l : location) :
  0 <= m -> 0 <= round_nearest_even m l.
Proof.
  intros Hm. unfold round_nearest_even.
  destruct l as [ | [ | | ]]; try lia. destruct (Z.even m); lia.
Qed.

(** Rounding a negative number gives a negative number, a negative
    zero or minus infinity. *)
Lemma binary_round_aux_negative (m : positive) (e : Z) :
  binary_round_aux prec emax true (Zpos m) e loc_Exact <> S754_nan
  /\ SFunits (binary_round_aux prec emax true (Zpos m) e loc_Exact) <= 0.
Proof.
  unfold binary_round_aux.
  pose proof (shr_fexp_nonneg (Zpos m) e loc_Exact ltac:(lia)) as H1.
  destruct (shr_fexp prec emax (Zpos m) e loc_Exact) as [mrs' e'].
  cbn [fst] in H1.
  pose proof (shr_fexp_nonneg
                (round_nearest_even (shr_m mrs') (loc_of_shr_record mrs')) e'
                loc_Exact (round_nearest_even_nonneg _ _ H1)) as H2.
  destruct (shr_fexp prec emax _ e' loc_Exact) as [mrs'' e''].
  cbn [fst] in H2.
  pose proof overflow_pos as HB.
  destruct (shr_m mrs'') as [ | q | q]; try lia.
  - split; [discriminate | simpl; lia].
  - destruct (e'' <=? emax - prec); (split; [discriminate | ]); cbn [SFunits cond_Zopp].
    + assert (0 <= Zpos q * 2 ^ (e'' + 1074)); [ | lia].
      apply Z.mul_nonneg_nonneg; [lia | apply Z.pow_nonneg; lia].
    + lia.
Qed.

Lemma add_nonpositive (x y : float) :
  is_nan x = false -> is_nan y = false ->
  units x <= 0 -> units y <= 0 ->
  is_nan (x + y)%float = false /\ units (x + y)%float <= 0.
Proof.
  intros Nx Ny Hx Hy.
  pose proof (Prim2SF_valid x) as Vx. pose proof (Prim2SF_valid y) as Vy.
  apply Prim2SF_not_nan in Nx, Ny.
  pose proof overflow_pos as HB.
  assert (G : Prim2SF (x + y)%float <> S754_nan
              /\ SFunits (Prim2SF (x + y)%float) <= 0).
  { rewrite add_spec. unfold units in *. unfold SF64add.
    destruct (Prim2SF x) as [sx | sx | | sx mx ex]; try congruence;
    destruct (Prim2SF y) as [sy | sy | | sy my ey]; try congruence;
    cbn [valid_binary] in Vx, Vy;
    try (pose proof (SFunits_finite_bounds _ _ Vx));
    try (pose proof (SFunits_finite_bounds _ _ Vy));
    cbn [SFunits] in *.
    all: destruct sx; destruct sy; cbn [cond_Zopp] in *; try lia.
    all: try (split; [discriminate | cbn [SFadd SFunits cond_Zopp]; lia]).
    unfold SFadd. cbn [cond_Zopp].
    set (ez := Z.min ex ey).
    destruct (- Zpos (fst (shl_align mx ex ez)) + - Zpos (fst (shl_align my ey ez)))
      as [ | M | M] eqn:EM; try lia.
    cbn [binary_normalize]. unfold binary_round.
    destruct (shl_align M ez _) as [mz ez'].
    apply binary_round_aux_negative. }
  destruct G as [G1 G2]. split; [apply not_nan_of_spec; exact G1 | exact G2].
Qed.

(** ** Sorting *)

Lemma insert_perm (x : float) (l : list float) : Permutation (x :: l) (insert x l).
Proof.
  induction l as [ | y l IH]; simpl; [apply Permutation_refl | ].
  destruct (y <? x)%float; [ | apply Permutation_refl].
  eapply perm_trans; [apply perm_swap | apply perm_skip; exact IH].
Qed.

Lemma sorted_perm (l : list float) : Permutation l (sorted l).
Proof.
  induction l as [ | x l IH]; simpl; [constructor | ].
  eapply perm_trans; [apply perm_skip; exact IH | apply insert_perm].
Qed.

Lemma sorted_not_nan (l : list float) :
  Forall not_nan l -> Forall not_nan (sorted l).
Proof.
  intros H. eapply Permutation_Forall; [apply sorted_perm | exact H].
Qed.

Lemma units_insert (x : float) (l : list float) :
  not_nan x -> Forall not_nan l ->
  map units (insert x l) = zinsert (units x) (map units l).
Proof.
  intros Hx Hl. induction Hl as [ | y l Hy Hl IH]; simpl; [reflexivity | ].
  rewrite (ltb_units y x Hy Hx).
  destruct (units y <? units x); simpl; [rewrite IH | ]; reflexivity.
Qed.

Lemma units_sorted (l : list float) :
  Forall not_nan l -> map units (sorted l) = zsort (map units l).
Proof.
  intros Hl. induction Hl as [ | x l Hx Hl IH]; simpl; [reflexivity | ].
  rewrite units_insert by auto using sorted_not_nan. rewrite IH. reflexivity.
Qed.

Lemma zinsert_comm (a b : Z) (l : list Z) :
  zinsert a (zinsert b l) = zinsert b (zinsert a l).
Proof.
  induction l as [ | y l IH]; simpl.
  - destruct (Z.ltb_spec b a), (Z.ltb_spec a b); try reflexivity; try lia.
    assert (a = b) by lia. subst. reflexivity.
  - destruct (Z.ltb_spec y b), (Z.ltb_spec y a); simpl;
      repeat match goal with
             | |- context [?u <? ?v] => destruct (Z.ltb_spec u v); simpl
             end;
      try lia; try reflexivity; try (rewrite IH; reflexivity).
    assert (a = b) by lia. subst. reflexivity.
Qed.

Lemma zsort_perm (l1 l2 : list Z) : Permutation l1 l2 -> zsort l1 = zsort l2.
Proof.
  induction 1 as [ | x l1 l2 _ IH | x y l | l1 l2 l3 _ IH1 _ IH2]; simpl.
  - reflexivity.
  - rewrite IH. reflexivity.
  - apply zinsert_comm.
  - congruence.
Qed.

Lemma zinsert_sorted (x : Z) (l : list Z) :
  StronglySorted Z.le l -> StronglySorted Z.le (zinsert x l).
Proof.
  induction 1 as [ | y l Hs IH Hy]; simpl.
  - repeat constructor.
  - destruct (Z.ltb_spec y x).
    + constructor; [exact IH | ].
      assert (P : Permutation (x :: l) (zinsert x l)).
      { clear. induction l as [ | z l IH]; simpl; [apply Permutation_refl | ].
        destruct (z <? x); [ | apply Permutation_refl].
        eapply perm_trans; [apply perm_swap | apply perm_skip; exact IH]. }
      eapply Permutation_Forall; [exact P | ].
      constructor; [lia | exact Hy].
    + constructor; [constructor; assumption | ].
      constructor; [exact H | ].
      eapply Forall_impl; [ | exact Hy]. simpl. intros; lia.
Qed.

Lemma zsort_sorted (l : list Z) : StronglySorted Z.le (zsort l).
Proof.
  induction l as [ | x l IH]; simpl; [constructor | apply zinsert_sorted; exact IH].
Qed.

Lemma units_StronglySorted (l : list float) :
  Forall not_nan l ->
  StronglySorted Z.le (map units l) -> StronglySorted fle l.
Proof.
  induction 1 as [ | x l Hx Hl IH]; simpl; intros H; [constructor | ].
  apply StronglySorted_inv in H. destruct H as [Hs Hall].
  constructor; [apply IH; exact Hs | ].
  rewrite Forall_map in Hall.
  rewrite Forall_forall in Hall, Hl |- *. intros y Hy. unfold fle.
  rewrite (leb_units x y Hx (Hl y Hy)). apply Z.leb_le. apply Hall. exact Hy.
Qed.

Lemma sorted_ascending (l : list float) :
  Forall not_nan l -> StronglySorted fle (sorted l).
Proof.
  intros H. apply units_StronglySorted; [apply sorted_not_nan; exact H | ].
  rewrite units_sorted by exact H. apply zsort_sorted.
Qed.

Lemma sorted_units_perm (l1 l2 : list float) :
  Forall not_nan l1 -> Permutation l1 l2 ->
  map units (sorted l1) = map units (sorted l2).
Proof.
  intros H1 P.
  assert (H2 : Forall not_nan l2) by (eapply Permutation_Forall; eassumption).
  rewrite !units_sorted by assumption.
  apply zsort_perm. apply Permutation_map. exact P.
Qed.

Lemma last_cons {A} (x : A) (l : list A) (d : A) : last (x :: l) d = last l x.
Proof.
  revert x d. induction l as [ | y l IH]; intros x d; [reflexivity | ].
  change (last (x :: y :: l) d) with (last (y :: l) d).
  rewrite (IH y d), (IH y x). reflexivity.
Qed.

Lemma last_map {A B} (f : A -> B) (l : list A) (d : A) :
  last (map f l) (f d) = f (last l d).
Proof.
  induction l as [ | x l IH]; simpl; [reflexivity | ].
  destruct l; [reflexivity | exact IH].
Qed.

Lemma last_In {A} (l : list A) (d : A) : l <> [] -> In (last l d) l.
Proof.
  induction l as [ | x l IH]; [congruence | intros _].
  destruct l as [ | y l']; [left; reflexivity | ].
  right. apply IH. discriminate.
Qed.

(** The last element of an ascending list is a largest one. *)
Lemma last_sorted_max (l : list Z) (d : Z) :
  l <> [] -> StronglySorted Z.le l -> Forall (fun x => (x <= last l d)%Z) l.
Proof.
  intros Hne Hs. induction Hs as [ | x l Hs IH Hx]; [congruence | ].
  destruct l as [ | y l'].
  - simpl. constructor; [lia | constructor].
  - specialize (IH ltac:(discriminate)).
    change (last (x :: y :: l') d) with (last (y :: l') d).
    constructor; [ | exact IH].
    inversion IH; subst. inversion Hx; subst. lia.
Qed.

(** The last of the sorted marks has the value of any largest mark. *)
Lemma last_sorted_largest (l : list float) (M : float) :
  Forall not_nan l -> In M l -> Forall (fun m => fle m M) l ->
  units (last (sorted l) 0%float) = units M.
Proof.
  intros Hn HM Hmax.
  assert (Hne : sorted l <> []).
  { intros E. pose proof (sorted_perm l) as P. rewrite E in P.
    apply Permutation_sym, Permutation_nil in P. subst l. destruct HM. }
  assert (Hsn : Forall not_nan (sorted l)) by (apply sorted_not_nan; exact Hn).
  pose proof (last_In (sorted l) 0%float Hne) as Hin.
  assert (HMn : not_nan M) by (rewrite Forall_forall in Hn; auto).
  assert (Hln : not_nan (last (sorted l) 0%float))
    by (rewrite Forall_forall in Hsn; auto).
  apply Z.le_antisymm.
  - apply Z.leb_le. rewrite <- leb_units by assumption.
    rewrite Forall_forall in Hmax. apply Hmax.
    eapply Permutation_in; [apply Permutation_sym, sorted_perm | exact Hin].
  - pose proof (zsort_sorted (map units l)) as Hs.
    rewrite <- units_sorted in Hs by exact Hn.
    apply (last_sorted_max _ (units 0%float)) in Hs.
    + rewrite last_map in Hs. rewrite Forall_forall in Hs. apply Hs.
      apply in_map. eapply Permutation_in; [apply sorted_perm | exact HM].
    + intros E. apply map_eq_nil in E. contradiction.
Qed.

Lemma last_units (l1 l2 : list float) (d : float) :
  map units l1 = map units l2 -> units (last l1 d) = units (last l2 d).
Proof.
  intros E. rewrite <- (last_map units l1 d), <- (last_map units l2 d), E.
  reflexivity.
Qed.

(** ** The loop of the mark splitter *)

Lemma marks_loop_run (v : video) (marks : list float) (start : float)
    (clips : list clip) :
  marks_loop v marks start clips =
    (last marks start,
     clips ++ map (fun i => subclip v (fst i) (Some (snd i))) (intervals start marks)).
Proof.
  revert start clips. induction marks as [ | m rest IH]; intros start clips.
  - simpl. rewrite app_nil_r. reflexivity.
  - cbn [marks_loop intervals map].
    rewrite IH, <- app_assoc, (last_cons m rest start). reflexivity.
Qed.

Lemma marks_clips_run (v : video) (marks : list float) :
  marks_clips v marks =
    map (fun i => subclip v (fst i) (Some (snd i))) (intervals 0%float marks)
    ++ (if (last marks 0 <? total v)%float
        then [subclip v (last marks 0%float) None] else []).
Proof.
  unfold marks_clips. rewrite marks_loop_run. simpl.
  destruct (last marks 0 <? total v)%float; [reflexivity | rewrite app_nil_r; reflexivity].
Qed.

Lemma intervals_length (start : float) (marks : list float) :
  List.length (intervals start marks) = List.length marks.
Proof.
  revert start. induction marks as [ | m rest IH]; intros start; simpl;
    [reflexivity | rewrite IH; reflexivity].
Qed.

Lemma marks_clips_segments (v : video) (marks : list float) :
  segments (marks_clips v marks) =
    map (span_at (filename v))
        (intervals 0%float marks
         ++ (if (last marks 0 <? total v)%float
             then [(last marks 0%float, total v)] else [])).
Proof.
  rewrite marks_clips_run. unfold segments.
  rewrite map_app, concat_app, map_app. f_equal.
  - induction (intervals 0%float marks) as [ | i l IH]; simpl; [reflexivity | ].
    rewrite IH. reflexivity.
  - destruct (last marks 0 <? total v)%float; reflexivity.
Qed.

Lemma marks_clips_length (v : video) (marks : list float) :
  List.length (marks_clips v marks) =
    if (last marks 0 <? total v)%float
    then S (List.length marks) else List.length marks.
Proof.
  rewrite marks_clips_run, length_app, length_map, intervals_length.
  destruct (last marks 0 <? total v)%float; simpl; lia.
Qed.

Lemma intervals_same (path : string) (l1 l2 : list float) (s1 s2 : float) :
  same_time s1 s2 ->
  Forall not_nan l1 -> Forall not_nan l2 ->
  map units l1 = map units l2 ->
  Forall2 same_span (map (span_at path) (intervals s1 l1))
                    (map (span_at path) (intervals s2 l2)).
Proof.
  intros Hs H1. revert l2 s1 s2 Hs.
  induction H1 as [ | x l1 Hx H1 IH]; intros [ | y l2] s1 s2 Hs H2 E;
    simpl in E; try discriminate; simpl.
  { constructor. }
  inversion H2; subst. injection E as Exy E.
  pose proof (same_time_units x y Hx H3 Exy) as Sxy.
  constructor.
  - repeat split; simpl; assumption.
  - apply IH; assumption.
Qed.

Lemma marks_clips_same (v : video) (l1 l2 : list float) :
  Forall not_nan l1 -> Permutation l1 l2 ->
  Forall2 same_span (segments (marks_clips v (sorted l1)))
                    (segments (marks_clips v (sorted l2))).
Proof.
  intros H1 P.
  assert (H2 : Forall not_nan l2) by (eapply Permutation_Forall; eassumption).
  pose proof (sorted_units_perm l1 l2 H1 P) as E.
  pose proof (sorted_not_nan l1 H1) as S1.
  pose proof (sorted_not_nan l2 H2) as S2.
  rewrite !marks_clips_segments, !map_app.
  apply Forall2_app.
  - apply intervals_same; try assumption. left; reflexivity.
  - pose proof (last_units _ _ 0%float E) as El.
    assert (N1 : not_nan (last (sorted l1) 0%float)).
    { destruct (sorted l1) as [ | a s] eqn:Es; [reflexivity | ].
      rewrite Forall_forall in S1. apply S1. apply last_In. discriminate. }
    assert (N2 : not_nan (last (sorted l2) 0%float)).
    { destruct (sorted l2) as [ | a s] eqn:Es; [reflexivity | ].
      rewrite Forall_forall in S2. apply S2. apply last_In. discriminate. }
    rewrite (ltb_units_l _ _ (total v) N1 N2 El).
    destruct (last (sorted l2) 0 <? total v)%float; simpl; constructor; [ | constructor].
    repeat split; simpl; [apply same_time_units; assumption | left; reflexivity].
Qed.

(** What a call of [split_video_at_marks] that passes validation does,
    when the video opens and the output directory can be made. *)
Lemma split_video_at_marks_run (py_float : string -> option float)
    (path marks : string) (parsed : list float) (D : float) (w : world) :
  path <> "" -> marks <> "" ->
  parse_all py_float (Str.split "," marks) = Some parsed ->
  Fs.lookup path (fs w) = Some (File (Some D)) ->
  (forall p, Fs.lookup "split_clips_at_marks" (fs w) <> Some (File p)) ->
  exists w' listing,
    split_video_at_marks py_float (Some path) marks w = (w', Returns listing)
    /\ trace w' =
         trace w ++ EvOpen path :: EvMakedirs "split_clips_at_marks"
           :: write_events "split_clips_at_marks" 0
                (marks_clips (mk_video path D) (sorted parsed)).
Proof.
  intros Hp Hm Hparse Hv Hd.
  unfold split_video_at_marks.
  apply String.eqb_neq in Hp, Hm. rewrite Hp, Hm, Hparse.
  unfold bind at 1. unfold VideoFileClip. rewrite Hv.
  unfold bind at 1, log, ret. cbn [fs trace].
  destruct (output_run "split_clips_at_marks"
              (marks_clips (mk_video path D) (sorted parsed))
              {| fs := fs w; trace := trace w ++ [EvOpen path] |}
              clip_path_marks Hd) as (w' & listing & Hrun & Htr).
  exists w', listing. split; [exact Hrun | ].
  rewrite Htr. cbn [trace]. rewrite <- app_assoc. reflexivity.
Qed.

(** ** The loop of the duration splitter *)

Lemma duration_loop_S (fuel : nat) (v : video) (d start : float)
    (clips : list clip) :
  duration_loop (S fuel) v d start clips =
    if (start <? total v)%float
    then duration_loop fuel v d (py_min (start + d)%float (total v))
           (clips ++ [subclip v start (Some (py_min (start + d)%float (total v)))])
    else Some clips.
Proof. reflexivity. Qed.

Lemma duration_loop_more (fuel : nat) (v : video) (d start : float)
    (clips out : list clip) :
  duration_loop fuel v d start clips = Some out ->
  duration_loop (S fuel) v d start clips = Some out.
Proof.
  revert start clips. induction fuel as [ | fuel IH]; intros start clips H.
  - discriminate.
  - rewrite duration_loop_S in H |- *.
    destruct (start <? total v)%float; [ | exact H].
    apply IH in H. exact H.
Qed.

Lemma duration_loop_mono (fuel fuel' : nat) (v : video) (d start : float)
    (clips out : list clip) :
  (fuel <= fuel')%nat ->
  duration_loop fuel v d start clips = Some out ->
  duration_loop fuel' v d start clips = Some out.
Proof.
  induction 1 as [ | fuel' _ IH]; intros H; [exact H | ].
  apply duration_loop_more. apply IH. exact H.
Qed.

Lemma cuts_length (j : nat) (d L s : float) : List.length (cuts j d L s) = j.
Proof.
  revert s. induction j as [ | j IH]; intros s; simpl; [ | rewrite IH]; reflexivity.
Qed.

Lemma sum_lengths (d : float) (j : nat) :
  fold_right Z.add 0 (repeat (units d) j) = Z.of_nat j * units d.
Proof.
  induction j as [ | j IH]; [reflexivity | ].
  cbn [repeat fold_right]. rewrite IH. lia.
Qed.

Lemma segments_subclips (v : video) (l : list (float * float)) :
  segments (map (fun i => subclip v (fst i) (Some (snd i))) l) =
  map (span_at (filename v)) l.
Proof.
  unfold segments. induction l as [ | i l IH]; simpl; [reflexivity | ].
  rewrite IH. reflexivity.
Qed.

(** What a call of [split_video_by_duration] that passes validation
    does once the video is open: it runs the loop. *)
Lemma split_video_by_duration_open (py_float : string -> option float)
    (fuel : nat) (path duration : string) (d L : float) (w : world) :
  path <> "" -> duration <> "" ->
  py_float duration = Some d ->
  Fs.lookup path (fs w) = Some (File (Some L)) ->
  split_video_by_duration py_float fuel (Some path) duration w =
    match duration_loop fuel (mk_video path L) d 0%float [] with
    | None => ({| fs := fs w; trace := trace w ++ [EvOpen path] |}, Running)
    | Some clips =>
        (makedirs "split_clips_by_duration" ;;;
         write_clips "split_clips_by_duration" 0 clips ;;;
         get_video_files_from_dir "split_clips_by_duration")
          {| fs := fs w; trace := trace w ++ [EvOpen path] |}
    end.
Proof.
  intros Hp Hd Hparse Hv.
  unfold split_video_by_duration.
  apply String.eqb_neq in Hp, Hd. rewrite Hp, Hd, Hparse.
  unfold bind at 1. unfold VideoFileClip. rewrite Hv.
  unfold bind at 1, log, ret. cbn [fs trace].
  destruct (duration_loop fuel (mk_video path L) d 0%float []); reflexivity.
Qed.

Section ExactAccumulation.

(** The step [d] is [a * 2 ^ g] units, the video lasts [L], and the
    [n] multiples of [d] the loop forms are all binary64 numbers. *)
Variables (v : video) (d : float) (a g : Z) (n : nat).
Hypothesis d_number : is_nan d = false.
Hypothesis L_number : is_nan (total v) = false.
Hypothesis d_grid : units d = a * 2 ^ g.
Hypothesis g_nonneg : 0 <= g.
Hypothesis a_pos : 0 < a.
Hypothesis n_ceil : (Z.of_nat n - 1) * units d < units (total v) <= Z.of_nat n * units d.
Hypothesis n_fits : Z.of_nat n * a < 2 ^ 53.
Hypothesis n_finite : Z.of_nat n * units d < overflow.

Lemma ud_pos : 0 < units d.
Proof. rewrite d_grid. pose proof (pow2_pos g g_nonneg). nia. Qed.

Lemma round_step (k : Z) (s : float) :
  0 <= k -> k * units d < units (total v) -> at_round v d k s ->
  (s <? total v)%float = true
  /\ at_round v d (k + 1) (py_min (s + d)%float (total v)).
Proof.
  intros Hk Hlt [Ns Us]. pose proof ud_pos as Hd.
  rewrite Z.min_l in Us by lia.
  assert (Hkn : k + 1 <= Z.of_nat n) by nia.
  split.
  - rewrite ltb_units by assumption. apply Z.ltb_lt. lia.
  - destruct (add_exact s d ((k + 1) * a) g) as [Na Ua]; try assumption; try lia.
    + nia.
    + pose proof (pow2_pos g g_nonneg).
      assert ((k + 1) * a * 2 ^ g <= Z.of_nat n * units d); [ | lia].
      rewrite d_grid. nia.
    + unfold py_min. rewrite ltb_units by assumption.
      rewrite Ua, Us.
      replace (k * units d + units d) with ((k + 1) * units d) by ring.
      destruct (Z.ltb_spec (units (total v)) ((k + 1) * units d)).
      * split; [assumption | lia].
      * split; [assumption | ]. rewrite Ua, Us. lia.
Qed.

Lemma round_stop (k : Z) (s : float) :
  units (total v) <= k * units d -> at_round v d k s ->
  (s <? total v)%float = false.
Proof.
  intros Hge [Ns Us]. rewrite Z.min_r in Us by lia.
  rewrite ltb_units by assumption. apply Z.ltb_ge. lia.
Qed.

Lemma duration_loop_exact (j : nat) (k : Z) (s : float) (clips : list clip) :
  0 <= k -> k + Z.of_nat j = Z.of_nat n -> at_round v d k s ->
  duration_loop (S j) v d s clips =
    Some (clips ++ map (fun i => subclip v (fst i) (Some (snd i)))
                       (intervals s (cuts j d (total v) s)))
  /\ forall i, (i < j)%nat ->
       at_round v d (k + Z.of_nat i + 1) (nth i (cuts j d (total v) s) 0%float).
Proof.
  revert k s clips. induction j as [ | j IH]; intros k s clips Hk Hkj Hs.
  - rewrite duration_loop_S. cbn [cuts intervals map].
    rewrite (round_stop k s) by (assumption || lia).
    rewrite app_nil_r. split; [reflexivity | intros i Hi; lia].
  - assert (Hlt : k * units d < units (total v)) by nia.
    destruct (round_step k s Hk Hlt Hs) as [Hc Hs'].
    rewrite duration_loop_S. cbn [cuts]. rewrite Hc.
    set (e := py_min (s + d)%float (total v)) in *.
    destruct (IH (k + 1) e (clips ++ [subclip v s (Some e)])
                ltac:(lia) ltac:(lia) Hs') as [Hrun Hcuts].
    split.
    + rewrite Hrun, <- app_assoc. reflexivity.
    + intros [ | i] Hi; cbn [nth].
      * replace (k + Z.of_nat 0 + 1) with (k + 1) by lia. exact Hs'.
      * replace (k + Z.of_nat (S i) + 1) with (k + 1 + Z.of_nat i + 1) by lia.
        apply Hcuts. lia.
Qed.

(** All the spans but the last are [d] long; the last is what is left. *)
Lemma lengths_exact (j : nat) (k : Z) (s : float) (path : string) :
  0 <= k -> k + Z.of_nat (S j) = Z.of_nat n -> at_round v d k s ->
  map span_length (map (span_at path) (intervals s (cuts (S j) d (total v) s))) =
    repeat (units d) j
    ++ [units (total v) - (Z.of_nat n - 1) * units d].
Proof.
  revert k s. induction j as [ | j IH]; intros k s Hk Hkj Hs.
  - assert (Hlt : k * units d < units (total v)) by nia.
    destruct (round_step k s Hk Hlt Hs) as [_ [_ Ue]].
    destruct Hs as [_ Us].
    cbn [cuts intervals map repeat app]. unfold span_length at 1. cbn [span_at t_end t_start fst snd].
    rewrite Ue, Us. f_equal. nia.
  - assert (Hlt : k * units d < units (total v)) by nia.
    destruct (round_step k s Hk Hlt Hs) as [_ Hs'].
    pose proof Hs' as [_ Ue]. pose proof Hs as [_ Us].
    change (cuts (S (S j)) d (total v) s)
      with (py_min (s + d)%float (total v)
            :: cuts (S j) d (total v) (py_min (s + d)%float (total v))).
    cbn [intervals map repeat app].
    rewrite (IH (k + 1)) by (assumption || lia).
    f_equal. unfold span_length. cbn [span_at t_end t_start fst snd].
    rewrite Ue, Us. nia.
Qed.

End ExactAccumulation.

(** The loop on a step whose multiples are exact. *)
Lemma duration_loop_multiples (path : string) (d L : float) (a g : Z) (n : nat) :
  (0 <? d)%float = true -> (0 <? L)%float = true ->
  units d = a * 2 ^ g -> 0 <= g ->
  (Z.of_nat n - 1) * units d < units L <= Z.of_nat n * units d ->
  Z.of_nat n * a < 2 ^ 53 ->
  Z.of_nat n * units d < overflow ->
  let clips :=
    map (fun i => subclip (mk_video path L) (fst i) (Some (snd i)))
        (intervals 0%float (cuts n d L 0%float)) in
  (forall fuel, (n < fuel)%nat ->
     duration_loop fuel (mk_video path L) d 0%float [] = Some clips)
  /\ List.length clips = n
  /\ map span_length (segments clips) =
       repeat (units d) (n - 1) ++ [units L - (Z.of_nat n - 1) * units d].
Proof.
  intros Hd HL Hgrid Hg Hceil Hfits Hfin clips.
  destruct (positive_float d Hd) as [Nd Pd].
  destruct (positive_float L HL) as [NL PL].
  assert (Ha : 0 < a).
  { rewrite Hgrid in Pd. pose proof (pow2_pos g Hg).
    destruct (Z.ltb_spec 0 a); [assumption | nia]. }
  assert (Hn : (0 < n)%nat).
  { destruct n; [ | lia]. simpl in Hceil. lia. }
  set (v := mk_video path L).
  assert (H0 : at_round v d 0 0%float).
  { split; [reflexivity | ]. cbn [total v].
    change (units 0%float) with 0. lia. }
  destruct (duration_loop_exact v d a g n Nd NL Hgrid Hg Ha Hceil Hfits Hfin
              n 0 0%float [] ltac:(lia) ltac:(lia) H0) as [Hrun _].
  split; [ | split].
  - intros fuel Hf. eapply duration_loop_mono; [ | exact Hrun]. lia.
  - unfold clips. rewrite length_map, intervals_length. apply cuts_length.
  - unfold clips. rewrite segments_subclips.
    destruct n as [ | j]; [lia | ].
    pose proof (lengths_exact v d a g (S j) Nd NL Hgrid Hg Ha Hceil Hfits Hfin
                  j 0 0%float path ltac:(lia) ltac:(lia) H0) as Hlen.
    replace (S j - 1)%nat with j by lia. exact Hlen.
Qed.

Lemma units_one : units 1%float = 1 * 2 ^ 1074.
Proof. vm_compute. reflexivity. Qed.

Lemma units_long_video : units long_video = (2 ^ 53 + 2) * 2 ^ 1074.
Proof. vm_compute. reflexivity. Qed.

Lemma units_2_53 : units 9007199254740992%float = 2 ^ 53 * 2 ^ 1074.
Proof. vm_compute. reflexivity. Qed.

Lemma counting_step (s : float) :
  counting s ->
  (s <? long_video)%float = true
  /\ counting (py_min (s + 1)%float long_video).
Proof.
  intros [Ns (k & Hk & Us)].
  pose proof (pow2_pos 1074 ltac:(lia)) as HP.
  assert (NL : is_nan long_video = false) by reflexivity.
  assert (N1 : is_nan 1%float = false) by reflexivity.
  pose proof units_one as U1. pose proof units_long_video as UL.
  pose proof units_2_53 as U53.
  assert (Hmax : 2 ^ 53 * 2 ^ 1074 < overflow).
  { change overflow with (2 ^ 2098).
    rewrite <- (Z.pow_add_r 2 53 1074) by lia. apply Z.pow_lt_mono_r; lia. }
  assert (Hdouble : 2 ^ 1075 = 2 * 2 ^ 1074) by reflexivity.
  set (P := 2 ^ 1074) in *.
  split.
  - rewrite ltb_units by assumption. apply Z.ltb_lt.
    rewrite Us, UL. nia.
  - destruct (Z.eq_dec k (2 ^ 53)) as [E | Hne].
    + (* stuck: 2 ^ 53 + 1 rounds back to 2 ^ 53 *)
      assert (Es : s = 9007199254740992%float).
      { apply units_inj; [exact Ns | reflexivity | | ].
        - rewrite Us, E, U53. reflexivity.
        - rewrite Us, E. nia. }
      subst s. split; [reflexivity | ].
      exists (2 ^ 53). split; [lia | ]. vm_compute. reflexivity.
    + assert (Hsum : is_nan (s + 1)%float = false
                     /\ units (s + 1)%float = (k + 1) * P).
      { assert (H0s : 0 <= units s) by (rewrite Us; nia).
        assert (H01 : 0 <= units 1%float) by (rewrite U1; lia).
        destruct (Z.eq_dec (k + 1) (2 ^ 53)) as [E1 | Hne1].
        - assert (Hs1 : units s + units 1%float = 2 ^ 52 * 2 ^ 1075).
          { rewrite Us, U1, Hdouble.
            change (2 ^ 53) with (2 * 2 ^ 52) in E1. nia. }
          assert (Hc : 0 <= 2 ^ 52 < 2 ^ 53) by lia.
          assert (Hm : 2 ^ 52 * 2 ^ 1075 < overflow).
          { change overflow with (2 ^ 2098).
            rewrite <- (Z.pow_add_r 2 52 1075) by lia.
            apply Z.pow_lt_mono_r; lia. }
          destruct (add_exact s 1%float (2 ^ 52) 1075 Ns N1 H0s H01 Hs1
                      ltac:(lia) Hc Hm) as [Na Ua].
          split; [assumption | ]. rewrite Ua, Us, U1. ring.
        - assert (Hs1 : units s + units 1%float = (k + 1) * P)
            by (rewrite Us, U1; ring).
          assert (Hc : 0 <= k + 1 < 2 ^ 53) by lia.
          assert (Hm : (k + 1) * P < overflow) by nia.
          destruct (add_exact s 1%float (k + 1) 1074 Ns N1 H0s H01 Hs1
                      ltac:(lia) Hc Hm) as [Na Ua].
          split; [assumption | ]. rewrite Ua, Us, U1. ring. }
      destruct Hsum as [Na Ua].
      unfold py_min. rewrite ltb_units by assumption.
      rewrite Ua, UL.
      destruct (Z.ltb_spec ((2 ^ 53 + 2) * P) ((k + 1) * P)); [nia | ].
      split; [assumption | ]. exists (k + 1). split; [lia | exact Ua].
Qed.

Lemma counting_forever (path : string) (fuel : nat) (s : float)
    (clips : list clip) :
  counting s ->
  duration_loop fuel (mk_video path long_video) 1%float s clips = None.
Proof.
  revert s clips. induction fuel as [ | fuel IH]; intros s clips Hs.
  - reflexivity.
  - rewrite duration_loop_S. cbn [total].
    destruct (counting_step s Hs) as [Hc Hs']. rewrite Hc.
    apply IH. exact Hs'.
Qed.

Lemma counting_zero : counting 0%float.
Proof.
  split; [reflexivity | ]. exists 0. split; [lia | reflexivity].
Qed.

Lemma not_advancing_forever (v : video) (d : float) (fuel : nat) (s : float)
    (clips : list clip) :
  (d <=? 0)%float = true -> (0 <? total v)%float = true ->
  not_advancing s ->
  duration_loop fuel v d s clips = None.
Proof.
  intros Hd HL. destruct (nonpositive_float d Hd) as [Nd Ud].
  destruct (positive_float (total v) HL) as [NL UL].
  revert s clips. induction fuel as [ | fuel IH]; intros s clips [Ns Us].
  - reflexivity.
  - rewrite duration_loop_S.
    destruct (add_nonpositive s d Ns Nd Us Ud) as [Na Ua].
    assert (Hc : (s <? total v)%float = true)
      by (rewrite ltb_units by assumption; apply Z.ltb_lt; lia).
    assert (Hm : py_min (s + d)%float (total v) = (s + d)%float).
    { unfold py_min. rewrite ltb_units by assumption.
      destruct (Z.ltb_spec (units (total v)) (units (s + d)%float)); [lia | reflexivity]. }
    rewrite Hc, Hm. apply IH. split; assumption.
Qed.

(** ** Binary64: sums that move up *)

Lemma binary_round_aux_nonneg (m : positive) (e : Z) :
  binary_round_aux prec emax false (Zpos m) e loc_Exact <> S754_nan
  /\ 0 <= SFunits (binary_round_aux prec emax false (Zpos m) e loc_Exact).
Proof.
  unfold binary_round_aux.
  pose proof (shr_fexp_nonneg (Zpos m) e loc_Exact ltac:(lia)) as H1.
  destruct (shr_fexp prec emax (Zpos m) e loc_Exact) as [mrs' e'].
  cbn [fst] in H1.
  pose proof (shr_fexp_nonneg
                (round_nearest_even (shr_m mrs') (loc_of_shr_record mrs')) e'
                loc_Exact (round_nearest_even_nonneg _ _ H1)) as H2.
  destruct (shr_fexp prec emax _ e' loc_Exact) as [mrs'' e''].
  cbn [fst] in H2.
  pose proof overflow_pos as HB.
  destruct (shr_m mrs'') as [ | q | q]; try lia.
  - split; [discriminate | simpl; lia].
  - destruct (e'' <=? emax - prec); (split; [discriminate | ]); cbn [SFunits cond_Zopp].
    + apply Z.mul_nonneg_nonneg; [lia | apply Z.pow_nonneg; lia].
    + lia.
Qed.

(** The sum of two numbers that are not negative is a number that is
    not negative (possibly infinite). *)
Lemma add_nonnegative (x y : float) :
  is_nan x = false -> is_nan y = false ->
  0 <= units x -> 0 <= units y ->
  is_nan (x + y)%float = false /\ 0 <= units (x + y)%float.
Proof.
  intros Nx Ny Hx Hy.
  pose proof (Prim2SF_valid x) as Vx. pose proof (Prim2SF_valid y) as Vy.
  apply Prim2SF_not_nan in Nx, Ny.
  pose proof overflow_pos as HB.
  assert (G : Prim2SF (x + y)%float <> S754_nan
              /\ 0 <= SFunits (Prim2SF (x + y)%float)).
  { rewrite add_spec. unfold units in *. unfold SF64add.
    destruct (Prim2SF x) as [sx | sx | | sx mx ex]; try congruence;
    destruct (Prim2SF y) as [sy | sy | | sy my ey]; try congruence;
    cbn [valid_binary] in Vx, Vy;
    try (pose proof (SFunits_finite_bounds _ _ Vx));
    try (pose proof (SFunits_finite_bounds _ _ Vy));
    cbn [SFunits] in *.
    all: destruct sx; destruct sy; cbn [cond_Zopp] in *; try lia.
    all: try (split; [discriminate | cbn [SFadd SFunits cond_Zopp]; lia]).
    unfold SFadd. cbn [cond_Zopp].
    set (ez := Z.min ex ey).
    destruct (Zpos (fst (shl_align mx ex ez)) + Zpos (fst (shl_align my ey ez)))
      as [ | M | M] eqn:EM; try lia.
    cbn [binary_normalize]. unfold binary_round.
    destruct (shl_align M ez _) as [mz ez'].
    apply binary_round_aux_nonneg. }
  destruct G as [G1 G2]. split; [apply not_nan_of_spec; exact G1 | exact G2].
Qed.

Lemma shr_1_half (mrs : shr_record) :
  0 <= shr_m mrs -> shr_m (shr_1 mrs) = shr_m mrs / 2.
Proof.
  destruct mrs as [m r s]. cbn [shr_m]. intros Hm.
  destruct m as [ | [p | p | ] | p]; cbn [shr_1 shr_m].
  - reflexivity.
  - apply (Z.div_unique _ _ _ 1); lia.
  - apply (Z.div_unique _ _ _ 0); lia.
  - reflexivity.
  - lia.
Qed.

Lemma iter_shr_1_div (p : positive) (mrs : shr_record) :
  0 <= shr_m mrs ->
  shr_m (iter_pos shr_1 p mrs) = shr_m mrs / 2 ^ Zpos p.
Proof.
  revert mrs. induction p as [p IH | p IH | ]; intros mrs Hm; cbn [iter_pos].
  - assert (H1 : 0 <= shr_m (shr_1 mrs)) by (apply shr_1_nonneg; exact Hm).
    assert (H2 : 0 <= shr_m (iter_pos shr_1 p (shr_1 mrs)))
      by (apply (iter_pos_invariant (fun x => 0 <= shr_m x));
          [apply shr_1_nonneg | exact H1]).
    rewrite IH, IH, shr_1_half by assumption.
    rewrite !Z.div_div by (pose proof (pow2_pos (Zpos p) ltac:(lia)); lia).
    f_equal. replace (Zpos p~1) with (1 + (Zpos p + Zpos p)) by lia.
    rewrite !Z.pow_add_r, Z.pow_1_r by lia. ring.
  - assert (H2 : 0 <= shr_m (iter_pos shr_1 p mrs))
      by (apply (iter_pos_invariant (fun x => 0 <= shr_m x));
          [apply shr_1_nonneg | exact Hm]).
    rewrite IH, IH by assumption.
    rewrite Z.div_div by (pose proof (pow2_pos (Zpos p) ltac:(lia)); lia).
    f_equal. replace (Zpos p~0) with (Zpos p + Zpos p) by lia.
    rewrite Z.pow_add_r by lia. reflexivity.
  - rewrite shr_1_half by exact Hm. reflexivity.
Qed.

(** What [shr_fexp] keeps of a positive number is at least every
    number [c * 2 ^ g] with [c <= 2 ^ 53] below it (in units of
    [2 ^ -1074]). *)
Lemma shr_fexp_lower (m : positive) (e : Z) (l : location) (c g : Z) :
  -1074 <= e -> 0 <= g -> 0 < c <= 2 ^ 53 ->
  c * 2 ^ g <= Zpos m * 2 ^ (e + 1074) ->
  -1074 <= snd (shr_fexp prec emax (Zpos m) e l)
  /\ c * 2 ^ g <=
       shr_m (fst (shr_fexp prec emax (Zpos m) e l))
       * 2 ^ (snd (shr_fexp prec emax (Zpos m) e l) + 1074).
Proof.
  intros He Hg Hc HT. unfold shr_fexp, shr. cbn [Zdigits2].
  assert (Hm0 : shr_m (shr_record_of_loc (Zpos m) l) = Zpos m)
    by (destruct l as [ | [ | | ]]; reflexivity).
  rewrite fexp_eq.
  pose proof (digits2_pos_bounds m) as [Dlo Dhi].
  set (D := Zpos (digits2_pos m)) in *.
  destruct (Z.max (D + e - 53) (-1074) - e) as [ | p | p] eqn:Ep; cbn [fst snd].
  - rewrite Hm0. split; [exact He | exact HT].
  - assert (Hp : Zpos p = D - 53) by lia.
    rewrite iter_shr_1_div by (rewrite Hm0; lia). rewrite Hm0.
    split; [lia | ].
    pose proof (pow2_pos (Zpos p) ltac:(lia)) as Pp.
    pose proof (pow2_pos (e + 1074) ltac:(lia)) as Pe.
    pose proof (pow2_pos g Hg) as Pg.
    replace (e + Zpos p + 1074) with (e + 1074 + Zpos p) by lia.
    rewrite (Z.pow_add_r 2 (e + 1074) (Zpos p)) by lia.
    assert (Hlow : 2 ^ 52 <= Zpos m / 2 ^ Zpos p).
    { apply Z.div_le_lower_bound; [exact Pp | ].
      rewrite <- (Z.pow_add_r 2 (Zpos p) 52) by lia.
      replace (Zpos p + 52) with (D - 1) by lia. exact Dlo. }
    destruct (Z.le_gt_cases (e + 1074 + Zpos p) g) as [Hge | Hlt].
    + (* the bound is a multiple of the new unit *)
      set (r := g - (e + 1074 + Zpos p)).
      assert (Hr : 0 <= r) by (unfold r; lia).
      assert (Eg : 2 ^ g = 2 ^ r * (2 ^ (e + 1074) * 2 ^ Zpos p)).
      { rewrite <- !Z.pow_add_r by lia. f_equal. unfold r. lia. }
      pose proof (pow2_pos r Hr) as Pr.
      assert (Hq : c * 2 ^ r <= Zpos m / 2 ^ Zpos p).
      { apply Z.div_le_lower_bound; [exact Pp | ].
        rewrite Eg in HT.
        apply (Z.mul_le_mono_pos_r _ _ (2 ^ (e + 1074))); [exact Pe | ].
        replace (2 ^ Zpos p * (c * 2 ^ r) * 2 ^ (e + 1074))
          with (c * (2 ^ r * (2 ^ (e + 1074) * 2 ^ Zpos p))) by ring.
        exact HT. }
      rewrite Eg.
      set (Q := Zpos m / 2 ^ Zpos p) in *.
      set (A := 2 ^ (e + 1074) * 2 ^ Zpos p) in *.
      assert (PA : 0 < A) by (unfold A; nia).
      assert (c * 2 ^ r * A <= Q * A) by (apply Z.mul_le_mono_nonneg_r; lia).
      lia.
    + (* the bound has fewer digits than the result *)
      set (r := e + 1074 + Zpos p - g - 1).
      assert (Hr : 0 <= r) by (unfold r; lia).
      assert (Eg : 2 ^ (e + 1074) * 2 ^ Zpos p = 2 * 2 ^ r * 2 ^ g).
      { rewrite <- (Z.pow_add_r 2 (e + 1074) (Zpos p)) by lia.
        replace (e + 1074 + Zpos p) with (1 + r + g) by (unfold r; lia).
        rewrite !Z.pow_add_r, Z.pow_1_r by lia. ring. }
      rewrite Eg.
      pose proof (pow2_pos r Hr) as Pr.
      set (Q := Zpos m / 2 ^ Zpos p) in *.
      change (2 ^ 53) with (2 * 2 ^ 52) in Hc.
      assert (c * 2 ^ g <= 2 * 2 ^ 52 * 2 ^ g)
        by (apply Z.mul_le_mono_nonneg_r; lia).
      assert (2 ^ 52 * (2 * 2 ^ g) <= Q * (2 * 2 ^ g))
        by (apply Z.mul_le_mono_nonneg_r; lia).
      assert (Q * (2 * 2 ^ g) * 1 <= Q * (2 * 2 ^ g) * 2 ^ r)
        by (apply Z.mul_le_mono_nonneg_l; nia).
      lia.
  - rewrite Hm0. split; [exact He | exact HT].
Qed.

Lemma round_nearest_even_ge (m : Z) (l : location) : m <= round_nearest_even m l.
Proof.
  unfold round_nearest_even.
  destruct l as [ | [ | | ]]; try lia. destruct (Z.even m); lia.
Qed.

(** Rounding a positive number to nearest gives at least every number
    [c * 2 ^ g] with [c <= 2 ^ 53] that is below it: rounding never
    crosses a binary64 number. *)
Lemma binary_round_aux_lower (m : positive) (e c g : Z) :
  -1074 <= e -> 0 <= g -> 0 < c <= 2 ^ 53 ->
  c * 2 ^ g <= Zpos m * 2 ^ (e + 1074) ->
  c * 2 ^ g <= overflow ->
  binary_round_aux prec emax false (Zpos m) e loc_Exact <> S754_nan
  /\ c * 2 ^ g <= SFunits (binary_round_aux prec emax false (Zpos m) e loc_Exact).
Proof.
  intros He Hg Hc HT Hov. unfold binary_round_aux.
  pose proof (pow2_pos g Hg) as Pg.
  assert (HT0 : 0 < c * 2 ^ g) by (apply Z.mul_pos_pos; lia).
  destruct (shr_fexp_lower m e loc_Exact c g He Hg Hc HT) as [E1 H1].
  destruct (shr_fexp prec emax (Zpos m) e loc_Exact) as [mrs' e'].
  cbn [fst snd] in E1, H1.
  pose proof (pow2_pos (e' + 1074) ltac:(lia)) as Pe'.
  pose proof (round_nearest_even_ge (shr_m mrs') (loc_of_shr_record mrs')) as Hr.
  set (m1 := round_nearest_even (shr_m mrs') (loc_of_shr_record mrs')) in *.
  assert (H1' : c * 2 ^ g <= m1 * 2 ^ (e' + 1074)).
  { eapply Z.le_trans; [exact H1 | ].
    apply Z.mul_le_mono_nonneg_r; lia. }
  assert (Hm1 : 0 < m1).
  { destruct (Z.ltb_spec 0 m1) as [ | Hle]; [assumption | exfalso].
    assert (m1 * 2 ^ (e' + 1074) <= 0 * 2 ^ (e' + 1074))
      by (apply Z.mul_le_mono_nonneg_r; lia).
    lia. }
  destruct m1 as [ | q1 | q1]; try lia.
  destruct (shr_fexp_lower q1 e' loc_Exact c g E1 Hg Hc H1') as [E2 H2].
  destruct (shr_fexp prec emax (Zpos q1) e' loc_Exact) as [mrs'' e''].
  cbn [fst snd] in E2, H2.
  pose proof (pow2_pos (e'' + 1074) ltac:(lia)) as Pe''.
  destruct (shr_m mrs'') as [ | q | q].
  - exfalso. lia.
  - destruct (e'' <=? emax - prec); (split; [discriminate | ]);
      cbn [SFunits cond_Zopp]; assumption.
  - exfalso.
    assert (Z.neg q * 2 ^ (e'' + 1074) <= 0 * 2 ^ (e'' + 1074))
      by (apply Z.mul_le_mono_nonneg_r; lia).
    lia.
Qed.

Lemma binary_round_lower (M : positive) (ez c g : Z) :
  -1074 <= ez -> 0 <= g -> 0 < c <= 2 ^ 53 ->
  c * 2 ^ g <= Zpos M * 2 ^ (ez + 1074) ->
  c * 2 ^ g <= overflow ->
  binary_round prec emax false M ez <> S754_nan
  /\ c * 2 ^ g <= SFunits (binary_round prec emax false M ez).
Proof.
  intros Hez Hg Hc HT Hov. unfold binary_round, shl_align.
  rewrite fexp_eq.
  set (D := Zpos (digits2_pos M)).
  destruct (Z.max (D + ez - 53) (-1074) - ez) as [ | p | p] eqn:Ep.
  - apply binary_round_aux_lower; assumption.
  - apply binary_round_aux_lower; assumption.
  - apply binary_round_aux_lower; try assumption; try lia.
    rewrite iter_xO.
    replace (ez + 1074) with (Zpos p + (Z.max (D + ez - 53) (-1074) + 1074)) in HT
      by lia.
    rewrite (Z.pow_add_r 2 (Zpos p)) in HT by lia.
    rewrite Z.mul_assoc in HT. exact HT.
Qed.

(** Adding a positive number [y] to a finite number [x >= 0] that is
    at most [2 ^ 52] times [y] gives more than [x]: the sum reaches the
    binary64 number that follows [x]. *)
Lemma add_advances (x y : float) :
  is_nan x = false -> is_nan y = false ->
  0 <= units x < overflow -> 0 < units y ->
  units x <= 2 ^ 52 * units y ->
  is_nan (x + y)%float = false /\ units x < units (x + y)%float.
Proof.
  intros Nx Ny Hx Hy Hxy.
  pose proof (Prim2SF_valid x) as Vx. pose proof (Prim2SF_valid y) as Vy.
  apply Prim2SF_not_nan in Nx, Ny.
  pose proof overflow_pos as HB.
  assert (G : Prim2SF (x + y)%float <> S754_nan
              /\ units x < SFunits (Prim2SF (x + y)%float)).
  { rewrite add_spec. unfold units in *. unfold SF64add.
    destruct (Prim2SF x) as [sx | sx | | sx mx ex]; try congruence;
    destruct (Prim2SF y) as [sy | sy | | sy my ey]; try congruence;
    cbn [valid_binary] in Vx, Vy;
    try (pose proof (SFunits_finite_bounds _ _ Vx));
    try (pose proof (SFunits_finite_bounds _ _ Vy));
    cbn [SFunits] in *.
    all: destruct sx; destruct sy; cbn [cond_Zopp] in *; try lia.
    all: try (split; [discriminate | cbn [SFadd SFunits cond_Zopp]; lia]).
    (* two positive finite numbers *)
    destruct (bounded_inv _ _ Vx) as (Hex & Hmx & Hnx).
    destruct (bounded_inv _ _ Vy) as (Hey & _ & _).
    unfold SFadd. cbn [cond_Zopp].
    set (ez := Z.min ex ey).
    rewrite (shl_align_value mx ex ez), (shl_align_value my ey ez)
      by (unfold ez; lia).
    pose proof (pow2_pos (ex - ez) ltac:(unfold ez; lia)) as Hpx.
    pose proof (pow2_pos (ey - ez) ltac:(unfold ez; lia)) as Hpy.
    destruct (Zpos mx * 2 ^ (ex - ez) + Zpos my * 2 ^ (ey - ez))
      as [ | M | M] eqn:EM; try lia.
    cbn [binary_normalize].
    pose proof (pow2_pos (ex + 1074) ltac:(lia)) as Pex.
    assert (EV : Zpos M * 2 ^ (ez + 1074)
                 = Zpos mx * 2 ^ (ex + 1074) + Zpos my * 2 ^ (ey + 1074)).
    { rewrite <- EM, Z.mul_add_distr_r, <- !Z.mul_assoc, <- !Z.pow_add_r
        by (unfold ez; lia).
      f_equal; f_equal; f_equal; lia. }
    (* the step is at least the spacing of the numbers at [x] *)
    assert (Hulp : 2 ^ (ex + 1074) <= Zpos my * 2 ^ (ey + 1074)).
    { destruct (Z.eq_dec ex (-1074)) as [-> | Hne].
      - change (2 ^ (-1074 + 1074)) with 1. lia.
      - specialize (Hnx ltac:(lia)).
        assert (2 ^ 52 * 2 ^ (ex + 1074) <= Zpos mx * 2 ^ (ex + 1074))
          by (apply Z.mul_le_mono_nonneg_r; lia).
        lia. }
    assert (Hov : (Zpos mx + 1) * 2 ^ (ex + 1074) <= overflow).
    { change overflow with (2 ^ (53 + 2045)).
      rewrite (Z.pow_add_r 2 53 2045) by lia.
      apply Z.le_trans with (2 ^ 53 * 2 ^ (ex + 1074)).
      - apply Z.mul_le_mono_nonneg_r; lia.
      - apply Z.mul_le_mono_nonneg_l; [lia | ].
        apply Z.pow_le_mono_r; lia. }
    assert (Hez : -1074 <= ez) by (unfold ez; lia).
    assert (Hc : 0 < Zpos mx + 1 <= 2 ^ 53) by lia.
    assert (HT : (Zpos mx + 1) * 2 ^ (ex + 1074) <= Zpos M * 2 ^ (ez + 1074)).
    { rewrite EV, Z.mul_add_distr_r. lia. }
    destruct (binary_round_lower M ez (Zpos mx + 1) (ex + 1074)
                Hez ltac:(lia) Hc HT Hov) as [R1 R2].
    split; [exact R1 | ].
    rewrite Z.mul_add_distr_r in R2. lia. }
  destruct G as [G1 G2]. split; [apply not_nan_of_spec; exact G1 | exact G2].
Qed.

Lemma units_le_overflow (x : float) : units x <= overflow.
Proof.
  unfold units. pose proof (Prim2SF_valid x) as V. pose proof overflow_pos.
  destruct (Prim2SF x) as [s | s | | s m e]; cbn [SFunits cond_Zopp valid_binary] in *.
  - lia.
  - destruct s; cbn [cond_Zopp]; lia.
  - lia.
  - pose proof (SFunits_finite_bounds m e V). destruct s; cbn [cond_Zopp]; lia.
Qed.

(** ** The loop of the duration splitter: progress and absorption *)

Lemma ltb_numbers (x y : float) :
  (x <? y)%float = true ->
  is_nan x = false /\ is_nan y = false /\ units x < units y.
Proof.
  intros H.
  destruct (is_nan x) eqn:Nx; [rewrite ltb_nan_l in H by exact Nx; discriminate | ].
  destruct (is_nan y) eqn:Ny; [rewrite ltb_nan_r in H by exact Ny; discriminate | ].
  rewrite ltb_units in H by assumption. apply Z.ltb_lt in H. auto.
Qed.

(** From the running total of round [k] on, the loop ends if every
    addition it performs moves the total up: the distance to the length
    of the video, a whole number of units, shrinks at every round. *)
Lemma duration_loop_progress_from (v : video) (d : float) :
  advancing d (total v) ->
  forall (m k : nat) (clips : list clip),
    (forall i, (i < k)%nat -> (running i d (total v) <? total v)%float = true) ->
    units (total v) - units (running k d (total v)) <= Z.of_nat m ->
    exists (j : nat) (out : list clip),
      List.length out = (List.length clips + j)%nat
      /\ forall fuel, (j < fuel)%nat ->
           duration_loop fuel v d (running k d (total v)) clips = Some out.
Proof.
  intros Hadv. induction m as [ | m IH]; intros k clips Hk Hm.
  - exists 0%nat, clips. split; [lia | ]. intros [ | fuel] Hf; [lia | ].
    rewrite duration_loop_S.
    destruct (running k d (total v) <? total v)%float eqn:C; [ | reflexivity].
    apply ltb_numbers in C. lia.
  - destruct (running k d (total v) <? total v)%float eqn:C.
    + assert (Hr : reached k d (total v)).
      { intros i Hi. destruct (Nat.eq_dec i k) as [-> | N]; [exact C | ].
        apply Hk. lia. }
      pose proof (Hadv k Hr) as A.
      destruct (ltb_numbers _ _ C) as (Ns & NL & Hlt).
      destruct (ltb_numbers _ _ A) as (_ & Na & Hup).
      assert (He : units (running k d (total v)) < units (running (S k) d (total v))).
      { cbn [running]. unfold py_min.
        rewrite (ltb_units (total v) _ NL Na).
        destruct (Z.ltb_spec (units (total v))
                    (units (running k d (total v) + d)%float)); lia. }
      destruct (IH (S k)
                  (clips ++ [subclip v (running k d (total v))
                               (Some (running (S k) d (total v)))]))
        as (j & out & Hlen & Hrun).
      * intros i Hi. apply Hr. lia.
      * lia.
      * exists (S j), out. split.
        -- rewrite Hlen, length_app. simpl. lia.
        -- intros [ | fuel] Hf; [lia | ].
           rewrite duration_loop_S, C. apply Hrun. lia.
    + exists 0%nat, clips. split; [lia | ]. intros [ | fuel] Hf; [lia | ].
      rewrite duration_loop_S, C. reflexivity.
Qed.

(** While the loop runs with a step that is not negative, the running
    total is a number that is not negative. *)
Lemma running_nonnegative (d L : float) (k : nat) :
  is_nan d = false -> 0 <= units d ->
  reached k d L ->
  is_nan (running k d L) = false /\ 0 <= units (running k d L).
Proof.
  intros Nd Hd. induction k as [ | k IH]; intros Hr.
  - split; [reflexivity | ]. cbn [running]. change (units 0%float) with 0. lia.
  - assert (Hk : reached k d L) by (intros i Hi; apply Hr; lia).
    destruct (IH Hk) as [Ns Us].
    destruct (ltb_numbers _ _ (Hr 0%nat ltac:(lia))) as (_ & NL & PL).
    cbn [running] in PL. change (units 0%float) with 0 in PL.
    destruct (add_nonnegative (running k d L) d Ns Nd Us Hd) as [Na Ua].
    cbn [running]. unfold py_min. rewrite (ltb_units L _ NL Na).
    destruct (Z.ltb_spec (units L) (units (running k d L + d)%float));
      split; try assumption; lia.
Qed.

(** No step is absorbed while the running total is at most [2 ^ 52]
    steps. *)
Lemma running_advances (d L : float) :
  (0 <? d)%float = true -> units L <= 2 ^ 52 * units d -> advancing d L.
Proof.
  intros Hd HL k Hr. destruct (positive_float d Hd) as [Nd Pd].
  destruct (running_nonnegative d L k Nd ltac:(lia) Hr) as [Ns Us].
  destruct (ltb_numbers _ _ (Hr k (Nat.le_refl k))) as (_ & NL & Hlt).
  pose proof (units_le_overflow L) as Hov.
  destruct (add_advances (running k d L) d Ns Nd ltac:(lia) Pd ltac:(lia))
    as [Na Ua].
  rewrite ltb_units by assumption. apply Z.ltb_lt. exact Ua.
Qed.

Section Absorbed.

(** A step [d] of [2 ^ g] units on a video longer than [2 ^ 53] steps:
    the total counts up exactly to [top = 2 ^ 53 * d], where the next
    addition is rounded back to [top]. *)
Variables (v : video) (d top : float) (g : Z).
Hypothesis d_number : is_nan d = false.
Hypothesis d_units : units d = 2 ^ g.
Hypothesis g_range : 0 <= g < 2044.
Hypothesis top_number : is_nan top = false.
Hypothesis top_units : units top = 2 ^ 53 * 2 ^ g.
Hypothesis top_absorbs : (top + d)%float = top.
Hypothesis L_number : is_nan (total v) = false.
Hypothesis L_above : 2 ^ 53 * 2 ^ g < units (total v).

Lemma stepping_step (s : float) :
  stepping g s ->
  (s <? total v)%float = true
  /\ stepping g (py_min (s + d)%float (total v)).
Proof.
  intros [Ns (k & Hk & Us)].
  pose proof (pow2_pos g ltac:(lia)) as HP.
  assert (Hmax : 2 ^ 53 * 2 ^ g < overflow).
  { change overflow with (2 ^ 2098).
    rewrite <- (Z.pow_add_r 2 53 g) by lia. apply Z.pow_lt_mono_r; lia. }
  assert (Hdouble : 2 ^ (g + 1) = 2 * 2 ^ g).
  { rewrite Z.pow_add_r by lia. change (2 ^ 1) with 2. lia. }
  set (P := 2 ^ g) in *.
  split.
  - rewrite ltb_units by assumption. apply Z.ltb_lt. rewrite Us. nia.
  - destruct (Z.eq_dec k (2 ^ 53)) as [E | Hne].
    + (* stuck *)
      assert (Es : s = top).
      { apply units_inj; [exact Ns | exact top_number | | ].
        - rewrite Us, E, top_units. reflexivity.
        - rewrite Us, E. nia. }
      subst s. rewrite top_absorbs.
      assert (Hm : py_min top (total v) = top).
      { unfold py_min. rewrite ltb_units by assumption.
        destruct (Z.ltb_spec (units (total v)) (units top)); [lia | reflexivity]. }
      rewrite Hm. split; [exact top_number | ].
      exists (2 ^ 53). split; [lia | exact top_units].
    + assert (Hsum : is_nan (s + d)%float = false
                     /\ units (s + d)%float = (k + 1) * P).
      { assert (H0s : 0 <= units s) by (rewrite Us; nia).
        assert (H0d : 0 <= units d) by lia.
        destruct (Z.eq_dec (k + 1) (2 ^ 53)) as [E1 | Hne1].
        - assert (Hs1 : units s + units d = 2 ^ 52 * 2 ^ (g + 1)).
          { rewrite Us, d_units, Hdouble.
            change (2 ^ 53) with (2 * 2 ^ 52) in E1. nia. }
          assert (Hc : 0 <= 2 ^ 52 < 2 ^ 53) by lia.
          assert (Hm : 2 ^ 52 * 2 ^ (g + 1) < overflow).
          { rewrite Hdouble. change (2 ^ 53) with (2 * 2 ^ 52) in Hmax. lia. }
          assert (Hg1 : 0 <= g + 1) by lia.
          destruct (add_exact s d (2 ^ 52) (g + 1) Ns d_number H0s H0d Hs1
                      Hg1 Hc Hm) as [Na Ua].
          split; [assumption | ]. rewrite Ua, Us, d_units. ring.
        - assert (Hs1 : units s + units d = (k + 1) * P).
          { rewrite Us, d_units. ring. }
          assert (Hc : 0 <= k + 1 < 2 ^ 53) by lia.
          assert (Hm : (k + 1) * P < overflow) by nia.
          assert (Hg0 : 0 <= g) by lia.
          destruct (add_exact s d (k + 1) g Ns d_number H0s H0d Hs1
                      Hg0 Hc Hm) as [Na Ua].
          split; [assumption | ]. rewrite Ua, Us, d_units. ring. }
      destruct Hsum as [Na Ua].
      unfold py_min. rewrite ltb_units by assumption.
      rewrite Ua.
      destruct (Z.ltb_spec (units (total v)) ((k + 1) * P)); [nia | ].
      split; [assumption | ]. exists (k + 1). split; [lia | exact Ua].
Qed.

Lemma stepping_forever (fuel : nat) (s : float) (clips : list clip) :
  stepping g s -> duration_loop fuel v d s clips = None.
Proof.
  revert s clips. induction fuel as [ | fuel IH]; intros s clips Hs.
  - reflexivity.
  - rewrite duration_loop_S.
    destruct (stepping_step s Hs) as [Hc Hs']. rewrite Hc.
    apply IH. exact Hs'.
Qed.

End Absorbed.

Lemma tiny_step_forever (path : string) (fuel : nat) :
  duration_loop fuel (mk_video path 100%float) tiny_step 0%float [] = None.
Proof.
  apply (stepping_forever (mk_video path 100%float) tiny_step 8%float 1024).
  - reflexivity.
  - vm_compute. reflexivity.
  - lia.
  - reflexivity.
  - vm_compute. reflexivity.
  - vm_compute. reflexivity.
  - reflexivity.
  - vm_compute. reflexivity.
  - split; [reflexivity | ]. exists 0. split; [lia | reflexivity].
Qed.

(** * The claims of the specification *)

(** ** The mark splitter *)

(** C1 (with the proviso that no mark is NaN): a call of
    [split_video_at_marks] with a non-empty path, a non-empty marks
    string whose tokens all parse, none to NaN, on a video of duration
    [D], returns after writing, as [clip_0.mp4], [clip_1.mp4], ..., the
    segments [[0, m0), [m0, m1), ..., [mk, D)] cut at the marks [ms] in
    ascending order ([ms] is a permutation of the parsed marks, sorted
    by [<=]); the last segment [[mk, D)] is there exactly when [mk < D].
    Their number is [len(marks) + 1] if the largest mark is below [D],
    and [len(marks)] otherwise. *)
Theorem split_video_at_marks_segments (py_float : string -> option float)
    (path marks : string) (parsed : list float) (D : float) (w : world) :
  path <> "" -> marks <> "" ->
  parse_all py_float (Str.split "," marks) = Some parsed ->
  Forall not_nan parsed ->
  Fs.lookup path (fs w) = Some (File (Some D)) ->
  (forall p, Fs.lookup "split_clips_at_marks" (fs w) <> Some (File p)) ->
  exists (ms : list float) (clips : list clip) (w' : world) (listing : list string),
    split_video_at_marks py_float (Some path) marks w = (w', Returns listing)
    /\ trace w' =
         trace w ++ EvOpen path :: EvMakedirs "split_clips_at_marks"
           :: write_events "split_clips_at_marks" 0 clips
    /\ Permutation parsed ms
    /\ StronglySorted fle ms
    /\ segments clips =
         map (span_at path)
             (intervals 0%float ms
              ++ (if (last ms 0 <? D)%float then [(last ms 0%float, D)] else []))
    /\ (forall M, In M parsed -> Forall (fun m => fle m M) parsed ->
        List.length clips =
          if (M <? D)%float then S (List.length parsed) else List.length parsed).
Proof.
  intros Hp Hm Hparse Hn Hv Hd.
  destruct (split_video_at_marks_run py_float path marks parsed D w
              Hp Hm Hparse Hv Hd) as (w' & listing & Hrun & Htr).
  exists (sorted parsed), (marks_clips (mk_video path D) (sorted parsed)), w', listing.
  split; [exact Hrun | ]. split; [exact Htr | ].
  split; [apply sorted_perm | ]. split; [apply sorted_ascending; exact Hn | ].
  split; [apply (marks_clips_segments (mk_video path D)) | ].
  intros M HM Hmax. rewrite marks_clips_length. cbn [total].
  assert (HMn : not_nan M) by (rewrite Forall_forall in Hn; auto).
  assert (Hne : sorted parsed <> []).
  { intros E. pose proof (sorted_perm parsed) as P. rewrite E in P.
    apply Permutation_sym, Permutation_nil in P. subst parsed. destruct HM. }
  assert (Hln : not_nan (last (sorted parsed) 0%float)).
  { pose proof (sorted_not_nan parsed Hn) as Hs. rewrite Forall_forall in Hs.
    apply Hs. apply last_In. exact Hne. }
  rewrite (ltb_units_l _ M D Hln HMn (last_sorted_largest parsed M Hn HM Hmax)).
  rewrite <- (Permutation_length (sorted_perm parsed)). reflexivity.
Qed.

Lemma split_video_at_marks_segments_witness :
  exists (ms : list float) (clips : list clip) (w' : world) (listing : list string),
    split_video_at_marks PyFloat.float (Some "v.mp4") "10,30,60"
      (one_video "v.mp4" 90%float) = (w', Returns listing)
    /\ trace w' =
         trace (one_video "v.mp4" 90%float)
           ++ EvOpen "v.mp4" :: EvMakedirs "split_clips_at_marks"
           :: write_events "split_clips_at_marks" 0 clips
    /\ Permutation [10; 30; 60]%float ms
    /\ StronglySorted fle ms
    /\ segments clips =
         map (span_at "v.mp4")
             (intervals 0%float ms
              ++ (if (last ms 0 <? 90)%float then [(last ms 0%float, 90%float)] else []))
    /\ (forall M, In M [10; 30; 60]%float ->
        Forall (fun m => fle m M) [10; 30; 60]%float ->
        List.length clips =
          if (M <? 90)%float then S (List.length [10; 30; 60]%float)
          else List.length [10; 30; 60]%float).
Proof.
  apply (split_video_at_marks_segments PyFloat.float "v.mp4" "10,30,60"
           [10; 30; 60]%float 90%float (one_video "v.mp4" 90%float)).
  - discriminate.
  - discriminate.
  - vm_compute. reflexivity.
  - repeat constructor.
  - reflexivity.
  - intros p. discriminate.
Defined.

(** The scenario of the specification: 90 seconds, marks [10,30,60]. *)
Example split_video_at_marks_scenario :
  snd (split_video_at_marks PyFloat.float (Some "v.mp4") "10,30,60"
         (one_video "v.mp4" 90%float))
    = Returns ["split_clips_at_marks/clip_0.mp4"; "split_clips_at_marks/clip_1.mp4";
               "split_clips_at_marks/clip_2.mp4"; "split_clips_at_marks/clip_3.mp4"]
  /\ trace (fst (split_video_at_marks PyFloat.float (Some "v.mp4") "10,30,60"
                   (one_video "v.mp4" 90%float)))
     = [EvOpen "v.mp4"; EvMakedirs "split_clips_at_marks";
        EvWrite "split_clips_at_marks/clip_0.mp4"
          (subclip (mk_video "v.mp4" 90) 0 (Some 10%float));
        EvWrite "split_clips_at_marks/clip_1.mp4"
          (subclip (mk_video "v.mp4" 90) 10 (Some 30%float));
        EvWrite "split_clips_at_marks/clip_2.mp4"
          (subclip (mk_video "v.mp4" 90) 30 (Some 60%float));
        EvWrite "split_clips_at_marks/clip_3.mp4"
          (subclip (mk_video "v.mp4" 90) 60 None)].
Proof. split; vm_compute; reflexivity. Qed.

(** C1 as stated fails on a NaN mark: [float] accepts the token [nan],
    so the call below is valid.  It writes the two segments [[0, 5)]
    and [[5, nan)]; no arrangement of the marks [5] and [nan] is
    ascending, and no segment ends at the duration [10], although the
    only mark that is a number is below it. *)
Lemma split_video_at_marks_nan :
  parse_all PyFloat.float (Str.split "," "5,nan") = Some [5%float; nan]
  /\ snd (split_video_at_marks PyFloat.float (Some "v.mp4") "5,nan"
            (one_video "v.mp4" 10%float))
     = Returns ["split_clips_at_marks/clip_0.mp4"; "split_clips_at_marks/clip_1.mp4"]
  /\ trace (fst (split_video_at_marks PyFloat.float (Some "v.mp4") "5,nan"
                   (one_video "v.mp4" 10%float)))
     = [EvOpen "v.mp4"; EvMakedirs "split_clips_at_marks";
        EvWrite "split_clips_at_marks/clip_0.mp4"
          (subclip (mk_video "v.mp4" 10) 0 (Some 5%float));
        EvWrite "split_clips_at_marks/clip_1.mp4"
          (subclip (mk_video "v.mp4" 10) 5 (Some nan))]
  /\ (forall ms, Permutation [5%float; nan] ms -> StronglySorted fle ms -> False)
  /\ (5 <? 10)%float = true.
Proof.
  split; [vm_compute; reflexivity | ]. split; [vm_compute; reflexivity | ].
  split; [vm_compute; reflexivity | ]. split; [ | reflexivity].
  intros ms P Hs.
  apply Permutation_length_2_inv in P. destruct P as [-> | ->];
    apply StronglySorted_inv in Hs; destruct Hs as [_ Hs];
    inversion Hs as [ | x l Hx _]; subst; unfold fle in Hx; discriminate Hx.
Qed.

(** C3 (with the proviso that no mark is NaN): two marks strings that
    parse to the same marks in any order, none of them NaN, make
    [split_video_at_marks] write the same sequence of segments: same
    source, same boundaries (as numbers: [0.0] and [-0.0] are one). *)
Theorem split_video_at_marks_permutation (py_float : string -> option float)
    (path marks1 marks2 : string) (parsed1 parsed2 : list float) (D : float)
    (w : world) :
  path <> "" -> marks1 <> "" -> marks2 <> "" ->
  parse_all py_float (Str.split "," marks1) = Some parsed1 ->
  parse_all py_float (Str.split "," marks2) = Some parsed2 ->
  Permutation parsed1 parsed2 ->
  Forall not_nan parsed1 ->
  Fs.lookup path (fs w) = Some (File (Some D)) ->
  (forall p, Fs.lookup "split_clips_at_marks" (fs w) <> Some (File p)) ->
  exists clips1 clips2 w1 w2 listing1 listing2,
    split_video_at_marks py_float (Some path) marks1 w = (w1, Returns listing1)
    /\ split_video_at_marks py_float (Some path) marks2 w = (w2, Returns listing2)
    /\ trace w1 =
         trace w ++ EvOpen path :: EvMakedirs "split_clips_at_marks"
           :: write_events "split_clips_at_marks" 0 clips1
    /\ trace w2 =
         trace w ++ EvOpen path :: EvMakedirs "split_clips_at_marks"
           :: write_events "split_clips_at_marks" 0 clips2
    /\ Forall2 same_span (segments clips1) (segments clips2).
Proof.
  intros Hp Hm1 Hm2 Hp1 Hp2 P Hn Hv Hd.
  destruct (split_video_at_marks_run py_float path marks1 parsed1 D w
              Hp Hm1 Hp1 Hv Hd) as (w1 & listing1 & Hrun1 & Htr1).
  destruct (split_video_at_marks_run py_float path marks2 parsed2 D w
              Hp Hm2 Hp2 Hv Hd) as (w2 & listing2 & Hrun2 & Htr2).
  exists (marks_clips (mk_video path D) (sorted parsed1)),
         (marks_clips (mk_video path D) (sorted parsed2)),
         w1, w2, listing1, listing2.
  repeat (split; [assumption | ]).
  apply marks_clips_same; assumption.
Qed.

Lemma split_video_at_marks_permutation_witness :
  exists clips1 clips2 w1 w2 listing1 listing2,
    split_video_at_marks PyFloat.float (Some "v.mp4") "30,10"
      (one_video "v.mp4" 90%float) = (w1, Returns listing1)
    /\ split_video_at_marks PyFloat.float (Some "v.mp4") "10,30"
         (one_video "v.mp4" 90%float) = (w2, Returns listing2)
    /\ trace w1 =
         trace (one_video "v.mp4" 90%float)
           ++ EvOpen "v.mp4" :: EvMakedirs "split_clips_at_marks"
           :: write_events "split_clips_at_marks" 0 clips1
    /\ trace w2 =
         trace (one_video "v.mp4" 90%float)
           ++ EvOpen "v.mp4" :: EvMakedirs "split_clips_at_marks"
           :: write_events "split_clips_at_marks" 0 clips2
    /\ Forall2 same_span (segments clips1) (segments clips2).
Proof.
  apply (split_video_at_marks_permutation PyFloat.float "v.mp4" "30,10" "10,30"
           [30; 10]%float [10; 30]%float 90%float (one_video "v.mp4" 90%float)).
  - discriminate.
  - discriminate.
  - discriminate.
  - vm_compute. reflexivity.
  - vm_compute. reflexivity.
  - apply perm_swap.
  - repeat constructor.
  - reflexivity.
  - intros p. discriminate.
Defined.

(** C3 as stated fails on a NaN mark: [nan,5] and [5,nan] parse to the
    same marks, yet the first gives three segments and the second two
    ([sorted] leaves each list as it is, since every comparison with
    NaN is false). *)
Lemma split_video_at_marks_nan_order :
  parse_all PyFloat.float (Str.split "," "nan,5") = Some [nan; 5%float]
  /\ parse_all PyFloat.float (Str.split "," "5,nan") = Some [5%float; nan]
  /\ Permutation [nan; 5%float] [5%float; nan]
  /\ snd (split_video_at_marks PyFloat.float (Some "v.mp4") "nan,5"
            (one_video "v.mp4" 10%float))
     = Returns ["split_clips_at_marks/clip_0.mp4"; "split_clips_at_marks/clip_1.mp4";
                "split_clips_at_marks/clip_2.mp4"]
  /\ snd (split_video_at_marks PyFloat.float (Some "v.mp4") "5,nan"
            (one_video "v.mp4" 10%float))
     = Returns ["split_clips_at_marks/clip_0.mp4"; "split_clips_at_marks/clip_1.mp4"]
  /\ trace (fst (split_video_at_marks PyFloat.float (Some "v.mp4") "nan,5"
                   (one_video "v.mp4" 10%float)))
     = [EvOpen "v.mp4"; EvMakedirs "split_clips_at_marks";
        EvWrite "split_clips_at_marks/clip_0.mp4"
          (subclip (mk_video "v.mp4" 10) 0 (Some nan));
        EvWrite "split_clips_at_marks/clip_1.mp4"
          (subclip (mk_video "v.mp4" 10) nan (Some 5%float));
        EvWrite "split_clips_at_marks/clip_2.mp4"
          (subclip (mk_video "v.mp4" 10) 5 None)]
  /\ trace (fst (split_video_at_marks PyFloat.float (Some "v.mp4") "5,nan"
                   (one_video "v.mp4" 10%float)))
     = [EvOpen "v.mp4"; EvMakedirs "split_clips_at_marks";
        EvWrite "split_clips_at_marks/clip_0.mp4"
          (subclip (mk_video "v.mp4" 10) 0 (Some 5%float));
        EvWrite "split_clips_at_marks/clip_1.mp4"
          (subclip (mk_video "v.mp4" 10) 5 (Some nan))].
Proof.
  split; [vm_compute; reflexivity | ]. split; [vm_compute; reflexivity | ].
  split; [apply perm_swap | ].
  split; [vm_compute; reflexivity | ]. split; [vm_compute; reflexivity | ].
  split; vm_compute; reflexivity.
Qed.

(** C5: [split_video_at_marks] raises [gr.Error] exactly when the path
    is missing or empty, the marks string is empty, or some token of
    [marks.split(',')] is refused by [float]; whenever it does, the
    world is left as it was: the video has not been opened and nothing
    has been written. *)
Theorem split_video_at_marks_input_error (py_float : string -> option float)
    (video_path : option string) (marks : string) (w : world) :
  ((exists msg,
      snd (split_video_at_marks py_float video_path marks w) = Raises (GrError msg))
   <-> (falsy video_path = true
        \/ marks = ""
        \/ exists tok, In tok (Str.split "," marks) /\ py_float tok = None))
  /\ (forall msg,
        snd (split_video_at_marks py_float video_path marks w) = Raises (GrError msg) ->
        fst (split_video_at_marks py_float video_path marks w) = w).
Proof.
  unfold split_video_at_marks, falsy.
  destruct video_path as [path | ].
  2:{ split; [ | reflexivity].
      split; [intros _; left; reflexivity | intros _; eexists; reflexivity]. }
  destruct (path =? "")%string eqn:Ep.
  { split; [ | reflexivity].
    split; [intros _; left; reflexivity | intros _; eexists; reflexivity]. }
  destruct (marks =? "")%string eqn:Em.
  { split; [ | reflexivity].
    split; [intros _; right; left; apply String.eqb_eq; exact Em
           | intros _; eexists; reflexivity]. }
  destruct (parse_all py_float (Str.split "," marks)) as [parsed | ] eqn:Et.
  - assert (K : forall msg,
               snd ((v <- VideoFileClip path ;;
                     makedirs "split_clips_at_marks" ;;;
                     write_clips "split_clips_at_marks" 0 (marks_clips v (sorted parsed)) ;;;
                     get_video_files_from_dir "split_clips_at_marks") w)
               <> Raises (GrError msg)).
    { intros msg. apply no_gr_error_bind; [auto with effects | intros v].
      apply no_gr_error_bind; [auto with effects | intros _].
      apply no_gr_error_bind; auto with effects. }
    split.
    + split.
      * intros [msg H]. exfalso. exact (K msg H).
      * intros [H | [H | H]].
        -- discriminate.
        -- apply String.eqb_neq in Em. contradiction.
        -- apply parse_all_None in H. congruence.
    + intros msg H. exfalso. exact (K msg H).
  - split; [ | reflexivity].
    split; [intros _ | intros _; eexists; reflexivity].
    right; right. apply parse_all_None. exact Et.
Qed.

(** ** The duration splitter *)

(** C2 (with the proviso that the accumulation is exact): let the step
    [d > 0] be [a * 2 ^ g] units and [n] be [ceil(L / d)] for a video of
    length [L > 0], and let the multiples of [d] up to the [n]-th be
    binary64 numbers ([n * a < 2 ^ 53], no overflow).  Then
    [split_video_by_duration] returns, given fuel for [n + 1] tests of
    the loop condition, having written [n] segments that follow one
    another from [0]; all but the last are exactly [d] long, the last
    is the remainder [L - (n - 1) * d], which is at most [d], and the
    lengths sum to [L] exactly. *)
Theorem split_video_by_duration_exact (py_float : string -> option float)
    (path duration : string) (d L : float) (a g : Z) (n : nat) (w : world) :
  path <> "" -> duration <> "" ->
  py_float duration = Some d ->
  Fs.lookup path (fs w) = Some (File (Some L)) ->
  (forall p, Fs.lookup "split_clips_by_duration" (fs w) <> Some (File p)) ->
  (0 <? d)%float = true -> (0 <? L)%float = true ->
  units d = a * 2 ^ g -> 0 <= g ->
  (Z.of_nat n - 1) * units d < units L <= Z.of_nat n * units d ->
  Z.of_nat n * a < 2 ^ 53 ->
  Z.of_nat n * units d < 2 ^ 2098 ->
  exists (ends : list float) (clips : list clip) (w' : world)
         (listing : list string),
    (forall fuel, (n < fuel)%nat ->
       split_video_by_duration py_float fuel (Some path) duration w
         = (w', Returns listing))
    /\ trace w' =
         trace w ++ EvOpen path :: EvMakedirs "split_clips_by_duration"
           :: write_events "split_clips_by_duration" 0 clips
    /\ List.length clips = n
    /\ segments clips = map (span_at path) (intervals 0%float ends)
    /\ map span_length (segments clips) =
         repeat (units d) (n - 1) ++ [units L - (Z.of_nat n - 1) * units d]
    /\ 0 < units L - (Z.of_nat n - 1) * units d <= units d
    /\ fold_right Z.add 0 (map span_length (segments clips)) = units L.
Proof.
  intros Hp Hdur Hparse Hv Hdir Hd HL Hgrid Hg Hceil Hfits Hfin.
  destruct (duration_loop_multiples path d L a g n Hd HL Hgrid Hg Hceil Hfits Hfin)
    as (Hrun & Hlen & Hlens).
  set (clips := map (fun i => subclip (mk_video path L) (fst i) (Some (snd i)))
                    (intervals 0%float (cuts n d L 0%float))) in *.
  destruct (output_run "split_clips_by_duration" clips
              {| fs := fs w; trace := trace w ++ [EvOpen path] |}
              clip_path_duration Hdir) as (w' & listing & Hout & Htr).
  exists (cuts n d L 0%float), clips, w', listing.
  split; [ | split; [ | split; [ | split; [ | split; [ | split]]]]].
  - intros fuel Hf.
    rewrite (split_video_by_duration_open py_float fuel path duration d L w
               Hp Hdur Hparse Hv).
    rewrite (Hrun fuel Hf). exact Hout.
  - rewrite Htr. cbn [trace]. rewrite <- app_assoc. reflexivity.
  - exact Hlen.
  - unfold clips. apply (segments_subclips (mk_video path L)).
  - exact Hlens.
  - lia.
  - rewrite Hlens, fold_right_app. cbn [fold_right].
    assert (G : forall (l : list Z) (z : Z),
               fold_right Z.add z l = fold_right Z.add 0 l + z).
    { induction l as [ | x l IH]; intros z; cbn [fold_right]; [lia | ].
      rewrite IH. lia. }
    rewrite G, sum_lengths.
    assert (0 < n)%nat by (destruct n; [simpl in Hceil; destruct (positive_float L HL); lia | lia]).
    rewrite Nat2Z.inj_sub by lia. simpl Z.of_nat. lia.
Qed.

Lemma split_video_by_duration_exact_witness :
  exists (ends : list float) (clips : list clip) (w' : world)
         (listing : list string),
    (forall fuel, (3 < fuel)%nat ->
       split_video_by_duration PyFloat.float fuel (Some "v.mp4") "40"
         (one_video "v.mp4" 100%float) = (w', Returns listing))
    /\ trace w' =
         trace (one_video "v.mp4" 100%float)
           ++ EvOpen "v.mp4" :: EvMakedirs "split_clips_by_duration"
           :: write_events "split_clips_by_duration" 0 clips
    /\ List.length clips = 3%nat
    /\ segments clips = map (span_at "v.mp4") (intervals 0%float ends)
    /\ map span_length (segments clips) =
         repeat (units 40%float) (3 - 1)
         ++ [units 100%float - (Z.of_nat 3 - 1) * units 40%float]
    /\ 0 < units 100%float - (Z.of_nat 3 - 1) * units 40%float <= units 40%float
    /\ fold_right Z.add 0 (map span_length (segments clips)) = units 100%float.
Proof.
  apply (split_video_by_duration_exact PyFloat.float "v.mp4" "40"
           40%float 100%float 5 1077 3 (one_video "v.mp4" 100%float)).
  - discriminate.
  - discriminate.
  - vm_compute. reflexivity.
  - reflexivity.
  - intros p. discriminate.
  - reflexivity.
  - reflexivity.
  - vm_compute. reflexivity.
  - lia.
  - split; vm_compute; [reflexivity | discriminate].
  - vm_compute. reflexivity.
  - vm_compute. reflexivity.
Defined.

(** The scenario of the specification: 100 seconds in steps of 40. *)
Example split_video_by_duration_scenario :
  trace (fst (split_video_by_duration PyFloat.float 4 (Some "v.mp4") "40"
                (one_video "v.mp4" 100%float)))
  = [EvOpen "v.mp4"; EvMakedirs "split_clips_by_duration";
     EvWrite "split_clips_by_duration/clip_0.mp4"
       (subclip (mk_video "v.mp4" 100) 0 (Some 40%float));
     EvWrite "split_clips_by_duration/clip_1.mp4"
       (subclip (mk_video "v.mp4" 100) 40 (Some 80%float));
     EvWrite "split_clips_by_duration/clip_2.mp4"
       (subclip (mk_video "v.mp4" 100) 80 (Some 100%float))].
Proof. vm_compute. reflexivity. Qed.

(** C2 as stated fails when the accumulation rounds: for the duration
    string [0.1] and a video of one second, [ceil(L / d)] is 10 (the
    binary64 number nearest to one tenth is a little above it), but the
    loop writes 11 segments: ten additions of [0.1] give
    [0.9999999999999999], so a sliver of [2 ^ -53] seconds is left.
    The third segment is longer than [d] and the next seven are shorter
    (by [2 ^ -55] seconds). *)
Lemma split_video_by_duration_rounding :
  PyFloat.float "0.1" = Some tenth
  /\ (0 <? tenth)%float = true
  /\ (Z.of_nat 10 - 1) * units tenth < units 1%float
  /\ units 1%float <= Z.of_nat 10 * units tenth
  /\ option_map (@List.length clip)
       (duration_loop 12 (mk_video "v.mp4" 1%float) tenth 0%float []) = Some 11%nat
  /\ snd (split_video_by_duration PyFloat.float 12 (Some "v.mp4") "0.1"
            (one_video "v.mp4" 1%float))
     = Returns (map (clip_path "split_clips_by_duration") (seq 0 11))
  /\ option_map (fun clips => map span_length (segments clips))
       (duration_loop 12 (mk_video "v.mp4" 1%float) tenth 0%float [])
     = Some [units tenth; units tenth; units tenth + 2 ^ 1019;
             units tenth - 2 ^ 1019; units tenth - 2 ^ 1019;
             units tenth - 2 ^ 1019; units tenth - 2 ^ 1019;
             units tenth - 2 ^ 1019; units tenth - 2 ^ 1019; units tenth - 2 ^ 1019;
             2 ^ 1021].
Proof.
  split; [vm_compute; reflexivity | ]. split; [reflexivity | ].
  split; [vm_compute; reflexivity | ]. split; [vm_compute; discriminate | ].
  split; [vm_compute; reflexivity | ]. split; vm_compute; reflexivity.
Qed.

(** C4 (with the proviso that no step is absorbed): for every step [d]
    and every video, whatever its length (finite or not, positive or
    not), the loop of [split_video_by_duration] ends, with finitely
    many segments, provided every addition it performs moves the
    running total up: at each running total [s] it reaches (all those
    with [s < total_duration]), the binary64 sum [s + d] is greater
    than [s].  Some number [n] of rounds then gives [n] segments, and
    any fuel above [n] gives that same list.  The proviso holds
    whenever [d > 0] and the length is at most [2 ^ 52] times [d]. *)
Theorem duration_loop_terminates (v : video) (d : float) :
  (advancing d (total v) ->
   exists (n : nat) (clips : list clip),
     List.length clips = n
     /\ forall fuel, (n < fuel)%nat ->
          duration_loop fuel v d 0%float [] = Some clips)
  /\ ((0 <? d)%float = true -> units (total v) <= 2 ^ 52 * units d ->
      advancing d (total v)).
Proof.
  split; [ | apply running_advances].
  intros Hadv.
  destruct (duration_loop_progress_from v d Hadv
              (Z.to_nat (units (total v))) 0 [])
    as (j & out & Hlen & Hrun).
  - intros i Hi. lia.
  - cbn [running]. change (units 0%float) with 0. lia.
  - exists j, out. split; [exact Hlen | exact Hrun].
Qed.

Lemma duration_loop_terminates_witness :
  (exists (n : nat) (clips : list clip),
     List.length clips = n
     /\ forall fuel, (n < fuel)%nat ->
          duration_loop fuel (mk_video "v.mp4" 1%float) tenth 0%float []
            = Some clips)
  /\ option_map (@List.length clip)
       (duration_loop 12 (mk_video "v.mp4" 1%float) tenth 0%float [])
     = Some 11%nat
  /\ PyFloat.float "29.97" = Some ntsc_step
  /\ advancing ntsc_step 100%float.
Proof.
  split; [ | split; [vm_compute; reflexivity | split; [vm_compute; reflexivity | ]]].
  - apply (proj1 (duration_loop_terminates (mk_video "v.mp4" 1%float) tenth)).
    intros k H.
    do 11 (destruct k as [ | k]; [vm_compute; reflexivity | ]).
    pose proof (H 11%nat ltac:(lia)) as H11. vm_compute in H11. discriminate H11.
  - apply (proj2 (duration_loop_terminates (mk_video "v.mp4" 100%float) ntsc_step)).
    + reflexivity.
    + vm_compute. discriminate.
Defined.

(** C4 as stated fails when the step is below the precision of the
    running total.  With [d = 1] on a video of [2 ^ 53 + 2] seconds (a
    finite length), the total counts up to [2 ^ 53]; there
    [2 ^ 53 + 1] rounds back to [2 ^ 53], which is still below the
    length, and the loop never ends.  The same happens on a video of
    100 seconds with the step [2 ^ -50] seconds: the total counts up
    to 8 seconds, where the step is half the spacing of the binary64
    numbers and the sum rounds back to 8. *)
Lemma split_video_by_duration_stalls :
  (0 <? 1)%float = true
  /\ is_finite long_video = true
  /\ PyFloat.float "1" = Some 1%float
  /\ (forall fuel,
        duration_loop fuel (mk_video "v.mp4" long_video) 1%float 0%float [] = None)
  /\ (forall fuel,
        snd (split_video_by_duration PyFloat.float fuel (Some "v.mp4") "1"
               (one_video "v.mp4" long_video)) = Running)
  /\ (0 <? tiny_step)%float = true
  /\ PyFloat.float "0.00000000000000088817841970012523233890533447265625"
     = Some tiny_step
  /\ (8 + tiny_step)%float = 8%float
  /\ (forall fuel,
        duration_loop fuel (mk_video "v.mp4" 100%float) tiny_step 0%float [] = None)
  /\ (forall fuel,
        snd (split_video_by_duration PyFloat.float fuel (Some "v.mp4")
               "0.00000000000000088817841970012523233890533447265625"
               (one_video "v.mp4" 100%float)) = Running).
Proof.
  split; [reflexivity | ]. split; [reflexivity | ].
  split; [vm_compute; reflexivity | ].
  split; [intros fuel; apply counting_forever; exact counting_zero | ].
  split.
  { intros fuel.
    rewrite (split_video_by_duration_open PyFloat.float fuel "v.mp4" "1"
               1%float long_video);
      [ | discriminate | discriminate | vm_compute; reflexivity | reflexivity].
    rewrite counting_forever by exact counting_zero. reflexivity. }
  split; [reflexivity | ]. split; [vm_compute; reflexivity | ].
  split; [vm_compute; reflexivity | ].
  split; [intros fuel; apply tiny_step_forever | ].
  intros fuel.
  rewrite (split_video_by_duration_open PyFloat.float fuel "v.mp4"
             "0.00000000000000088817841970012523233890533447265625"
             tiny_step 100%float);
    [ | discriminate | discriminate | vm_compute; reflexivity | reflexivity].
  rewrite tiny_step_forever. reflexivity.
Qed.

(** C9: a non-empty duration string that parses to [d <= 0] passes the
    validation of [split_video_by_duration] (no [gr.Error]); the video
    is opened and, if it has a positive length, the loop runs for ever
    (whatever the fuel, it is still running), so nothing is written.
    The strings [0] and [-5] are such inputs (the witness). *)
Theorem split_video_by_duration_nonpositive (py_float : string -> option float)
    (path duration : string) (d L : float) (w : world) (fuel : nat) :
  path <> "" -> duration <> "" ->
  py_float duration = Some d ->
  (d <=? 0)%float = true ->
  Fs.lookup path (fs w) = Some (File (Some L)) ->
  (0 <? L)%float = true ->
  split_video_by_duration py_float fuel (Some path) duration w =
    ({| fs := fs w; trace := trace w ++ [EvOpen path] |}, Running).
Proof.
  intros Hp Hdur Hparse Hd Hv HL.
  rewrite (split_video_by_duration_open py_float fuel path duration d L w
             Hp Hdur Hparse Hv).
  rewrite (not_advancing_forever (mk_video path L) d fuel 0%float [] Hd HL).
  - reflexivity.
  - split; [reflexivity | ]. change (units 0%float) with 0. lia.
Qed.

Lemma split_video_by_duration_nonpositive_witness :
  PyFloat.float "-5" = Some (-5)%float
  /\ split_video_by_duration PyFloat.float 1000 (Some "v.mp4") "-5"
       (one_video "v.mp4" 100%float)
     = ({| fs := [("v.mp4", File (Some 100%float))]; trace := [EvOpen "v.mp4"] |},
        Running)
  /\ split_video_by_duration PyFloat.float 1000 (Some "v.mp4") "0"
       (one_video "v.mp4" 100%float)
     = ({| fs := [("v.mp4", File (Some 100%float))]; trace := [EvOpen "v.mp4"] |},
        Running).
Proof.
  split; [vm_compute; reflexivity | ]. split.
  - apply (split_video_by_duration_nonpositive PyFloat.float "v.mp4" "-5"
             (-5)%float 100%float (one_video "v.mp4" 100%float) 1000).
    + discriminate.
    + discriminate.
    + vm_compute; reflexivity.
    + reflexivity.
    + reflexivity.
    + reflexivity.
  - apply (split_video_by_duration_nonpositive PyFloat.float "v.mp4" "0"
             0%float 100%float (one_video "v.mp4" 100%float) 1000).
    + discriminate.
    + discriminate.
    + vm_compute; reflexivity.
    + reflexivity.
    + reflexivity.
    + reflexivity.
Defined.

(** ** The merger *)

Lemma merge_videos_nonempty (paths : list string) :
  paths <> [] ->
  merge_videos (Some paths) =
    (clips <- open_all paths ;;
     write_videofile (concatenate_videoclips (map whole clips))
       "merged_video.mp4" ;;;
     ret "merged_video.mp4").
Proof. destruct paths; [congruence | reflexivity]. Qed.

(** C6: [merge_videos] raises [gr.Error] exactly when the list of paths
    is absent or empty, and then the world (files and trace) is left as
    it was: nothing is opened and nothing is written. *)
Theorem merge_videos_input_error (video_paths : option (list string)) (w : world) :
  ((exists msg, snd (merge_videos video_paths w) = Raises (GrError msg))
   <-> (video_paths = None \/ video_paths = Some []))
  /\ (forall msg, snd (merge_videos video_paths w) = Raises (GrError msg) ->
      fst (merge_videos video_paths w) = w).
Proof.
  assert (K : forall p rest msg,
             snd (merge_videos (Some (p :: rest)) w) <> Raises (GrError msg)).
  { intros p rest msg. unfold merge_videos.
    apply no_gr_error_bind; [auto with effects | intros vs].
    apply no_gr_error_bind; auto with effects. }
  destruct video_paths as [[ | p rest] | ]; split.
  - split; [intros _; right; reflexivity | intros _; eexists; reflexivity].
  - reflexivity.
  - split.
    + intros [msg H]. exfalso. exact (K p rest msg H).
    + intros [H | H]; discriminate.
  - intros msg H. exfalso. exact (K p rest msg H).
  - split; [intros _; left; reflexivity | intros _; eexists; reflexivity].
  - reflexivity.
Qed.

(** C7: on a non-empty list of playable files, [merge_videos] opens
    them in list order, writes one clip whose frames are the whole
    files in that order and whose duration is the (binary64,
    left-to-right) sum of their durations, to [merged_video.mp4],
    replacing what was there, and returns that path. *)
Theorem merge_videos_concatenates (paths : list string) (ds : list float)
    (w : world) :
  paths <> [] ->
  Forall2 (fun p d => Fs.lookup p (fs w) = Some (File (Some d))) paths ds ->
  let final_clip :=
    {| frames := map (fun pd => mk_span (fst pd) 0%float (snd pd))
                     (combine paths ds);
       duration := fold_left PrimFloat.add ds 0%float |} in
  let w' := fst (merge_videos (Some paths) w) in
  snd (merge_videos (Some paths) w) = Returns "merged_video.mp4"
  /\ trace w' =
       trace w ++ map EvOpen paths ++ [EvWrite "merged_video.mp4" final_clip]
  /\ fs w' =
       Fs.put "merged_video.mp4" (File (Some (duration final_clip))) (fs w)
  /\ Fs.lookup "merged_video.mp4" (fs w') =
       Some (File (Some (duration final_clip))).
Proof.
  intros Hne H final_clip w'.
  assert (Hlen : List.length paths = List.length ds) by (eapply Forall2_length; eassumption).
  assert (E : merge_videos (Some paths) w =
              ({| fs := Fs.put "merged_video.mp4"
                          (File (Some (duration final_clip))) (fs w);
                  trace := trace w ++ map EvOpen paths
                             ++ [EvWrite "merged_video.mp4" final_clip] |},
               Returns "merged_video.mp4")).
  { rewrite (merge_videos_nonempty paths Hne). unfold bind.
    rewrite (open_all_playable paths ds w H).
    unfold write_videofile, log, ret, concatenate_videoclips.
    cbn [fs trace].
    rewrite whole_frames, (whole_durations _ _ Hlen).
    rewrite <- app_assoc. reflexivity. }
  subst w'. rewrite E. simpl.
  repeat split. apply lookup_put_same.
Qed.

Lemma merge_videos_concatenates_witness :
  let w := {| fs := [("a.mp4", File (Some 20%float));
                     ("b.mp4", File (Some 15%float))];
              trace := [] |} in
  snd (merge_videos (Some ["a.mp4"; "b.mp4"]) w) = Returns "merged_video.mp4"
  /\ Fs.lookup "merged_video.mp4" (fs (fst (merge_videos (Some ["a.mp4"; "b.mp4"]) w)))
     = Some (File (Some 35%float)).
Proof.
  intros w.
  pose proof (merge_videos_concatenates ["a.mp4"; "b.mp4"] [20%float; 15%float] w
                ltac:(discriminate)
                ltac:(repeat constructor)) as H.
  split; [apply H | ].
  destruct H as (_ & _ & _ & H). exact H.
Defined.

(** C10: a list with exactly one playable file is accepted: the merge
    is written and its path returned, although the message raised for
    the empty list asks for at least two files. *)
Theorem merge_videos_single (p : string) (d : float) (w : world) :
  Fs.lookup p (fs w) = Some (File (Some d)) ->
  snd (merge_videos (Some [p]) w) = Returns "merged_video.mp4"
  /\ trace (fst (merge_videos (Some [p]) w)) =
       trace w ++ [EvOpen p;
                   EvWrite "merged_video.mp4"
                     (concatenate_videoclips [whole (mk_video p d)])]
  /\ snd (merge_videos (Some []) w) =
       Raises (GrError "Please select at least two video files.")
  /\ snd (merge_videos None w) =
       Raises (GrError "Please select at least two video files.").
Proof.
  intros H. unfold merge_videos, bind; simpl.
  unfold bind, VideoFileClip. rewrite H.
  unfold bind, log, ret, write_videofile; simpl.
  rewrite <- app_assoc. repeat split.
Qed.

Lemma merge_videos_single_witness :
  snd (merge_videos (Some ["a.mp4"])
         {| fs := [("a.mp4", File (Some 20%float))]; trace := [] |})
  = Returns "merged_video.mp4".
Proof.
  apply (merge_videos_single "a.mp4" 20%float
           {| fs := [("a.mp4", File (Some 20%float))]; trace := [] |}).
  reflexivity.
Defined.

(** ** The directory lister *)

(** C8: on a directory, [get_video_files_from_dir] changes nothing and
    returns the names the directory lists, in listing order, kept when
    the joined path is a regular file and the extension of the name
    ([os.path.splitext], lower-cased) is one of [.mp4 .avi .mov .mkv
    .webm], each joined with the directory. *)
Theorem get_video_files_from_dir_listing (directory : string) (w : world) :
  Fs.lookup directory (fs w) = Some Dir ->
  exists keep : string -> bool,
    get_video_files_from_dir directory w =
      (w, Returns (map (OsPath.join directory)
                       (filter keep (Fs.entries directory (fs w)))))
    /\ forall f,
         keep f = true <->
         ((exists playable,
             Fs.lookup (OsPath.join directory f) (fs w) = Some (File playable))
          /\ In (Str.lower (snd (OsPath.splitext f)))
                [".mp4"; ".avi"; ".mov"; ".mkv"; ".webm"]).
Proof.
  intros Hd.
  exists (fun f => isfile w (OsPath.join directory f) && is_video_name f).
  split.
  - unfold get_video_files_from_dir, bind, listdir. rewrite Hd. reflexivity.
  - intros f. rewrite andb_true_iff. unfold is_video_name.
    rewrite existsb_eqb_In. unfold isfile, video_extensions.
    destruct (Fs.lookup (OsPath.join directory f) (fs w)) as [[p | ] | ].
    + split; [intros [_ H]; split; [eexists; reflexivity | exact H]
             | intros [_ H]; split; [reflexivity | exact H]].
    + split; [intros [H _]; discriminate | intros [[p H] _]; discriminate].
    + split; [intros [H _]; discriminate | intros [[p H] _]; discriminate].
Qed.

Example get_video_files_from_dir_demo :
  get_video_files_from_dir "out" demo_dir =
    (demo_dir, Returns ["out/clip_1.mp4"; "out/B.MKV"; "out/clip_0.mp4"]).
Proof. reflexivity. Qed.

Lemma get_video_files_from_dir_listing_witness :
  exists keep : string -> bool,
    get_video_files_from_dir "out" demo_dir =
      (demo_dir, Returns (map (OsPath.join "out")
                              (filter keep (Fs.entries "out" (fs demo_dir)))))
    /\ forall f,
         keep f = true <->
         ((exists playable,
             Fs.lookup (OsPath.join "out" f) (fs demo_dir) = Some (File playable))
          /\ In (Str.lower (snd (OsPath.splitext f)))
                [".mp4"; ".avi"; ".mov"; ".mkv"; ".webm"]).
Proof.
  apply (get_video_files_from_dir_listing "out" demo_dir). reflexivity.
Defined.

(** * Further properties of the code *)

(** ** Strings and paths *)

Lemma split_nonempty (c : ascii) (s : string) : Str.split c s <> [].
Proof.
  induction s as [ | a s IH]; simpl; [discriminate | ].
  destruct (Ascii.eqb a c); [discriminate | ].
  destruct (Str.split c s); discriminate.
Qed.

Lemma split_app (c : ascii) (a b : string) :
  Str.split c (a ++ String c b)%string = Str.split c a ++ Str.split c b.
Proof.
  induction a as [ | x a IH]; simpl.
  - rewrite Ascii.eqb_refl. reflexivity.
  - destruct (Ascii.eqb x c); [rewrite IH; reflexivity | ].
    rewrite IH. pose proof (split_nonempty c a) as Hne.
    destruct (Str.split c a) as [ | tok rest]; [congruence | reflexivity].
Qed.

Lemma split_length (c : ascii) (s : string) :
  List.length (Str.split c s) = S (occurrences c s).
Proof.
  induction s as [ | a s IH]; simpl; [reflexivity | ].
  destruct (Ascii.eqb a c); simpl; [rewrite IH; reflexivity | ].
  pose proof (split_nonempty c s) as Hne.
  destruct (Str.split c s) as [ | tok rest]; [congruence | exact IH].
Qed.

Lemma append_assoc (a b c : string) : ((a ++ b) ++ c = a ++ (b ++ c))%string.
Proof. induction a as [ | x a IH]; simpl; [reflexivity | rewrite IH; reflexivity]. Qed.

Lemma append_empty_r (a : string) : (a ++ "")%string = a.
Proof. induction a as [ | x a IH]; simpl; [reflexivity | rewrite IH; reflexivity]. Qed.

Lemma length_append (a b : string) :
  String.length (a ++ b) = (String.length a + String.length b)%nat.
Proof. induction a as [ | x a IH]; simpl; [reflexivity | rewrite IH; reflexivity]. Qed.

Lemma append_inj_l (p a b : string) : (p ++ a = p ++ b)%string -> a = b.
Proof.
  induction p as [ | x p IH]; simpl; intros H; [exact H | ].
  injection H as H. exact (IH H).
Qed.

Lemma append_inj_r (a b c : string) : (a ++ c = b ++ c)%string -> a = b.
Proof.
  revert b. induction a as [ | x a IH]; intros [ | y b] H; simpl in H.
  - reflexivity.
  - exfalso. apply (f_equal String.length) in H. simpl in H.
    rewrite length_append in H. lia.
  - exfalso. apply (f_equal String.length) in H. simpl in H.
    rewrite length_append in H. lia.
  - injection H as -> H. rewrite (IH b H). reflexivity.
Qed.

Lemma strip_prefix_Some (p q f : string) :
  Str.strip_prefix p q = Some f <-> q = (p ++ f)%string.
Proof.
  revert q. induction p as [ | a p IH]; intros q; simpl.
  - split; [intros H; injection H as ->; reflexivity | intros ->; reflexivity].
  - destruct q as [ | b q].
    + split; discriminate.
    + destruct (Ascii.eqb_spec a b) as [-> | N].
      * rewrite IH. split; [intros ->; reflexivity | intros H; injection H as ->; reflexivity].
      * split; [discriminate | intros H; injection H as H _; congruence].
Qed.

Lemma strip_prefix_append (p f : string) : Str.strip_prefix p (p ++ f) = Some f.
Proof. apply strip_prefix_Some. reflexivity. Qed.

(** A name that does not start with a separator is joined to a
    directory by putting the prefix of the directory before it. *)
Lemma join_prefix (d f : string) :
  Str.startswith "/" f = false ->
  OsPath.join d f = (Fs.dir_prefix d ++ f)%string.
Proof.
  intros H. unfold Fs.dir_prefix, OsPath.join. rewrite H. cbn [Str.startswith].
  destruct ((d =? "")%string || Str.endswith "/" d).
  - rewrite append_empty_r. reflexivity.
  - rewrite !append_assoc. reflexivity.
Qed.

Lemma startswith_contains (c : ascii) (f : string) :
  Str.contains c f = false -> Str.startswith c f = false.
Proof.
  destruct f as [ | a f]; simpl; [reflexivity | ].
  intros H. apply orb_false_iff in H. apply H.
Qed.

Lemma contains_append (c : ascii) (a b : string) :
  Str.contains c (a ++ b) = Str.contains c a || Str.contains c b.
Proof.
  induction a as [ | x a IH]; simpl; [reflexivity | ].
  rewrite IH, orb_assoc. reflexivity.
Qed.

Lemma digit_neq (a c : ascii) :
  PyFloat.digit a <> None -> PyFloat.digit c = None -> Ascii.eqb a c = false.
Proof.
  intros Ha Hc. destruct (Ascii.eqb_spec a c) as [E | ]; [ | reflexivity].
  subst c. contradiction.
Qed.

(** The decimal numeral of a number is made of digits. *)
Lemma of_nat_digits (c : ascii) (i : nat) :
  PyFloat.digit c = None -> Str.contains c (Str.of_nat i) = false.
Proof.
  intros Hc. unfold Str.of_nat.
  assert (G : forall d, Str.contains c (NilEmpty.string_of_uint d) = false).
  { induction d as [ | d IH | d IH | d IH | d IH | d IH | d IH | d IH | d IH
                     | d IH | d IH]; cbn [NilEmpty.string_of_uint Str.contains];
      try reflexivity; rewrite IH, orb_false_r;
      (apply digit_neq; [discriminate | exact Hc]). }
  generalize (Nat.to_uint i). intros d. destruct d; try apply G.
  cbn [NilZero.string_of_uint Str.contains]. rewrite orb_false_r.
  apply digit_neq; [discriminate | exact Hc].
Qed.

Lemma of_nat_inj (i k : nat) : Str.of_nat i = Str.of_nat k -> i = k.
Proof.
  unfold Str.of_nat. intros H.
  assert (N : forall n, Nat.to_uint n <> Decimal.Nil).
  { intros n E. pose proof (Unsigned.of_to n) as R. rewrite E in R.
    simpl in R. subst n. discriminate E. }
  apply (f_equal NilZero.uint_of_string) in H.
  rewrite !NilZero.usu in H by apply N.
  injection H as H. apply (f_equal Nat.of_uint) in H.
  rewrite !Unsigned.of_to in H. exact H.
Qed.

Lemma rfind_from_absent (c : ascii) (s : string) (i : Z) :
  Str.contains c s = false -> Str.rfind_from c s i = -1.
Proof.
  revert i. induction s as [ | a s IH]; intros i H; simpl in *; [reflexivity | ].
  apply orb_false_iff in H. destruct H as [Ha Hs].
  rewrite (IH (i + 1) Hs), Ha. reflexivity.
Qed.

Lemma rfind_from_last (c : ascii) (pre rest : string) (i : Z) :
  Str.contains c rest = false -> 0 <= i ->
  Str.rfind_from c (pre ++ String c rest) i = i + Z.of_nat (String.length pre).
Proof.
  intros Hr. revert i. induction pre as [ | a pre IH]; intros i Hi.
  - cbn [append Str.rfind_from String.length].
    rewrite (rfind_from_absent c rest (i + 1) Hr), Ascii.eqb_refl.
    simpl. lia.
  - cbn [append Str.rfind_from String.length].
    rewrite (IH (i + 1)) by lia.
    destruct (Z.leb_spec 0 (i + 1 + Z.of_nat (String.length pre))); lia.
Qed.

Lemma take_append (a b : string) : Str.take (String.length a) (a ++ b) = a.
Proof. induction a as [ | x a IH]; simpl; [destruct b | rewrite IH]; reflexivity. Qed.

Lemma drop_append (a b : string) : Str.drop (String.length a) (a ++ b) = b.
Proof. induction a as [ | x a IH]; simpl; [ | rewrite IH]; reflexivity. Qed.

(** [os.path.splitext] on a plain file name [pre.ext]. *)
Lemma splitext_plain (a : ascii) (pre ext : string) :
  Ascii.eqb a "." = false ->
  Str.contains "/" (String a pre) = false ->
  Str.contains "/" ext = false -> Str.contains "." ext = false ->
  OsPath.splitext (String a pre ++ String "." ext)
  = (String a pre, String "." ext).
Proof.
  intros Ha Hpre Hext Hdot. unfold OsPath.splitext, Str.rfind.
  rewrite (rfind_from_absent "/").
  2:{ rewrite contains_append, Hpre. cbn [Str.contains]. rewrite Hext. reflexivity. }
  rewrite (rfind_from_last "." (String a pre) ext 0 Hdot) by lia.
  replace (-1 <? 0 + Z.of_nat (String.length (String a pre))) with true
    by (symmetry; apply Z.ltb_lt; lia).
  replace (Z.to_nat (0 + Z.of_nat (String.length (String a pre))))
    with (String.length (String a pre)) by lia.
  rewrite take_append, drop_append.
  change (Z.to_nat (-1 + 1)) with 0%nat.
  cbn [String.length Nat.sub OsPath.non_dot_before append String.get].
  rewrite Ha. reflexivity.
Qed.

Lemma clip_name_video (i : nat) :
  is_video_name ("clip_" ++ Str.of_nat i ++ ".mp4") = true.
Proof.
  unfold is_video_name.
  change ("clip_" ++ Str.of_nat i ++ ".mp4")%string
    with (String "c" ("lip_" ++ Str.of_nat i) ++ String "." "mp4")%string.
  rewrite splitext_plain.
  - reflexivity.
  - reflexivity.
  - change (String "c" ("lip_" ++ Str.of_nat i))%string
      with ("clip_" ++ Str.of_nat i)%string.
    rewrite contains_append, of_nat_digits by reflexivity. reflexivity.
  - reflexivity.
  - reflexivity.
Qed.

Lemma clip_name_plain (i : nat) :
  Str.contains "/" ("clip_" ++ Str.of_nat i ++ ".mp4") = false.
Proof.
  rewrite !contains_append, of_nat_digits by reflexivity. reflexivity.
Qed.

Lemma clip_path_prefix (output_dir : string) (i : nat) :
  clip_path output_dir i
  = (Fs.dir_prefix output_dir ++ ("clip_" ++ Str.of_nat i ++ ".mp4"))%string.
Proof. unfold clip_path. apply join_prefix. reflexivity. Qed.

Lemma clip_path_inj (output_dir : string) (i k : nat) :
  clip_path output_dir i = clip_path output_dir k -> i = k.
Proof.
  rewrite !clip_path_prefix. intros H.
  apply append_inj_l in H. apply (append_inj_l "clip_") in H.
  apply append_inj_r in H. apply of_nat_inj. exact H.
Qed.

Lemma filter_all {A} (f : A -> bool) (l : list A) :
  (forall x, In x l -> f x = true) -> filter f l = l.
Proof.
  induction l as [ | x l IH]; intros H; cbn [filter]; [reflexivity | ].
  rewrite (H x (or_introl eq_refl)), IH; [reflexivity | ].
  intros y Hy. apply H. right. exact Hy.
Qed.

(** ** Files *)

Lemma entries_lookup (d f : string) (l : list (string * node)) :
  In f (Fs.entries d l) <->
  f <> "" /\ Str.contains "/" f = false
  /\ Fs.lookup (Fs.dir_prefix d ++ f) l <> None.
Proof.
  induction l as [ | [q n] l IH]; cbn [Fs.entries Fs.lookup].
  - split; [intros [] | intros (_ & _ & H); congruence].
  - destruct (Str.strip_prefix (Fs.dir_prefix d) q) as [g | ] eqn:E.
    + apply strip_prefix_Some in E. subst q.
      destruct (String.eqb_spec (Fs.dir_prefix d ++ g) (Fs.dir_prefix d ++ f))
        as [Eq | Nq].
      * apply append_inj_l in Eq. subst g.
        destruct ((f =? "")%string || Str.contains "/" f) eqn:B.
        -- assert (Hno : ~ (f <> "" /\ Str.contains "/" f = false)).
           { intros [H1 H2]. apply orb_true_iff in B. destruct B as [B | B].
             - apply String.eqb_eq in B. contradiction.
             - congruence. }
           split; intros H; exfalso; apply Hno.
           ++ apply IH in H. split; apply H.
           ++ split; apply H.
        -- apply orb_false_iff in B. destruct B as [B1 B2].
           apply String.eqb_neq in B1.
           split; [intros _ | intros _; left; reflexivity].
           split; [exact B1 | split; [exact B2 | discriminate]].
      * assert (Hg : g <> f) by (intros ->; apply Nq; reflexivity).
        destruct ((g =? "")%string || Str.contains "/" g).
        -- exact IH.
        -- cbn [In]. rewrite IH. split.
           ++ intros [H | H]; [contradiction | exact H].
           ++ intros H. right. exact H.
    + destruct (String.eqb_spec q (Fs.dir_prefix d ++ f)) as [Eq | Nq].
      * exfalso. apply strip_prefix_Some in Eq. congruence.
      * exact IH.
Qed.

Lemma put_same (p : string) (n : node) (l : list (string * node)) :
  Fs.lookup p l = Some n -> Fs.put p n l = l.
Proof.
  induction l as [ | [q m] l IH]; cbn [Fs.lookup Fs.put]; [discriminate | ].
  destruct (String.eqb_spec q p) as [-> | N].
  - intros H. injection H as ->. reflexivity.
  - intros H. rewrite (IH H). reflexivity.
Qed.

Lemma put_absent (p : string) (n : node) (l : list (string * node)) :
  Fs.lookup p l = None -> Fs.put p n l = l ++ [(p, n)].
Proof.
  induction l as [ | [q m] l IH]; cbn [Fs.lookup Fs.put app]; [reflexivity | ].
  destruct (q =? p)%string; [discriminate | ].
  intros H. rewrite (IH H). reflexivity.
Qed.

Lemma lookup_app_None (p : string) (l1 l2 : list (string * node)) :
  Fs.lookup p l1 = None -> Fs.lookup p (l1 ++ l2) = Fs.lookup p l2.
Proof.
  induction l1 as [ | [q m] l1 IH]; cbn [Fs.lookup app]; [reflexivity | ].
  destruct (q =? p)%string; [discriminate | exact IH].
Qed.

Lemma entries_app (d : string) (l1 l2 : list (string * node)) :
  Fs.entries d (l1 ++ l2) = Fs.entries d l1 ++ Fs.entries d l2.
Proof.
  induction l1 as [ | [q m] l1 IH]; cbn [Fs.entries app]; [reflexivity | ].
  destruct (Str.strip_prefix (Fs.dir_prefix d) q) as [f | ]; [ | exact IH].
  destruct ((f =? "")%string || Str.contains "/" f); [exact IH | ].
  rewrite IH. reflexivity.
Qed.

Lemma entries_nil_lookup (d f : string) (l : list (string * node)) :
  Fs.entries d l = [] -> f <> "" -> Str.contains "/" f = false ->
  Fs.lookup (Fs.dir_prefix d ++ f) l = None.
Proof.
  intros He H1 H2.
  destruct (Fs.lookup (Fs.dir_prefix d ++ f) l) eqn:E; [ | reflexivity].
  assert (Hin : In f (Fs.entries d l)).
  { apply entries_lookup. split; [exact H1 | split; [exact H2 | ]].
    rewrite E. discriminate. }
  rewrite He in Hin. destruct Hin.
Qed.

Lemma lookup_with_dir (d : string) (l : list (string * node)) :
  (forall p, Fs.lookup d l <> Some (File p)) ->
  Fs.lookup d (with_dir d l) = Some Dir.
Proof.
  intros Hd. unfold with_dir.
  destruct (Fs.lookup d l) as [[p | ] | ] eqn:E.
  - exfalso; exact (Hd p eq_refl).
  - exact E.
  - apply lookup_put_same.
Qed.

Lemma lookup_with_dir_other (d q : string) (l : list (string * node)) :
  Fs.lookup q l <> None ->
  Fs.lookup q (with_dir d l) = Fs.lookup q l.
Proof.
  intros H. unfold with_dir. destruct (Fs.lookup d l) eqn:E; [reflexivity | ].
  apply lookup_put_other. apply String.eqb_neq. intros ->. contradiction.
Qed.

Lemma entries_with_dir (d : string) (l : list (string * node)) :
  Fs.entries d l = [] -> Fs.entries d (with_dir d l) = [].
Proof.
  intros He. unfold with_dir.
  destruct (Fs.lookup d l) eqn:E; [exact He | ].
  rewrite put_absent by exact E. rewrite entries_app, He. cbn [app Fs.entries].
  destruct (Str.strip_prefix (Fs.dir_prefix d) d) as [f | ] eqn:S; [ | reflexivity].
  apply strip_prefix_Some in S.
  assert (Hf : f = "").
  { unfold Fs.dir_prefix, OsPath.join in S. cbn [Str.startswith] in S.
    apply (f_equal String.length) in S.
    destruct ((d =? "")%string || Str.endswith "/" d);
      rewrite !length_append in S; destruct f; try reflexivity;
      cbn [String.length] in S; lia. }
  subst f. reflexivity.
Qed.

(** What [write_clips] leaves at a path it does not write to. *)
Lemma lookup_written_beyond (output_dir q : string) (clips : list clip) (i : nat)
    (l : list (string * node)) :
  (forall k, (i <= k < i + List.length clips)%nat -> clip_path output_dir k <> q) ->
  Fs.lookup q (written output_dir i clips l) = Fs.lookup q l.
Proof.
  revert i l. induction clips as [ | c rest IH]; intros i l H; cbn [written].
  - reflexivity.
  - rewrite IH.
    + apply lookup_put_other. apply String.eqb_neq. apply H. simpl. lia.
    + intros k Hk. apply H. simpl. lia.
Qed.

(** What [write_clips] leaves at the path of the clip of index [i + k]. *)
Lemma lookup_written_clip (output_dir : string) (clips : list clip) (i k : nat)
    (c : clip) (l : list (string * node)) :
  nth_error clips k = Some c ->
  Fs.lookup (clip_path output_dir (i + k)) (written output_dir i clips l)
  = Some (File (Some (duration c))).
Proof.
  revert i k l. induction clips as [ | c0 rest IH]; intros i k l H.
  - destruct k; discriminate.
  - cbn [written]. destruct k as [ | k]; simpl in H.
    + injection H as ->. rewrite Nat.add_0_r.
      rewrite lookup_written_beyond; [apply lookup_put_same | ].
      intros j Hj E. apply clip_path_inj in E. lia.
    + replace (i + S k)%nat with (S i + k)%nat by lia. apply IH. exact H.
Qed.

(** At any path, [write_clips] leaves a file or what was there. *)
Lemma lookup_written_cases (output_dir q : string) (clips : list clip) (i : nat)
    (l : list (string * node)) :
  (exists p, Fs.lookup q (written output_dir i clips l) = Some (File p))
  \/ Fs.lookup q (written output_dir i clips l) = Fs.lookup q l.
Proof.
  revert i l. induction clips as [ | c rest IH]; intros i l; cbn [written].
  - right. reflexivity.
  - destruct (IH (S i) (Fs.put (clip_path output_dir i) (File (Some (duration c))) l))
      as [H | H]; [left; exact H | ].
    rewrite H. destruct (String.eqb_spec (clip_path output_dir i) q) as [-> | N].
    + left. eexists. apply lookup_put_same.
    + right. apply lookup_put_other. apply String.eqb_neq. exact N.
Qed.

(** Writing the same clips again changes no file. *)
Lemma written_again (output_dir : string) (clips : list clip) (i : nat)
    (l : list (string * node)) :
  (forall k c, nth_error clips k = Some c ->
     Fs.lookup (clip_path output_dir (i + k)) l = Some (File (Some (duration c)))) ->
  written output_dir i clips l = l.
Proof.
  revert i. induction clips as [ | c rest IH]; intros i H; cbn [written].
  - reflexivity.
  - rewrite put_same.
    + apply IH. intros k c' Hk.
      replace (S i + k)%nat with (i + S k)%nat by lia. apply H. exact Hk.
    + specialize (H 0%nat c eq_refl). rewrite Nat.add_0_r in H. exact H.
Qed.

Lemma entries_new_files (output_dir : string) (i : nat) (clips : list clip) :
  map (OsPath.join output_dir) (Fs.entries output_dir (new_files output_dir i clips))
  = map (clip_path output_dir) (seq i (List.length clips)).
Proof.
  revert i. induction clips as [ | c rest IH]; intros i; [reflexivity | ].
  cbn [new_files Fs.entries List.length seq map].
  rewrite clip_path_prefix at 1. rewrite strip_prefix_append.
  replace (("clip_" ++ Str.of_nat i ++ ".mp4" =? "")%string
           || Str.contains "/" ("clip_" ++ Str.of_nat i ++ ".mp4"))
    with false by (rewrite clip_name_plain; reflexivity).
  cbn [map]. rewrite IH. reflexivity.
Qed.

(** On files that hold none of the clips, [write_clips] appends them in
    index order. *)
Lemma written_fresh (output_dir : string) (clips : list clip) (i : nat)
    (l : list (string * node)) :
  (forall k, (i <= k)%nat -> Fs.lookup (clip_path output_dir k) l = None) ->
  written output_dir i clips l = l ++ new_files output_dir i clips.
Proof.
  revert i l. induction clips as [ | c rest IH]; intros i l Hn.
  - cbn [written new_files]. rewrite app_nil_r. reflexivity.
  - cbn [written new_files].
    rewrite put_absent by (apply Hn; lia).
    rewrite IH.
    + rewrite <- app_assoc. reflexivity.
    + intros k Hk. rewrite lookup_app_None by (apply Hn; lia).
      cbn [Fs.lookup].
      destruct (String.eqb_spec (clip_path output_dir i) (clip_path output_dir k))
        as [E | _]; [ | reflexivity].
      apply clip_path_inj in E. lia.
Qed.

(** ** The calls of the handlers *)

Lemma parse_all_length (py_float : string -> option float) (tokens : list string)
    (parsed : list float) :
  parse_all py_float tokens = Some parsed ->
  List.length parsed = List.length tokens.
Proof.
  revert parsed. induction tokens as [ | m rest IH]; intros parsed; simpl.
  - intros H. injection H as <-. reflexivity.
  - destruct (py_float m); [ | discriminate].
    destruct (parse_all py_float rest) as [xs | ]; [ | discriminate].
    intros H. injection H as <-. simpl. rewrite (IH xs eq_refl). reflexivity.
Qed.

Lemma VideoFileClip_unplayable (path : string) (w : world) :
  (forall D, Fs.lookup path (fs w) <> Some (File (Some D))) ->
  VideoFileClip path w = (w, Raises (OSError "VideoFileClip")).
Proof.
  intros H. unfold VideoFileClip.
  destruct (Fs.lookup path (fs w)) as [[[D | ] | ] | ]; try reflexivity.
  exfalso. exact (H D eq_refl).
Qed.

Lemma open_all_unplayable (good : list string) (ds : list float) (bad : string)
    (rest : list string) (w : world) :
  Forall2 (fun p d => Fs.lookup p (fs w) = Some (File (Some d))) good ds ->
  (forall D, Fs.lookup bad (fs w) <> Some (File (Some D))) ->
  open_all (good ++ bad :: rest) w =
    ({| fs := fs w; trace := trace w ++ map EvOpen good |},
     Raises (OSError "VideoFileClip")).
Proof.
  intros H Hbad. revert w H Hbad.
  induction good as [ | p good IH] in ds |- *; intros w H Hbad; inversion H; subst.
  - cbn [app open_all map]. unfold bind.
    rewrite (VideoFileClip_unplayable bad w Hbad).
    rewrite app_nil_r. destruct w; reflexivity.
  - cbn [app open_all map]. unfold bind at 1. unfold VideoFileClip. rewrite H2.
    unfold bind at 1, log, ret. cbn [fs trace].
    unfold bind at 1.
    rewrite (IH l' {| fs := fs w; trace := trace w ++ [EvOpen p] |}) by assumption.
    cbn [fs trace]. rewrite <- app_assoc. reflexivity.
Qed.

Lemma makedirs_run (d : string) (w : world) :
  (forall p, Fs.lookup d (fs w) <> Some (File p)) ->
  makedirs d w =
    ({| fs := with_dir d (fs w); trace := trace w ++ [EvMakedirs d] |}, Returns tt).
Proof.
  intros Hd. unfold makedirs, with_dir.
  destruct (Fs.lookup d (fs w)) as [[p | ] | ] eqn:E;
    [exfalso; exact (Hd p eq_refl) | reflexivity | reflexivity].
Qed.

Lemma get_video_files_from_dir_Returns (directory : string) (w : world)
    (old : list string) :
  snd (get_video_files_from_dir directory w) = Returns old ->
  old = video_files directory w.
Proof.
  unfold get_video_files_from_dir, bind, listdir.
  destruct (Fs.lookup directory (fs w)) as [[p | ] | ]; cbn [snd];
    try discriminate.
  intros H. injection H as <-. reflexivity.
Qed.

Lemma video_files_fs (directory : string) (w w' : world) :
  fs w = fs w' -> video_files directory w = video_files directory w'.
Proof. intros H. unfold video_files, isfile. rewrite H. reflexivity. Qed.

Lemma video_files_In (directory x : string) (w : world) :
  In x (video_files directory w) <->
  exists f, x = OsPath.join directory f
    /\ f <> "" /\ Str.contains "/" f = false
    /\ (exists p, Fs.lookup (OsPath.join directory f) (fs w) = Some (File p))
    /\ is_video_name f = true.
Proof.
  unfold video_files. rewrite in_map_iff. split.
  - intros (f & <- & H). apply filter_In in H. destruct H as [Hin Hc].
    apply andb_true_iff in Hc. destruct Hc as [Hf Hv].
    apply entries_lookup in Hin. destruct Hin as (H1 & H2 & _).
    exists f. repeat (split; [reflexivity || assumption | ]).
    split; [ | exact Hv].
    unfold isfile in Hf.
    destruct (Fs.lookup (OsPath.join directory f) (fs w)) as [[p | ] | ];
      try discriminate. eexists. reflexivity.
  - intros (f & -> & H1 & H2 & [p Hp] & Hv). exists f. split; [reflexivity | ].
    apply filter_In. split.
    + apply entries_lookup. split; [exact H1 | split; [exact H2 | ]].
      rewrite <- join_prefix by (apply startswith_contains; exact H2).
      rewrite Hp. discriminate.
    + unfold isfile. rewrite Hp, Hv. reflexivity.
Qed.

(** The common tail of the two splitters: the world it leaves and the
    listing it returns. *)
Lemma output_run_listing (output_dir : string) (clips : list clip) (w : world) :
  (forall k, (clip_path output_dir k =? output_dir)%string = false) ->
  (forall p, Fs.lookup output_dir (fs w) <> Some (File p)) ->
  (makedirs output_dir ;;;
   write_clips output_dir 0 clips ;;;
   get_video_files_from_dir output_dir) w
  = (after_output output_dir clips w,
     Returns (video_files output_dir (after_output output_dir clips w))).
Proof.
  intros Hk Hd.
  unfold bind at 1. rewrite (makedirs_run output_dir w Hd).
  unfold bind at 1. rewrite write_clips_run. cbn [fs trace].
  unfold get_video_files_from_dir, bind, listdir. cbn [fs trace].
  rewrite lookup_written_other by exact Hk.
  rewrite (lookup_with_dir output_dir (fs w) Hd).
  unfold after_output. rewrite <- app_assoc. reflexivity.
Qed.

Lemma after_output_trace (output_dir path : string) (clips : list clip) (w : world) :
  trace (after_output output_dir clips
           {| fs := fs w; trace := trace w ++ [EvOpen path] |})
  = trace w ++ EvOpen path :: EvMakedirs output_dir
      :: write_events output_dir 0 clips.
Proof. cbn [after_output trace]. rewrite <- app_assoc. reflexivity. Qed.

(** The returned listing holds every clip just written. *)
Lemma after_output_new (output_dir : string) (clips : list clip) (w : world)
    (i : nat) :
  (i < List.length clips)%nat ->
  In (clip_path output_dir i)
     (video_files output_dir (after_output output_dir clips w)).
Proof.
  intros Hi. apply video_files_In.
  exists ("clip_" ++ Str.of_nat i ++ ".mp4")%string.
  split; [reflexivity | ]. split; [discriminate | ].
  split; [apply clip_name_plain | ]. split; [ | apply clip_name_video].
  destruct (nth_error clips i) as [c | ] eqn:E.
  - exists (Some (duration c)).
    apply (lookup_written_clip output_dir clips 0 i c _ E).
  - apply nth_error_None in E. lia.
Qed.

(** The returned listing holds every video file the directory held. *)
Lemma after_output_old (output_dir : string) (clips : list clip) (w : world)
    (x : string) :
  In x (video_files output_dir w) ->
  In x (video_files output_dir (after_output output_dir clips w)).
Proof.
  rewrite !video_files_In.
  intros (f & -> & H1 & H2 & [p Hp] & Hv). exists f.
  repeat (split; [reflexivity || assumption | ]). split; [ | exact Hv].
  cbn [after_output fs].
  destruct (lookup_written_cases output_dir (OsPath.join output_dir f) clips 0
              (with_dir output_dir (fs w))) as [H | H]; [exact H | ].
  rewrite H, lookup_with_dir_other by (rewrite Hp; discriminate).
  exists p. exact Hp.
Qed.

(** The listing after the common tail on an output directory that
    holds nothing yet. *)
Lemma after_output_fresh (output_dir : string) (clips : list clip) (w : world) :
  Fs.entries output_dir (fs w) = [] ->
  video_files output_dir (after_output output_dir clips w)
  = map (clip_path output_dir) (seq 0 (List.length clips)).
Proof.
  intros He. unfold video_files.
  rewrite filter_all.
  - cbn [after_output fs].
    rewrite written_fresh.
    + rewrite entries_app, (entries_with_dir _ _ He). cbn [app].
      apply entries_new_files.
    + intros k _. rewrite clip_path_prefix.
      apply entries_nil_lookup;
        [apply entries_with_dir; exact He | discriminate | apply clip_name_plain].
  - intros f Hf.
    assert (Hin : In (OsPath.join output_dir f)
                     (map (clip_path output_dir) (seq 0 (List.length clips)))).
    { rewrite <- (entries_new_files output_dir 0 clips).
      apply in_map.
      cbn [after_output fs] in Hf. rewrite written_fresh in Hf.
      - rewrite entries_app, (entries_with_dir _ _ He) in Hf. exact Hf.
      - intros k _. rewrite clip_path_prefix.
        apply entries_nil_lookup;
          [apply entries_with_dir; exact He | discriminate | apply clip_name_plain]. }
    apply in_map_iff in Hin. destruct Hin as (k & Hk & Hseq).
    apply in_seq in Hseq.
    apply entries_lookup in Hf. destruct Hf as (H1 & H2 & _).
    assert (Ef : f = ("clip_" ++ Str.of_nat k ++ ".mp4")%string).
    { rewrite clip_path_prefix, join_prefix in Hk
        by (apply startswith_contains; exact H2).
      apply append_inj_l in Hk. symmetry. exact Hk. }
    rewrite <- Hk. unfold isfile.
    destruct (nth_error clips k) as [c | ] eqn:E.
    + cbn [after_output fs].
      rewrite (lookup_written_clip output_dir clips 0 k c _ E).
      rewrite Ef. apply clip_name_video.
    + apply nth_error_None in E. lia.
Qed.

Lemma split_video_at_marks_files (py_float : string -> option float)
    (path marks : string) (parsed : list float) (D : float) (w : world) :
  path <> "" -> marks <> "" ->
  parse_all py_float (Str.split "," marks) = Some parsed ->
  Fs.lookup path (fs w) = Some (File (Some D)) ->
  (forall p, Fs.lookup "split_clips_at_marks" (fs w) <> Some (File p)) ->
  let w' := after_output "split_clips_at_marks"
              (marks_clips (mk_video path D) (sorted parsed))
              {| fs := fs w; trace := trace w ++ [EvOpen path] |} in
  split_video_at_marks py_float (Some path) marks w
  = (w', Returns (video_files "split_clips_at_marks" w')).
Proof.
  intros Hp Hm Hparse Hv Hd w'.
  unfold split_video_at_marks.
  apply String.eqb_neq in Hp, Hm. rewrite Hp, Hm, Hparse.
  unfold bind at 1. unfold VideoFileClip. rewrite Hv.
  unfold bind at 1, log, ret. cbn [fs trace].
  apply (output_run_listing "split_clips_at_marks"
           (marks_clips (mk_video path D) (sorted parsed))
           {| fs := fs w; trace := trace w ++ [EvOpen path] |}
           clip_path_marks Hd).
Qed.

(** What a call of [merge_videos] on playable files does. *)
Lemma merge_videos_run (paths : list string) (ds : list float) (w : world) :
  paths <> [] ->
  Forall2 (fun p d => Fs.lookup p (fs w) = Some (File (Some d))) paths ds ->
  merge_videos (Some paths) w =
    ({| fs := Fs.put "merged_video.mp4"
                (File (Some (fold_left PrimFloat.add ds 0%float))) (fs w);
        trace := trace w ++ map EvOpen paths
                   ++ [EvWrite "merged_video.mp4"
                         {| frames := map (fun pd => mk_span (fst pd) 0%float (snd pd))
                                          (combine paths ds);
                            duration := fold_left PrimFloat.add ds 0%float |}] |},
     Returns "merged_video.mp4").
Proof.
  intros Hne H.
  assert (Hlen : List.length paths = List.length ds)
    by (eapply Forall2_length; eassumption).
  rewrite (merge_videos_nonempty paths Hne). unfold bind.
  rewrite (open_all_playable paths ds w H).
  unfold write_videofile, log, ret, concatenate_videoclips.
  cbn [fs trace duration].
  rewrite whole_frames, (whole_durations _ _ Hlen).
  rewrite <- app_assoc. reflexivity.
Qed.

(** Making the directory adds no entry to it. *)
Lemma entries_with_dir_same (d : string) (l : list (string * node)) :
  Fs.entries d (with_dir d l) = Fs.entries d l.
Proof.
  unfold with_dir.
  destruct (Fs.lookup d l) eqn:E; [reflexivity | ].
  rewrite put_absent by exact E. rewrite entries_app. cbn [Fs.entries].
  destruct (Str.strip_prefix (Fs.dir_prefix d) d) as [f | ] eqn:S;
    [ | apply app_nil_r].
  apply strip_prefix_Some in S.
  assert (Hf : f = "").
  { unfold Fs.dir_prefix, OsPath.join in S. cbn [Str.startswith] in S.
    apply (f_equal String.length) in S.
    destruct ((d =? "")%string || Str.endswith "/" d);
      rewrite !length_append in S; destruct f; try reflexivity;
      cbn [String.length] in S; lia. }
  subst f. apply app_nil_r.
Qed.

(** Making the directory leaves its listing as it was. *)
Lemma video_files_with_dir (d : string) (w : world) (t : list event) :
  video_files d {| fs := with_dir d (fs w); trace := t |} = video_files d w.
Proof.
  unfold video_files. cbn [fs]. rewrite entries_with_dir_same. f_equal.
  apply filter_ext_in. intros f Hf.
  apply entries_lookup in Hf. destruct Hf as (_ & H2 & H3).
  unfold isfile. cbn [fs].
  rewrite join_prefix by (apply startswith_contains; exact H2).
  rewrite lookup_with_dir_other by exact H3. reflexivity.
Qed.

(** ** The loop of the duration splitter: tiling *)

Lemma is_nan_nan (d : float) : is_nan d = true -> d = nan.
Proof.
  intros H. apply Prim2SF_inj. apply Prim2SF_nan_iff in H. rewrite H. reflexivity.
Qed.

(** Adding a number that is not a zero to [0.0] gives that number. *)
Lemma add_zero_l (d : float) :
  is_nan d = false -> units d <> 0 -> (0 + d)%float = d.
Proof.
  intros N U. apply Prim2SF_inj. rewrite add_spec. unfold SF64add.
  apply Prim2SF_not_nan in N. unfold units in U.
  change (Prim2SF 0) with (S754_zero false).
  destruct (Prim2SF d) as [s | s | | s m e]; try congruence; try reflexivity.
  exfalso. apply U. reflexivity.
Qed.

Lemma fle_units (x y : float) :
  is_nan x = false -> is_nan y = false -> units x <= units y -> fle x y.
Proof.
  intros Nx Ny H. unfold fle. rewrite leb_units by assumption.
  apply Z.leb_le. exact H.
Qed.

Lemma lengths_telescope (path : string) (ends : list float) (s : float) :
  fold_right Z.add 0 (map span_length (map (span_at path) (intervals s ends)))
  = units (last ends s) - units s.
Proof.
  revert s. induction ends as [ | e ends IH]; intros s.
  - simpl. lia.
  - cbn [intervals map fold_right]. rewrite IH, (last_cons e ends s).
    unfold span_length. cbn [span_at t_end t_start fst snd]. lia.
Qed.

(** Whenever the loop ends, what it has added tiles the rest of the
    video: the cuts are numbers between [0] and the length, and the
    last one is the length. *)
Lemma duration_loop_invariant (v : video) (d : float) :
  is_nan d = false -> 0 <= units d -> is_nan (total v) = false ->
  forall (fuel : nat) (s : float) (clips out : list clip),
    is_nan s = false -> 0 <= units s <= units (total v) ->
    duration_loop fuel v d s clips = Some out ->
    exists ends,
      out = clips ++ map (fun i => subclip v (fst i) (Some (snd i))) (intervals s ends)
      /\ Forall (fun e => is_nan e = false /\ 0 <= units e <= units (total v)) ends
      /\ units (last ends s) = units (total v).
Proof.
  intros Nd Hd NL. induction fuel as [ | fuel IH]; intros s clips out Ns Hs H.
  - discriminate.
  - rewrite duration_loop_S in H.
    rewrite (ltb_units s (total v) Ns NL) in H.
    destruct (Z.ltb_spec (units s) (units (total v))) as [Hlt | Hge].
    + destruct (add_nonnegative s d Ns Nd ltac:(lia) Hd) as [Na Ua].
      set (e := py_min (s + d)%float (total v)) in *.
      assert (He : is_nan e = false /\ 0 <= units e <= units (total v)).
      { unfold e, py_min. rewrite (ltb_units (total v) (s + d)%float NL Na).
        destruct (Z.ltb_spec (units (total v)) (units (s + d)%float));
          split; try assumption; lia. }
      destruct He as [Ne Ue].
      destruct (IH e (clips ++ [subclip v s (Some e)]) out Ne Ue H)
        as (ends & Hout & Hall & Hlast).
      exists (e :: ends). split; [ | split].
      * rewrite Hout, <- app_assoc. reflexivity.
      * constructor; [split; assumption | exact Hall].
      * rewrite (last_cons e ends s). exact Hlast.
    + injection H as <-. exists []. split; [ | split].
      * rewrite app_nil_r. reflexivity.
      * constructor.
      * simpl. lia.
Qed.

(** ** The mark splitter, further *)

(** X5: a marks string with a leading, a trailing or a doubled comma has
    an empty token, which [float] refuses: the call is rejected as
    badly formatted and nothing is done. *)
Theorem split_video_at_marks_stray_comma (py_float : string -> option float)
    (path marks : string) (w : world) :
  py_float "" = None ->
  path <> "" ->
  ((exists b, marks = ("," ++ b)%string)
   \/ (exists a, marks = (a ++ ",")%string)
   \/ (exists a b, marks = (a ++ ",," ++ b)%string)) ->
  split_video_at_marks py_float (Some path) marks w =
    (w, Raises (GrError "Invalid marks format. Please use comma-separated numbers (e.g., 10,25.5,60).")).
Proof.
  intros Hf Hp Hm.
  assert (Hin : In "" (Str.split "," marks)).
  { destruct Hm as [[b ->] | [[a ->] | (a & b & ->)]].
    - simpl. left. reflexivity.
    - change (a ++ ",")%string with (a ++ String "," "")%string. rewrite split_app.
      apply in_or_app. right. left. reflexivity.
    - change (a ++ ",," ++ b)%string with (a ++ String "," (String "," b))%string.
      rewrite split_app. apply in_or_app. right. simpl. left. reflexivity. }
  assert (Hne : (marks =? "")%string = false).
  { apply String.eqb_neq. intros E. rewrite E in Hin. simpl in Hin.
    destruct Hm as [[b Hb] | [[a Ha] | (a & b & Hb)]]; rewrite E in *.
    - discriminate.
    - destruct a; discriminate.
    - destruct a; discriminate. }
  assert (Hnone : parse_all py_float (Str.split "," marks) = None).
  { apply parse_all_None. exists "". split; assumption. }
  apply String.eqb_neq in Hp.
  unfold split_video_at_marks. rewrite Hp, Hne, Hnone. reflexivity.
Qed.

Lemma split_video_at_marks_stray_comma_witness :
  split_video_at_marks PyFloat.float (Some "v.mp4") "10,30,"
    (one_video "v.mp4" 90%float) =
    (one_video "v.mp4" 90%float,
     Raises (GrError "Invalid marks format. Please use comma-separated numbers (e.g., 10,25.5,60).")).
Proof.
  apply (split_video_at_marks_stray_comma PyFloat.float "v.mp4" "10,30,").
  - reflexivity.
  - discriminate.
  - right. left. exists "10,30". reflexivity.
Defined.

(** X6: whatever the marks parse to (NaN and infinities included), a
    call of [split_video_at_marks] that passes validation on a playable
    video returns (the library is taken to accept every clip it is
    asked for); it writes one clip for each token and at most one more,
    and there is one token more than there are commas, so at least one
    clip is written. *)
Theorem split_video_at_marks_returns (py_float : string -> option float)
    (path marks : string) (parsed : list float) (D : float) (w : world) :
  path <> "" -> marks <> "" ->
  parse_all py_float (Str.split "," marks) = Some parsed ->
  Fs.lookup path (fs w) = Some (File (Some D)) ->
  (forall p, Fs.lookup "split_clips_at_marks" (fs w) <> Some (File p)) ->
  exists (clips : list clip) (w' : world) (listing : list string),
    split_video_at_marks py_float (Some path) marks w = (w', Returns listing)
    /\ trace w' =
         trace w ++ EvOpen path :: EvMakedirs "split_clips_at_marks"
           :: write_events "split_clips_at_marks" 0 clips
    /\ List.length parsed = S (occurrences "," marks)
    /\ (List.length clips = List.length parsed
        \/ List.length clips = S (List.length parsed)).
Proof.
  intros Hp Hm Hparse Hv Hdir.
  destruct (split_video_at_marks_run py_float path marks parsed D w
              Hp Hm Hparse Hv Hdir) as (w' & listing & Hrun & Htr).
  exists (marks_clips (mk_video path D) (sorted parsed)), w', listing.
  split; [exact Hrun | ]. split; [exact Htr | ]. split.
  - rewrite (parse_all_length py_float _ _ Hparse). apply split_length.
  - rewrite marks_clips_length.
    rewrite <- (Permutation_length (sorted_perm parsed)).
    destruct (last (sorted parsed) 0 <? total (mk_video path D))%float;
      [right | left]; reflexivity.
Qed.

Lemma split_video_at_marks_returns_witness :
  exists (clips : list clip) (w' : world) (listing : list string),
    split_video_at_marks PyFloat.float (Some "v.mp4") "nan,-5"
      (one_video "v.mp4" 10%float) = (w', Returns listing)
    /\ trace w' =
         trace (one_video "v.mp4" 10%float)
           ++ EvOpen "v.mp4" :: EvMakedirs "split_clips_at_marks"
           :: write_events "split_clips_at_marks" 0 clips
    /\ List.length [nan; (-5)%float] = S (occurrences "," "nan,-5")
    /\ (List.length clips = List.length [nan; (-5)%float]
        \/ List.length clips = S (List.length [nan; (-5)%float])).
Proof.
  apply (split_video_at_marks_returns PyFloat.float "v.mp4" "nan,-5"
           [nan; (-5)%float] 10%float (one_video "v.mp4" 10%float)).
  - discriminate.
  - discriminate.
  - vm_compute. reflexivity.
  - reflexivity.
  - intros p. discriminate.
Defined.

(** X4: when the name of the output directory is taken by a regular
    file, [split_video_at_marks] fails at [os.makedirs], after the
    video has been opened: no clip is written, no file is changed. *)
Theorem split_video_at_marks_blocked (py_float : string -> option float)
    (path marks : string) (parsed : list float) (D : float) (p : option float)
    (w : world) :
  path <> "" -> marks <> "" ->
  parse_all py_float (Str.split "," marks) = Some parsed ->
  Fs.lookup path (fs w) = Some (File (Some D)) ->
  Fs.lookup "split_clips_at_marks" (fs w) = Some (File p) ->
  split_video_at_marks py_float (Some path) marks w =
    ({| fs := fs w; trace := trace w ++ [EvOpen path] |},
     Raises (OSError "makedirs")).
Proof.
  intros Hp Hm Hparse Hv Hd.
  apply String.eqb_neq in Hp, Hm.
  unfold split_video_at_marks. rewrite Hp, Hm, Hparse.
  unfold bind at 1. unfold VideoFileClip. rewrite Hv.
  unfold bind at 1, log, ret. cbn [fs trace].
  unfold bind at 1, makedirs. cbn [fs trace]. rewrite Hd. reflexivity.
Qed.

Lemma split_video_at_marks_blocked_witness :
  split_video_at_marks PyFloat.float (Some "v.mp4") "10"
    {| fs := [("v.mp4", File (Some 90%float));
              ("split_clips_at_marks", File None)]; trace := [] |}
  = ({| fs := [("v.mp4", File (Some 90%float));
               ("split_clips_at_marks", File None)];
        trace := [] ++ [EvOpen "v.mp4"] |},
     Raises (OSError "makedirs")).
Proof.
  apply (split_video_at_marks_blocked PyFloat.float "v.mp4" "10" [10%float]
           90%float None
           {| fs := [("v.mp4", File (Some 90%float));
                     ("split_clips_at_marks", File None)]; trace := [] |}).
  - discriminate.
  - discriminate.
  - vm_compute. reflexivity.
  - reflexivity.
  - reflexivity.
Defined.

(** X7: the listing that [split_video_at_marks] returns holds the path
    of every clip it has just written, and every video file that was in
    the output directory before the call: the directory is not cleared,
    so clips of an earlier run with more marks are returned again. *)
Theorem split_video_at_marks_listing (py_float : string -> option float)
    (path marks : string) (parsed : list float) (D : float) (w : world) :
  path <> "" -> marks <> "" ->
  parse_all py_float (Str.split "," marks) = Some parsed ->
  Fs.lookup path (fs w) = Some (File (Some D)) ->
  (forall p, Fs.lookup "split_clips_at_marks" (fs w) <> Some (File p)) ->
  exists (clips : list clip) (w' : world) (listing : list string),
    split_video_at_marks py_float (Some path) marks w = (w', Returns listing)
    /\ trace w' =
         trace w ++ EvOpen path :: EvMakedirs "split_clips_at_marks"
           :: write_events "split_clips_at_marks" 0 clips
    /\ (forall i, (i < List.length clips)%nat ->
          In (clip_path "split_clips_at_marks" i) listing)
    /\ (forall old,
          snd (get_video_files_from_dir "split_clips_at_marks" w) = Returns old ->
          incl old listing).
Proof.
  intros Hp Hm Hparse Hv Hd.
  pose proof (split_video_at_marks_files py_float path marks parsed D w
                Hp Hm Hparse Hv Hd) as Hrun. cbv zeta in Hrun.
  eexists. eexists. eexists. split; [exact Hrun | ].
  split; [apply after_output_trace | ]. split.
  - intros i Hi. apply after_output_new. exact Hi.
  - intros old Hold x Hx.
    apply get_video_files_from_dir_Returns in Hold. subst old.
    apply after_output_old.
    rewrite (video_files_fs _ _ w) by reflexivity. exact Hx.
Qed.

Lemma split_video_at_marks_listing_witness :
  let w := {| fs := [("v.mp4", File (Some 90%float));
                     ("split_clips_at_marks", Dir);
                     ("split_clips_at_marks/clip_5.mp4", File (Some 3%float))];
              trace := [] |} in
  exists (clips : list clip) (w' : world) (listing : list string),
    split_video_at_marks PyFloat.float (Some "v.mp4") "10" w = (w', Returns listing)
    /\ trace w' =
         trace w ++ EvOpen "v.mp4" :: EvMakedirs "split_clips_at_marks"
           :: write_events "split_clips_at_marks" 0 clips
    /\ (forall i, (i < List.length clips)%nat ->
          In (clip_path "split_clips_at_marks" i) listing)
    /\ (forall old,
          snd (get_video_files_from_dir "split_clips_at_marks" w) = Returns old ->
          incl old listing).
Proof.
  intros w.
  apply (split_video_at_marks_listing PyFloat.float "v.mp4" "10" [10%float]
           90%float w).
  - discriminate.
  - discriminate.
  - vm_compute. reflexivity.
  - reflexivity.
  - intros p. discriminate.
Defined.

(** X8: when the output directory holds nothing yet (it is missing or
    empty), the listing [split_video_at_marks] returns holds exactly
    the clips it has written, [clip_0.mp4], [clip_1.mp4], ..., each of
    them once and nothing else. *)
Theorem split_video_at_marks_fresh (py_float : string -> option float)
    (path marks : string) (parsed : list float) (D : float) (w : world) :
  path <> "" -> marks <> "" ->
  parse_all py_float (Str.split "," marks) = Some parsed ->
  Fs.lookup path (fs w) = Some (File (Some D)) ->
  (forall p, Fs.lookup "split_clips_at_marks" (fs w) <> Some (File p)) ->
  Fs.entries "split_clips_at_marks" (fs w) = [] ->
  exists (clips : list clip) (w' : world) (listing : list string),
    split_video_at_marks py_float (Some path) marks w = (w', Returns listing)
    /\ trace w' =
         trace w ++ EvOpen path :: EvMakedirs "split_clips_at_marks"
           :: write_events "split_clips_at_marks" 0 clips
    /\ Permutation listing
         (map (clip_path "split_clips_at_marks") (seq 0 (List.length clips))).
Proof.
  intros Hp Hm Hparse Hv Hd He.
  pose proof (split_video_at_marks_files py_float path marks parsed D w
                Hp Hm Hparse Hv Hd) as Hrun. cbv zeta in Hrun.
  rewrite after_output_fresh in Hrun by exact He.
  eexists. eexists. eexists. split; [exact Hrun | ].
  split; [apply after_output_trace | apply Permutation_refl].
Qed.

Lemma split_video_at_marks_fresh_witness :
  exists (clips : list clip) (w' : world) (listing : list string),
    split_video_at_marks PyFloat.float (Some "v.mp4") "10,30,60"
      (one_video "v.mp4" 90%float) = (w', Returns listing)
    /\ trace w' =
         trace (one_video "v.mp4" 90%float)
           ++ EvOpen "v.mp4" :: EvMakedirs "split_clips_at_marks"
           :: write_events "split_clips_at_marks" 0 clips
    /\ Permutation listing
         (map (clip_path "split_clips_at_marks") (seq 0 (List.length clips))).
Proof.
  apply (split_video_at_marks_fresh PyFloat.float "v.mp4" "10,30,60"
           [10; 30; 60]%float 90%float (one_video "v.mp4" 90%float)).
  - discriminate.
  - discriminate.
  - vm_compute. reflexivity.
  - reflexivity.
  - intros p. discriminate.
  - reflexivity.
Defined.

(** X9: running [split_video_at_marks] a second time on the same video
    with the same marks overwrites the clips index by index: the files
    are left exactly as the first run left them, and the same listing
    is returned (the video is assumed not to be one of the clips). *)
Theorem split_video_at_marks_again (py_float : string -> option float)
    (path marks : string) (parsed : list float) (D : float) (w : world) :
  path <> "" -> marks <> "" ->
  parse_all py_float (Str.split "," marks) = Some parsed ->
  Fs.lookup path (fs w) = Some (File (Some D)) ->
  (forall p, Fs.lookup "split_clips_at_marks" (fs w) <> Some (File p)) ->
  (forall k, clip_path "split_clips_at_marks" k <> path) ->
  exists (w1 w2 : world) (listing : list string),
    split_video_at_marks py_float (Some path) marks w = (w1, Returns listing)
    /\ split_video_at_marks py_float (Some path) marks w1 = (w2, Returns listing)
    /\ fs w2 = fs w1.
Proof.
  intros Hp Hm Hparse Hv Hd Hk.
  pose proof (split_video_at_marks_files py_float path marks parsed D w
                Hp Hm Hparse Hv Hd) as Hrun. cbv zeta in Hrun.
  set (clips := marks_clips (mk_video path D) (sorted parsed)) in *.
  set (w1 := after_output "split_clips_at_marks" clips
               {| fs := fs w; trace := trace w ++ [EvOpen path] |}) in *.
  assert (Hdir1 : Fs.lookup "split_clips_at_marks" (fs w1) = Some Dir).
  { cbn [w1 after_output fs].
    rewrite lookup_written_other by exact clip_path_marks.
    apply lookup_with_dir. exact Hd. }
  assert (Hv1 : Fs.lookup path (fs w1) = Some (File (Some D))).
  { cbn [w1 after_output fs].
    rewrite lookup_written_beyond by (intros k _; apply Hk).
    rewrite lookup_with_dir_other by (rewrite Hv; discriminate). exact Hv. }
  assert (Hd1 : forall p, Fs.lookup "split_clips_at_marks" (fs w1) <> Some (File p))
    by (intros p; rewrite Hdir1; discriminate).
  pose proof (split_video_at_marks_files py_float path marks parsed D w1
                Hp Hm Hparse Hv1 Hd1) as Hrun2. cbv zeta in Hrun2.
  fold clips in Hrun2.
  set (w2 := after_output "split_clips_at_marks" clips
               {| fs := fs w1; trace := trace w1 ++ [EvOpen path] |}) in *.
  assert (Hfs : fs w2 = fs w1).
  { cbn [w2 after_output fs]. unfold with_dir. rewrite Hdir1.
    apply written_again. intros k c Hc. cbn [w1 after_output fs].
    apply (lookup_written_clip "split_clips_at_marks" clips 0 k c _ Hc). }
  exists w1, w2, (video_files "split_clips_at_marks" w1).
  split; [exact Hrun | ]. split; [ | exact Hfs].
  rewrite Hrun2. rewrite (video_files_fs _ w2 w1 Hfs). reflexivity.
Qed.

Lemma split_video_at_marks_again_witness :
  exists (w1 w2 : world) (listing : list string),
    split_video_at_marks PyFloat.float (Some "v.mp4") "10,30,60"
      (one_video "v.mp4" 90%float) = (w1, Returns listing)
    /\ split_video_at_marks PyFloat.float (Some "v.mp4") "10,30,60" w1
       = (w2, Returns listing)
    /\ fs w2 = fs w1.
Proof.
  apply (split_video_at_marks_again PyFloat.float "v.mp4" "10,30,60"
           [10; 30; 60]%float 90%float (one_video "v.mp4" 90%float)).
  - discriminate.
  - discriminate.
  - vm_compute. reflexivity.
  - reflexivity.
  - intros p. discriminate.
  - intros k. discriminate.
Defined.

(** X10: [split_video_at_marks] changes nothing outside its output
    directory: every path other than the directory and the clips
    [clip_i.mp4] in it (the input video, the other splitter's
    directory, a previous merge) is after the call what it was
    before. *)
Theorem split_video_at_marks_frame (py_float : string -> option float)
    (path marks : string) (parsed : list float) (D : float) (w : world)
    (q : string) :
  path <> "" -> marks <> "" ->
  parse_all py_float (Str.split "," marks) = Some parsed ->
  Fs.lookup path (fs w) = Some (File (Some D)) ->
  (forall p, Fs.lookup "split_clips_at_marks" (fs w) <> Some (File p)) ->
  q <> "split_clips_at_marks" ->
  (forall k, clip_path "split_clips_at_marks" k <> q) ->
  Fs.lookup q (fs (fst (split_video_at_marks py_float (Some path) marks w)))
  = Fs.lookup q (fs w).
Proof.
  intros Hp Hm Hparse Hv Hd Hq Hk.
  pose proof (split_video_at_marks_files py_float path marks parsed D w
                Hp Hm Hparse Hv Hd) as Hrun. cbv zeta in Hrun.
  rewrite Hrun. cbn [fst after_output fs].
  rewrite lookup_written_beyond by (intros k _; apply Hk).
  unfold with_dir.
  destruct (Fs.lookup "split_clips_at_marks" (fs w)); [reflexivity | ].
  apply lookup_put_other. apply String.eqb_neq. congruence.
Qed.

Lemma split_video_at_marks_frame_witness :
  Fs.lookup "v.mp4"
    (fs (fst (split_video_at_marks PyFloat.float (Some "v.mp4") "10,30,60"
                (one_video "v.mp4" 90%float))))
  = Fs.lookup "v.mp4" (fs (one_video "v.mp4" 90%float)).
Proof.
  apply (split_video_at_marks_frame PyFloat.float "v.mp4" "10,30,60"
           [10; 30; 60]%float 90%float (one_video "v.mp4" 90%float) "v.mp4").
  - discriminate.
  - discriminate.
  - vm_compute. reflexivity.
  - reflexivity.
  - intros p. discriminate.
  - discriminate.
  - intros k. discriminate.
Defined.

(** ** The duration splitter, further *)

(** X1: [split_video_by_duration] raises [gr.Error] exactly when the path
    is missing or empty, the duration string is empty, or [float]
    refuses it; the world is then left as it was. *)
Theorem split_video_by_duration_input_error (py_float : string -> option float)
    (fuel : nat) (video_path : option string) (duration : string) (w : world) :
  ((exists msg,
      snd (split_video_by_duration py_float fuel video_path duration w)
        = Raises (GrError msg))
   <-> (falsy video_path = true \/ duration = "" \/ py_float duration = None))
  /\ (forall msg,
        snd (split_video_by_duration py_float fuel video_path duration w)
          = Raises (GrError msg) ->
        fst (split_video_by_duration py_float fuel video_path duration w) = w).
Proof.
  unfold split_video_by_duration, falsy.
  destruct video_path as [path | ].
  2:{ split; [ | reflexivity].
      split; [intros _; left; reflexivity | intros _; eexists; reflexivity]. }
  destruct (path =? "")%string eqn:Ep.
  { split; [ | reflexivity].
    split; [intros _; left; reflexivity | intros _; eexists; reflexivity]. }
  destruct (duration =? "")%string eqn:Em.
  { split; [ | reflexivity].
    split; [intros _; right; left; apply String.eqb_eq; exact Em
           | intros _; eexists; reflexivity]. }
  destruct (py_float duration) as [d | ] eqn:Et.
  - assert (K : forall msg,
               snd ((v <- VideoFileClip path ;;
                     match duration_loop fuel v d 0%float [] with
                     | None => fun w => (w, Running)
                     | Some clips =>
                         makedirs "split_clips_by_duration" ;;;
                         write_clips "split_clips_by_duration" 0 clips ;;;
                         get_video_files_from_dir "split_clips_by_duration"
                     end) w)
               <> Raises (GrError msg)).
    { intros msg. apply no_gr_error_bind; [apply no_gr_error_VideoFileClip | intros v].
      destruct (duration_loop fuel v d 0%float []) as [clips | ].
      - apply no_gr_error_bind; [apply no_gr_error_makedirs | intros _].
        apply no_gr_error_bind;
          [apply no_gr_error_write_clips
          | intros _; apply no_gr_error_get_video_files_from_dir].
      - intros w0 msg0. discriminate. }
    split.
    + split.
      * intros [msg H]. exfalso. exact (K msg H).
      * intros [H | [H | H]].
        -- discriminate.
        -- apply String.eqb_neq in Em. contradiction.
        -- discriminate.
    + intros msg H. exfalso. exact (K msg H).
  - split; [ | reflexivity].
    split; [intros _ | intros _; eexists; reflexivity].
    right; right. reflexivity.
Qed.

(** X11: for a step [d > 0], whatever the rounding of the running total,
    whenever the loop of [split_video_by_duration] ends its segments
    tile the video: they follow one another from [0], every cut lies
    between [0] and the length [L], the last segment ends at [L], and
    the exact lengths sum to [L]. *)
Theorem duration_loop_tiles (v : video) (d : float) (fuel : nat)
    (clips : list clip) :
  (0 <? d)%float = true -> (0 <? total v)%float = true ->
  duration_loop fuel v d 0%float [] = Some clips ->
  exists ends : list float,
    ends <> []
    /\ List.length clips = List.length ends
    /\ segments clips = map (span_at (filename v)) (intervals 0%float ends)
    /\ Forall (fun e => fle 0%float e /\ fle e (total v)) ends
    /\ (last ends 0 =? total v)%float = true
    /\ fold_right Z.add 0 (map span_length (segments clips)) = units (total v).
Proof.
  intros Hd HL H.
  destruct (positive_float d Hd) as [Nd Pd].
  destruct (positive_float (total v) HL) as [NL PL].
  assert (N0 : is_nan 0%float = false) by reflexivity.
  destruct (duration_loop_invariant v d Nd ltac:(lia) NL fuel 0%float [] clips N0
              ltac:(change (units 0%float) with 0; lia) H)
    as (ends & Hout & Hall & Hlast).
  cbn [app] in Hout.
  exists ends. split; [ | split; [ | split; [ | split; [ | split]]]].
  - intros E. subst ends. simpl in Hlast.
    change (units 0%float) with 0 in Hlast. lia.
  - rewrite Hout, length_map, intervals_length. reflexivity.
  - rewrite Hout. apply segments_subclips.
  - eapply Forall_impl; [ | exact Hall].
    intros e [Ne Ue]. cbn beta. split; apply fle_units; try assumption.
    + change (units 0%float) with 0. lia.
    + lia.
  - assert (Nl : is_nan (last ends 0%float) = false).
    { destruct ends as [ | e0 ends0]; [reflexivity | ].
      rewrite Forall_forall in Hall.
      apply (Hall (last (e0 :: ends0) 0%float)).
      apply last_In. discriminate. }
    rewrite eqb_units by assumption. apply Z.eqb_eq. exact Hlast.
  - rewrite Hout, segments_subclips, lengths_telescope, Hlast.
    change (units 0%float) with 0. lia.
Qed.

Lemma duration_loop_tiles_witness :
  exists ends : list float,
    ends <> []
    /\ List.length
         [subclip (mk_video "v.mp4" 100) 0 (Some 40%float);
          subclip (mk_video "v.mp4" 100) 40 (Some 80%float);
          subclip (mk_video "v.mp4" 100) 80 (Some 100%float)]
       = List.length ends
    /\ segments
         [subclip (mk_video "v.mp4" 100) 0 (Some 40%float);
          subclip (mk_video "v.mp4" 100) 40 (Some 80%float);
          subclip (mk_video "v.mp4" 100) 80 (Some 100%float)]
       = map (span_at "v.mp4") (intervals 0%float ends)
    /\ Forall (fun e => fle 0%float e /\ fle e 100%float) ends
    /\ (last ends 0 =? 100)%float = true
    /\ fold_right Z.add 0
         (map span_length
            (segments
               [subclip (mk_video "v.mp4" 100) 0 (Some 40%float);
                subclip (mk_video "v.mp4" 100) 40 (Some 80%float);
                subclip (mk_video "v.mp4" 100) 80 (Some 100%float)]))
       = units 100%float.
Proof.
  apply (duration_loop_tiles (mk_video "v.mp4" 100%float) 40%float 4).
  - reflexivity.
  - reflexivity.
  - vm_compute. reflexivity.
Defined.



(** X12: a duration [d] that is at least the length [L > 0] of the video
    (infinity included) gives exactly one clip, the whole video: it
    starts at [0] and ends at a time equal to [L]. *)
Theorem split_video_by_duration_whole (py_float : string -> option float)
    (fuel : nat) (path duration : string) (d L : float) (w : world) :
  path <> "" -> duration <> "" ->
  py_float duration = Some d ->
  Fs.lookup path (fs w) = Some (File (Some L)) ->
  (0 <? L)%float = true -> (L <=? d)%float = true ->
  (forall p, Fs.lookup "split_clips_by_duration" (fs w) <> Some (File p)) ->
  exists (e : float) (w' : world) (listing : list string),
    split_video_by_duration py_float (S (S fuel)) (Some path) duration w
      = (w', Returns listing)
    /\ trace w' =
         trace w ++ [EvOpen path; EvMakedirs "split_clips_by_duration";
                     EvWrite "split_clips_by_duration/clip_0.mp4"
                       (subclip (mk_video path L) 0 (Some e))]
    /\ (e =? L)%float = true.
Proof.
  intros Hp Hdur Hparse Hv HL Hd Hdir.
  destruct (positive_float L HL) as [NL PL].
  assert (Nd : is_nan d = false).
  { destruct (is_nan d) eqn:N; [ | reflexivity].
    rewrite leb_spec in Hd. apply Prim2SF_nan_iff in N. rewrite N in Hd.
    unfold SFleb, SFcompare in Hd. destruct (Prim2SF L); discriminate. }
  rewrite leb_units in Hd by assumption. apply Z.leb_le in Hd.
  rewrite (split_video_by_duration_open py_float (S (S fuel)) path duration d L w
             Hp Hdur Hparse Hv).
  rewrite duration_loop_S. cbn [total]. rewrite HL.
  rewrite (add_zero_l d Nd) by lia.
  set (e := py_min d L).
  assert (He : is_nan e = false /\ units e = units L).
  { unfold e, py_min. rewrite (ltb_units L d NL Nd).
    destruct (Z.ltb_spec (units L) (units d)); split; try assumption; lia. }
  destruct He as [Ne Ue].
  rewrite duration_loop_S. cbn [total].
  rewrite (ltb_units e L Ne NL), Ue, Z.ltb_irrefl. cbn [app].
  rewrite (output_run_listing "split_clips_by_duration"
             [subclip (mk_video path L) 0 (Some e)]
             {| fs := fs w; trace := trace w ++ [EvOpen path] |}
             clip_path_duration Hdir).
  exists e. eexists. eexists. split; [reflexivity | ]. split.
  - unfold after_output. cbn [fs trace write_events]. rewrite <- app_assoc.
    reflexivity.
  - rewrite eqb_units by assumption. apply Z.eqb_eq. exact Ue.
Qed.

Lemma split_video_by_duration_whole_witness :
  exists (e : float) (w' : world) (listing : list string),
    split_video_by_duration PyFloat.float (S (S 0)) (Some "v.mp4") "inf"
      (one_video "v.mp4" 100%float) = (w', Returns listing)
    /\ trace w' =
         trace (one_video "v.mp4" 100%float)
           ++ [EvOpen "v.mp4"; EvMakedirs "split_clips_by_duration";
               EvWrite "split_clips_by_duration/clip_0.mp4"
                 (subclip (mk_video "v.mp4" 100%float) 0 (Some e))]
    /\ (e =? 100)%float = true.
Proof.
  apply (split_video_by_duration_whole PyFloat.float 0 "v.mp4" "inf" infinity
           100%float (one_video "v.mp4" 100%float)).
  - discriminate.
  - discriminate.
  - vm_compute. reflexivity.
  - reflexivity.
  - reflexivity.
  - reflexivity.
  - intros p. discriminate.
Defined.

(** X13: a duration that parses to NaN (the text [nan]) passes the
    validation of [split_video_by_duration]; on a video of positive
    length the loop runs once and ends, since no comparison with NaN
    holds: exactly one clip is asked for, from [0] to NaN, and handed
    to [write_videofile]. *)
Theorem split_video_by_duration_nan (py_float : string -> option float)
    (fuel : nat) (path duration : string) (d L : float) (w : world) :
  path <> "" -> duration <> "" ->
  py_float duration = Some d ->
  is_nan d = true ->
  Fs.lookup path (fs w) = Some (File (Some L)) ->
  (0 <? L)%float = true ->
  (forall p, Fs.lookup "split_clips_by_duration" (fs w) <> Some (File p)) ->
  exists w' listing,
    split_video_by_duration py_float (S (S fuel)) (Some path) duration w
      = (w', Returns listing)
    /\ trace w' =
         trace w ++ [EvOpen path; EvMakedirs "split_clips_by_duration";
                     EvWrite "split_clips_by_duration/clip_0.mp4"
                       (subclip (mk_video path L) 0 (Some nan))].
Proof.
  intros Hp Hdur Hparse Hnan Hv HL Hdir.
  rewrite (split_video_by_duration_open py_float (S (S fuel)) path duration d L w
             Hp Hdur Hparse Hv).
  apply is_nan_nan in Hnan. subst d.
  rewrite duration_loop_S. cbn [total]. rewrite HL.
  change (0 + nan)%float with nan.
  assert (Hmin : py_min nan L = nan).
  { unfold py_min. rewrite ltb_nan_r by reflexivity. reflexivity. }
  rewrite Hmin, duration_loop_S. cbn [total].
  rewrite ltb_nan_l by reflexivity. cbn [app].
  rewrite (output_run_listing "split_clips_by_duration"
             [subclip (mk_video path L) 0 (Some nan)]
             {| fs := fs w; trace := trace w ++ [EvOpen path] |}
             clip_path_duration Hdir).
  eexists. eexists. split; [reflexivity | ].
  unfold after_output. cbn [fs trace write_events]. rewrite <- app_assoc.
  reflexivity.
Qed.

Lemma split_video_by_duration_nan_witness :
  exists w' listing,
    split_video_by_duration PyFloat.float (S (S 0)) (Some "v.mp4") "nan"
      (one_video "v.mp4" 100%float) = (w', Returns listing)
    /\ trace w' =
         trace (one_video "v.mp4" 100%float)
           ++ [EvOpen "v.mp4"; EvMakedirs "split_clips_by_duration";
               EvWrite "split_clips_by_duration/clip_0.mp4"
                 (subclip (mk_video "v.mp4" 100%float) 0 (Some nan))].
Proof.
  apply (split_video_by_duration_nan PyFloat.float 0 "v.mp4" "nan" nan 100%float
           (one_video "v.mp4" 100%float)).
  - discriminate.
  - discriminate.
  - vm_compute. reflexivity.
  - reflexivity.
  - reflexivity.
  - reflexivity.
  - intros p. discriminate.
Defined.

(** X14: on a video whose length is not positive the loop of
    [split_video_by_duration] does not run, whatever the duration: the
    directory is made, no clip is written, and the listing returned is
    that of the video files the directory already held (the listing
    [get_video_files_from_dir] gives before the call, if the directory
    was there). *)
Theorem split_video_by_duration_empty_video (py_float : string -> option float)
    (fuel : nat) (path duration : string) (d L : float) (w : world) :
  path <> "" -> duration <> "" ->
  py_float duration = Some d ->
  Fs.lookup path (fs w) = Some (File (Some L)) ->
  (0 <? L)%float = false ->
  (forall p, Fs.lookup "split_clips_by_duration" (fs w) <> Some (File p)) ->
  split_video_by_duration py_float (S fuel) (Some path) duration w =
    ({| fs := with_dir "split_clips_by_duration" (fs w);
        trace := trace w ++ [EvOpen path; EvMakedirs "split_clips_by_duration"] |},
     Returns (video_files "split_clips_by_duration" w))
  /\ (forall old,
        snd (get_video_files_from_dir "split_clips_by_duration" w) = Returns old ->
        video_files "split_clips_by_duration" w = old).
Proof.
  intros Hp Hdur Hparse Hv HL Hdir. split.
  - rewrite (split_video_by_duration_open py_float (S fuel) path duration d L w
               Hp Hdur Hparse Hv).
    rewrite duration_loop_S. cbn [total]. rewrite HL.
    rewrite (output_run_listing "split_clips_by_duration" []
               {| fs := fs w; trace := trace w ++ [EvOpen path] |}
               clip_path_duration Hdir).
    unfold after_output. cbn [fs trace written write_events].
    rewrite <- app_assoc. cbn [app].
    rewrite (video_files_with_dir "split_clips_by_duration"
               {| fs := fs w; trace := trace w ++ [EvOpen path] |}).
    rewrite (video_files_fs _ _ w) by reflexivity. reflexivity.
  - intros old Hold. symmetry.
    apply get_video_files_from_dir_Returns. exact Hold.
Qed.

Lemma split_video_by_duration_empty_video_witness :
  let w := {| fs := [("v.mp4", File (Some 0%float));
                     ("split_clips_by_duration", Dir);
                     ("split_clips_by_duration/clip_0.mp4", File (Some 3%float))];
              trace := [] |} in
  split_video_by_duration PyFloat.float (S 0) (Some "v.mp4") "40" w =
    ({| fs := with_dir "split_clips_by_duration" (fs w);
        trace := trace w ++ [EvOpen "v.mp4"; EvMakedirs "split_clips_by_duration"] |},
     Returns (video_files "split_clips_by_duration" w))
  /\ (forall old,
        snd (get_video_files_from_dir "split_clips_by_duration" w) = Returns old ->
        video_files "split_clips_by_duration" w = old).
Proof.
  intros w.
  apply (split_video_by_duration_empty_video PyFloat.float 0 "v.mp4" "40"
           40%float 0%float w).
  - discriminate.
  - discriminate.
  - vm_compute. reflexivity.
  - reflexivity.
  - reflexivity.
  - intros p. discriminate.
Defined.

(** X15: whenever the loop of [split_video_by_duration] ends, the
    listing the call returns holds the path of every clip it has just
    written and every video file that was in the output directory
    before the call. *)
Theorem split_video_by_duration_listing (py_float : string -> option float)
    (fuel : nat) (path duration : string) (d L : float) (clips : list clip)
    (w : world) :
  path <> "" -> duration <> "" ->
  py_float duration = Some d ->
  Fs.lookup path (fs w) = Some (File (Some L)) ->
  (forall p, Fs.lookup "split_clips_by_duration" (fs w) <> Some (File p)) ->
  duration_loop fuel (mk_video path L) d 0%float [] = Some clips ->
  exists (w' : world) (listing : list string),
    split_video_by_duration py_float fuel (Some path) duration w
      = (w', Returns listing)
    /\ trace w' =
         trace w ++ EvOpen path :: EvMakedirs "split_clips_by_duration"
           :: write_events "split_clips_by_duration" 0 clips
    /\ (forall i, (i < List.length clips)%nat ->
          In (clip_path "split_clips_by_duration" i) listing)
    /\ (forall old,
          snd (get_video_files_from_dir "split_clips_by_duration" w) = Returns old ->
          incl old listing).
Proof.
  intros Hp Hdur Hparse Hv Hd Hloop.
  rewrite (split_video_by_duration_open py_float fuel path duration d L w
             Hp Hdur Hparse Hv), Hloop.
  rewrite (output_run_listing "split_clips_by_duration" clips
             {| fs := fs w; trace := trace w ++ [EvOpen path] |}
             clip_path_duration Hd).
  eexists. eexists. split; [reflexivity | ].
  split; [apply after_output_trace | ]. split.
  - intros i Hi. apply after_output_new. exact Hi.
  - intros old Hold x Hx.
    apply get_video_files_from_dir_Returns in Hold. subst old.
    apply after_output_old.
    rewrite (video_files_fs _ _ w) by reflexivity. exact Hx.
Qed.

Lemma split_video_by_duration_listing_witness :
  let w := {| fs := [("v.mp4", File (Some 100%float));
                     ("split_clips_by_duration", Dir);
                     ("split_clips_by_duration/clip_7.mp4", File (Some 3%float))];
              trace := [] |} in
  let clips := [subclip (mk_video "v.mp4" 100) 0 (Some 40%float);
                subclip (mk_video "v.mp4" 100) 40 (Some 80%float);
                subclip (mk_video "v.mp4" 100) 80 (Some 100%float)] in
  exists (w' : world) (listing : list string),
    split_video_by_duration PyFloat.float 4 (Some "v.mp4") "40" w
      = (w', Returns listing)
    /\ trace w' =
         trace w ++ EvOpen "v.mp4" :: EvMakedirs "split_clips_by_duration"
           :: write_events "split_clips_by_duration" 0 clips
    /\ (forall i, (i < List.length clips)%nat ->
          In (clip_path "split_clips_by_duration" i) listing)
    /\ (forall old,
          snd (get_video_files_from_dir "split_clips_by_duration" w) = Returns old ->
          incl old listing).
Proof.
  intros w clips.
  apply (split_video_by_duration_listing PyFloat.float 4 "v.mp4" "40" 40%float
           100%float clips w).
  - discriminate.
  - discriminate.
  - vm_compute. reflexivity.
  - reflexivity.
  - intros p. discriminate.
  - vm_compute. reflexivity.
Defined.

(** ** Failures of the library *)

(** X2: a path that is not a playable video makes either splitter fail
    with the library's error, which is not caught: it is not a
    [gr.Error], and nothing has been created or written. *)
Theorem splitters_unplayable_video (py_float : string -> option float)
    (fuel : nat) (path marks duration : string) (parsed : list float) (d : float)
    (w : world) :
  path <> "" -> marks <> "" -> duration <> "" ->
  parse_all py_float (Str.split "," marks) = Some parsed ->
  py_float duration = Some d ->
  (forall D, Fs.lookup path (fs w) <> Some (File (Some D))) ->
  split_video_at_marks py_float (Some path) marks w
    = (w, Raises (OSError "VideoFileClip"))
  /\ split_video_by_duration py_float fuel (Some path) duration w
    = (w, Raises (OSError "VideoFileClip")).
Proof.
  intros Hp Hm Hd Hparse Hdur Hbad.
  apply String.eqb_neq in Hp, Hm, Hd.
  unfold split_video_at_marks, split_video_by_duration.
  rewrite Hp, Hm, Hd, Hparse, Hdur. unfold bind.
  rewrite (VideoFileClip_unplayable path w Hbad). split; reflexivity.
Qed.

Lemma splitters_unplayable_video_witness :
  split_video_at_marks PyFloat.float (Some "notes.txt") "10,30"
    {| fs := [("notes.txt", File None)]; trace := [] |}
    = ({| fs := [("notes.txt", File None)]; trace := [] |},
       Raises (OSError "VideoFileClip"))
  /\ split_video_by_duration PyFloat.float 5 (Some "notes.txt") "40"
       {| fs := [("notes.txt", File None)]; trace := [] |}
    = ({| fs := [("notes.txt", File None)]; trace := [] |},
       Raises (OSError "VideoFileClip")).
Proof.
  apply (splitters_unplayable_video PyFloat.float 5 "notes.txt" "10,30" "40"
           [10; 30]%float 40%float).
  - discriminate.
  - discriminate.
  - discriminate.
  - vm_compute. reflexivity.
  - vm_compute. reflexivity.
  - intros D. discriminate.
Defined.

(** X3: when a file of the list is not a playable video, [merge_videos]
    fails with the library's error at that file: the files before it
    have been opened, the ones after it have not, nothing has been
    written and [merged_video.mp4] is as it was. *)
Theorem merge_videos_unplayable (good : list string) (ds : list float)
    (bad : string) (rest : list string) (w : world) :
  Forall2 (fun p d => Fs.lookup p (fs w) = Some (File (Some d))) good ds ->
  (forall D, Fs.lookup bad (fs w) <> Some (File (Some D))) ->
  merge_videos (Some (good ++ bad :: rest)) w =
    ({| fs := fs w; trace := trace w ++ map EvOpen good |},
     Raises (OSError "VideoFileClip")).
Proof.
  intros H Hbad.
  rewrite merge_videos_nonempty by (destruct good; discriminate).
  unfold bind at 1. rewrite (open_all_unplayable good ds bad rest w H Hbad).
  reflexivity.
Qed.

Lemma merge_videos_unplayable_witness :
  merge_videos (Some (["a.mp4"] ++ "notes.txt" :: ["b.mp4"]))
    {| fs := [("a.mp4", File (Some 20%float)); ("notes.txt", File None);
              ("b.mp4", File (Some 15%float))];
       trace := [] |}
  = ({| fs := [("a.mp4", File (Some 20%float)); ("notes.txt", File None);
               ("b.mp4", File (Some 15%float))];
        trace := [] ++ map EvOpen ["a.mp4"] |},
     Raises (OSError "VideoFileClip")).
Proof.
  apply (merge_videos_unplayable ["a.mp4"] [20%float] "notes.txt" ["b.mp4"]
           {| fs := [("a.mp4", File (Some 20%float)); ("notes.txt", File None);
                     ("b.mp4", File (Some 15%float))];
              trace := [] |}).
  - repeat constructor.
  - intros D. discriminate.
Defined.

(** ** The merger and the lister, further *)

(** X16: [merge_videos] touches no file but [merged_video.mp4], and a
    second merge of the same files (none of them being the merge
    itself) leaves the files exactly as the first merge left them. *)
Theorem merge_videos_again (paths : list string) (ds : list float) (w : world) :
  paths <> [] ->
  Forall2 (fun p d => Fs.lookup p (fs w) = Some (File (Some d))) paths ds ->
  ~ In "merged_video.mp4" paths ->
  let w1 := fst (merge_videos (Some paths) w) in
  (forall q, q <> "merged_video.mp4" -> Fs.lookup q (fs w1) = Fs.lookup q (fs w))
  /\ snd (merge_videos (Some paths) w1) = Returns "merged_video.mp4"
  /\ fs (fst (merge_videos (Some paths) w1)) = fs w1.
Proof.
  intros Hne H Hnot w1.
  pose proof (merge_videos_run paths ds w Hne H) as Hrun.
  assert (Hfs : fs w1 = Fs.put "merged_video.mp4"
                          (File (Some (fold_left PrimFloat.add ds 0%float))) (fs w)).
  { unfold w1. rewrite Hrun. reflexivity. }
  assert (Hother : forall q, q <> "merged_video.mp4" ->
                     Fs.lookup q (fs w1) = Fs.lookup q (fs w)).
  { intros q Hq. rewrite Hfs. apply lookup_put_other.
    apply String.eqb_neq. congruence. }
  assert (H1 : Forall2 (fun p d => Fs.lookup p (fs w1) = Some (File (Some d)))
                       paths ds).
  { clear Hrun Hfs Hne. clearbody w1.
    induction H as [ | p d paths' ds' Hp _ IH]; constructor.
    - rewrite Hother; [exact Hp | ]. intros ->. apply Hnot. left. reflexivity.
    - apply IH. intros Hin. apply Hnot. right. exact Hin. }
  split; [exact Hother | ].
  rewrite (merge_videos_run paths ds w1 Hne H1). cbn [fst snd fs].
  split; [reflexivity | ].
  apply put_same. rewrite Hfs. apply lookup_put_same.
Qed.

Lemma merge_videos_again_witness :
  let w := {| fs := [("a.mp4", File (Some 20%float));
                     ("b.mp4", File (Some 15%float))];
              trace := [] |} in
  let w1 := fst (merge_videos (Some ["a.mp4"; "b.mp4"]) w) in
  (forall q, q <> "merged_video.mp4" -> Fs.lookup q (fs w1) = Fs.lookup q (fs w))
  /\ snd (merge_videos (Some ["a.mp4"; "b.mp4"]) w1) = Returns "merged_video.mp4"
  /\ fs (fst (merge_videos (Some ["a.mp4"; "b.mp4"]) w1)) = fs w1.
Proof.
  intros w.
  apply (merge_videos_again ["a.mp4"; "b.mp4"] [20%float; 15%float] w).
  - discriminate.
  - repeat constructor.
  - intros [H | [H | []]]; discriminate.
Defined.

(** X17: [get_video_files_from_dir] never changes the world; it fails
    (with the error of [os.listdir]) exactly when its argument is not
    an existing directory. *)
Theorem get_video_files_from_dir_readonly (directory : string) (w : world) :
  fst (get_video_files_from_dir directory w) = w
  /\ (snd (get_video_files_from_dir directory w) = Raises (OSError "listdir")
      <-> Fs.lookup directory (fs w) <> Some Dir)
  /\ ((exists listing, snd (get_video_files_from_dir directory w) = Returns listing)
      <-> Fs.lookup directory (fs w) = Some Dir).
Proof.
  unfold get_video_files_from_dir, bind, listdir.
  destruct (Fs.lookup directory (fs w)) as [[p | ] | ]; cbn [fst snd].
  - split; [reflexivity | ]. split.
    + split; [intros _; discriminate | reflexivity].
    + split; [intros [l H]; discriminate | discriminate].
  - split; [reflexivity | ]. split.
    + split; [discriminate | intros H; exfalso; apply H; reflexivity].
    + split; [reflexivity | intros _; eexists; reflexivity].
  - split; [reflexivity | ]. split.
    + split; [intros _; discriminate | reflexivity].
    + split; [intros [l H]; discriminate | discriminate].
Qed.
